(** * abbott: the IRC admin plugins (src/abbott/plugins/admin.py) and the
    plugin base (src/abbott/pluginbase.py)

    A shallow embedding of the [IRCAdmin] and [IRCTopic] plugins: the timed
    mode requests ([later_timers] and the persisted [laters] list), the
    hostmask helper, the chat commands on modes and the topic commands; and
    of [PluginConfig], [PluginBoss] and the dispatcher methods of
    [BotPlugin].

    Conventions of the embedding:
    - Python strings are [string]s (sequences of 8-bit characters);
    - [time.time()] readings, delays and timestamps are integers ([Z],
      seconds); the rounding of Python floats is not modelled;
    - the twisted reactor, the transport and the whois/calendar services are
      not part of the plugin: the reactor is a table of delayed calls with
      twisted's [cancel] contract (cancelling a call that was cancelled or
      has run raises), the others are answers supplied by the environment
      (the class [World]);
    - a method is a function from the plugin's state to a result, or an
      exception, and the next state; what the plugin sends out is appended
      to an [outbox]. A generator method ([inlineCallbacks]) is run to its
      end on the answers of the environment, other events are not
      interleaved between its [yield]s; [do_later] changes the tables of the
      plugin only before its first [yield];
    - for the plugin base the json files are a table from paths to JSON
      data, and a plugin class is known by whether its [start()] and
      [stop()] return or raise. *)

From Stdlib Require Import ZArith String Ascii List Lia DecimalString.
From stdpp Require Import gmap strings list fin_maps.
Import ListNotations.

(** ** Python values used by the plugins *)

Module Py.

(** Exceptions that the modelled code raises or catches. *)
Inductive Exc : Type :=
| KeyError
| IndexError
| AlreadyCancelled
| AlreadyCalled
| OpFailed (msg : string)
| ValueError (msg : string)
| NoSuchNick
| WhoisTimedout
| UnboundLocalError (name : string)
| OtherError (msg : string).

Inductive result (A : Type) : Type :=
| Ok (a : A)
| Raise (e : Exc).
Arguments Ok {A} a.
Arguments Raise {A} e.

(** [str(e)] of an exception that carries a message. *)
Definition exc_str (e : Exc) : string :=
  match e with
  | OpFailed msg | ValueError msg | OtherError msg => msg
  | UnboundLocalError n => n
  | KeyError => "KeyError"
  | IndexError => "IndexError"
  | AlreadyCancelled => "AlreadyCancelled"
  | AlreadyCalled => "AlreadyCalled"
  | NoSuchNick => "NoSuchNick"
  | WhoisTimedout => "WhoisTimedout"
  end.

(** [format] of a value that may be [None]. *)
Definition str_opt (v : option string) : string :=
  match v with
  | Some s => s
  | None => "None"
  end.

(** [c in s] for a one-character needle. *)
Fixpoint contains (c : ascii) (s : string) : bool :=
  match s with
  | EmptyString => false
  | String d r => if Ascii.eqb d c then true else contains c r
  end.

(** [s.startswith(p)] *)
Definition startswith (p s : string) : bool := String.prefix p s.

(** [s.split(sep)] for a one-character separator: always at least one part. *)
Fixpoint split (sep : ascii) (s : string) : list string :=
  match s with
  | EmptyString => [EmptyString]
  | String c r =>
      if Ascii.eqb c sep then EmptyString :: split sep r
      else match split sep r with
           | [] => [String c EmptyString]
           | p :: ps => String c p :: ps
           end
  end.

(** [s[n:]] *)
Fixpoint drop_chars (n : nat) (s : string) : string :=
  match n, s with
  | O, _ => s
  | S _, EmptyString => EmptyString
  | S m, String _ r => drop_chars m r
  end.

(** Whitespace as [strip()] sees it in the 8-bit range. *)
Definition isspace (c : ascii) : bool :=
  let n := nat_of_ascii c in
  ((9 <=? n) && (n <=? 13)) || ((28 <=? n) && (n <=? 32))
  || (n =? 133) || (n =? 160).

Fixpoint lstrip (s : string) : string :=
  match s with
  | EmptyString => EmptyString
  | String c r => if isspace c then lstrip r else s
  end.

Fixpoint rstrip (s : string) : string :=
  match s with
  | EmptyString => EmptyString
  | String c r =>
      match rstrip r with
      | EmptyString => if isspace c then EmptyString else String c EmptyString
      | r' => String c r'
      end
  end.

Definition strip (s : string) : string := rstrip (lstrip s).

(** [s.split()]: the words of [s], separated by runs of whitespace. *)
Fixpoint words (s : string) : list string :=
  match s with
  | EmptyString => []
  | String c r =>
      if isspace c then words r
      else match r with
           | EmptyString => [String c EmptyString]
           | String d _ =>
               if isspace d then String c EmptyString :: words r
               else match words r with
                    | w :: ws => String c w :: ws
                    | [] => [String c EmptyString]
                    end
           end
  end.

(** [s.replace(old, new)] for one-character [old] and [new]. *)
Fixpoint replace_char (old new : ascii) (s : string) : string :=
  match s with
  | EmptyString => EmptyString
  | String c r => String (if Ascii.eqb c old then new else c) (replace_char old new r)
  end.

(** [sep.join(parts)] *)
Definition join (sep : string) (parts : list string) : string :=
  String.concat sep parts.

(** ["%s" % n] for a length. *)
Definition str_of_nat (n : nat) : string :=
  NilEmpty.string_of_uint (Nat.to_uint n).

(** Index normalisation of [l[pos]] and [del l[pos]] on a list of length
    [n]: negative positions count from the end, anything outside
    [-n .. n-1] raises [IndexError]. *)
Definition index (n : nat) (pos : Z) : option nat :=
  if (0 <=? pos)%Z then
    (if (pos <? Z.of_nat n)%Z then Some (Z.to_nat pos) else None)
  else
    (if (- Z.of_nat n <=? pos)%Z then Some (Z.to_nat (Z.of_nat n + pos)) else None).

(** [l[pos] = x] *)
Definition setitem {A} (l : list A) (pos : Z) (x : A) : result (list A) :=
  match index (length l) pos with
  | Some i => Ok (<[i := x]> l)
  | None => Raise IndexError
  end.

(** [del l[pos]] *)
Definition delitem {A} (l : list A) (pos : Z) : result (list A) :=
  match index (length l) pos with
  | Some i => Ok (delete i l)
  | None => Raise IndexError
  end.

(** [l.insert(pos, x)]: never raises, the position is clamped to the list. *)
Definition insert_at {A} (l : list A) (pos : Z) (x : A) : list A :=
  let n := Z.of_nat (length l) in
  let p := if (pos <? 0)%Z then Z.max 0 (n + pos) else Z.min pos n in
  take (Z.to_nat p) l ++ x :: drop (Z.to_nat p) l.

(** *** The monad of plugin methods: the plugin's state, and a result or an
    exception. The state reached when an exception is raised is kept. *)

Definition M (St A : Type) : Type := St -> result A * St.

Definition ret {St A} (a : A) : M St A := fun s => (Ok a, s).
Definition raise {St A} (e : Exc) : M St A := fun s => (Raise e, s).
Definition bind {St A B} (m : M St A) (f : A -> M St B) : M St B :=
  fun s => match m s with
           | (Ok a, s') => f a s'
           | (Raise e, s') => (Raise e, s')
           end.
Definition get {St} : M St St := fun s => (Ok s, s).
Definition modify {St} (f : St -> St) : M St unit := fun s => (Ok tt, f s).
(** [try: m  except Exception as e: h(e)]; the handler re-raises what the
    source's [except] clause does not name. *)
Definition try_except {St A} (m : M St A) (h : Exc -> M St A) : M St A :=
  fun s => match m s with
           | (Ok a, s') => (Ok a, s')
           | (Raise e, s') => h e s'
           end.

Declare Scope py_scope.
Delimit Scope py_scope with py.
Notation "x <- m ;; k" := (bind m (fun x => k))
  (at level 100, m at next level, right associativity) : py_scope.
Notation "m ;;; k" := (bind m (fun _ => k))
  (at level 100, right associativity) : py_scope.

(** A list comprehension whose element expression has effects. *)
Fixpoint map_m {St A B} (f : A -> M St B) (l : list A) : M St (list B) :=
  match l with
  | [] => ret []
  | x :: r => bind (f x) (fun y => bind (map_m f r) (fun ys => ret (y :: ys)))
  end.

Fixpoint for_each {St A} (l : list A) (body : A -> M St unit) : M St unit :=
  match l with
  | [] => ret tt
  | x :: r => bind (body x) (fun _ => for_each r body)
  end.

End Py.

(** ** The environment of the plugins

    What the plugins read from outside: the clock, the answers of the
    transport to issued requests, the whois service and the
    [parsedatetime] calendar. *)

Inductive Action : Type :=
| issue_request (name : string) (args : list (string * option string))
| send_event (eventtype : string) (fields : list (string * string))
| reply (msg : string)
| deferred_callback (d : nat) (value : string).

Class World : Type := {
  (** the n-th reading of [time.time()] *)
  time_at : nat -> Z;
  (** how the deferred of [transport.issue_request(name, args)] fires *)
  transport_answer : string -> list (string * option string) -> Py.result unit;
  (** [whois_results['RPL_WHOISUSER'][0..2]] of an ["irc.whois"] request *)
  whois : string -> Py.result (string * string * string);
  (** [time.mktime] of what [Calendar().parse] returns; [None] is status 0 *)
  calendar_parse : string -> option Z
}.

(** ** IRCAdmin *)

Module Admin.
Import Py.
Local Open Scope py_scope.

(** [(param, channel, mode)], the keys of [later_timers]. *)
Abbreviation Key := (option string * string * string)%type.

(** An item of [config['laters']]: [(activatetime, param, channel, mode)]. *)
Record Later : Type := mkLater {
  activatetime : Z;
  l_param : option string;
  l_channel : string;
  l_mode : string
}.

Definition later_key (item : Later) : Key :=
  (l_param item, l_channel item, l_mode item).

(** [item[1] == param and item[2] == channel and item[3] == mode] *)
Definition same_key (param : option string) (channel mode : string) (item : Later) : Prop :=
  l_param item = param /\ l_channel item = channel /\ l_mode item = mode.

#[global] Instance same_key_dec param channel mode item :
  Decision (same_key param channel mode item).
Proof. unfold same_key. apply _. Defined.

(** The reactor's delayed calls. Every delayed call of this plugin runs
    [do_later], a closure over the key it was created for. *)
Inductive CallStatus : Type := Pending | Cancelled | Called.

#[global] Instance CallStatus_eq_dec : EqDecision CallStatus.
Proof. solve_decision. Defined.

Record DelayedCall : Type := mkCall {
  dc_delay : Z;
  dc_key : Key;
  dc_status : CallStatus
}.

Definition with_status (st : CallStatus) (dc : DelayedCall) : DelayedCall :=
  mkCall (dc_delay dc) (dc_key dc) st.

Record IRCAdmin : Type := mkAdmin {
  started : bool;
  (** key -> handle of its delayed call (an index in [reactor]) *)
  later_timers : gmap Key nat;
  (** [self.config['laters']] *)
  laters : list Later;
  (** [self.config['defaulttime']] *)
  defaulttime : option Z;
  (** the ['laters'] entry of the plugin's json file, [None] when absent *)
  jsonfile : option (list Later);
  reactor : list DelayedCall;
  (** number of [time.time()] readings made so far *)
  clock : nat;
  (** what was handed to the transport and to [event.reply], oldest first *)
  outbox : list Action
}.

Definition set_started (b : bool) (s : IRCAdmin) : IRCAdmin :=
  mkAdmin b (later_timers s) (laters s) (defaulttime s) (jsonfile s) (reactor s) (clock s) (outbox s).
Definition set_later_timers (m : gmap Key nat) (s : IRCAdmin) : IRCAdmin :=
  mkAdmin (started s) m (laters s) (defaulttime s) (jsonfile s) (reactor s) (clock s) (outbox s).
Definition set_laters (l : list Later) (s : IRCAdmin) : IRCAdmin :=
  mkAdmin (started s) (later_timers s) l (defaulttime s) (jsonfile s) (reactor s) (clock s) (outbox s).
Definition set_jsonfile (f : option (list Later)) (s : IRCAdmin) : IRCAdmin :=
  mkAdmin (started s) (later_timers s) (laters s) (defaulttime s) f (reactor s) (clock s) (outbox s).
Definition set_reactor (r : list DelayedCall) (s : IRCAdmin) : IRCAdmin :=
  mkAdmin (started s) (later_timers s) (laters s) (defaulttime s) (jsonfile s) r (clock s) (outbox s).
Definition set_clock (n : nat) (s : IRCAdmin) : IRCAdmin :=
  mkAdmin (started s) (later_timers s) (laters s) (defaulttime s) (jsonfile s) (reactor s) n (outbox s).
Definition set_outbox (o : list Action) (s : IRCAdmin) : IRCAdmin :=
  mkAdmin (started s) (later_timers s) (laters s) (defaulttime s) (jsonfile s) (reactor s) (clock s) o.

Abbreviation M := (Py.M IRCAdmin).

Section WithWorld.
Context {W : World}.

(** [time.time()] *)
Definition time_time : M Z :=
  fun s => (Ok (time_at (clock s)), set_clock (S (clock s)) s).

(** [reactor.callLater(delay, do_later)] with [do_later] closed over [k] *)
Definition callLater (delay : Z) (k : Key) : M nat :=
  fun s => (Ok (length (reactor s)),
            set_reactor (reactor s ++ [mkCall delay k Pending]) s).

(** [timer.cancel()]: twisted raises on a call that is no longer pending. *)
Definition timer_cancel (timer : nat) : M unit :=
  fun s => match reactor s !! timer with
           | Some dc =>
               match dc_status dc with
               | Pending => (Ok tt, set_reactor (<[timer := with_status Cancelled dc]> (reactor s)) s)
               | Cancelled => (Raise AlreadyCancelled, s)
               | Called => (Raise AlreadyCalled, s)
               end
           | None => (Raise (OtherError "unknown delayed call"), s)
           end.

(** [self.config.save()] *)
Definition config_save : M unit :=
  fun s => (Ok tt, set_jsonfile (Some (laters s)) s).

(** [yield self.transport.issue_request(name, **args)] *)
Definition yield_request (name : string) (args : list (string * option string)) : M unit :=
  modify (fun s => set_outbox (outbox s ++ [issue_request name args]) s) ;;;
  match transport_answer name args with
  | Ok _ => ret tt
  | Raise e => raise e
  end.

Definition transport_send_event (eventtype : string) (fields : list (string * string)) : M unit :=
  modify (fun s => set_outbox (outbox s ++ [send_event eventtype fields]) s).

Definition event_reply (msg : string) : M unit :=
  modify (fun s => set_outbox (outbox s ++ [reply msg]) s).

(** The filter of [config['laters']] that drops the items of a key. *)
Definition drop_key (param : option string) (channel mode : string) : M unit :=
  modify (fun s => set_laters
            (filter (fun item => ~ same_key param channel mode item) (laters s)) s).

Definition _set_timer (delay : Z) (param : option string) (channel mode : string) : M unit :=
  s <- get ;;
  match later_timers s !! (param, channel, mode) with
  | Some timer =>
      modify (fun s => set_later_timers (delete (param, channel, mode) (later_timers s)) s) ;;;
      timer_cancel timer
  | None => ret tt
  end ;;;
  drop_key param channel mode ;;;
  timer <- callLater (Z.max 1 delay) (param, channel, mode) ;;
  modify (fun s => set_later_timers (<[(param, channel, mode) := timer]> (later_timers s)) s) ;;;
  now <- time_time ;;
  modify (fun s => set_laters (laters s ++ [mkLater (now + delay) param channel mode]) s) ;;;
  config_save.

Definition _set_all_timers : M unit :=
  s <- get ;;
  for_each (map snd (map_to_list (later_timers s))) timer_cancel ;;;
  s <- get ;;
  for_each (laters s) (fun item =>
    now <- time_time ;;
    _set_timer (activatetime item - now) (l_param item) (l_channel item) (l_mode item)).

(** The dict literal of [do_later], in source order. *)
Definition mode_requests : list (string * string) :=
  [("+b", "ban"); ("+q", "quiet"); ("+o", "op"); ("-o", "deop");
   ("+v", "voice"); ("-v", "devoice"); ("-b", "unban"); ("-q", "unquiet")]%string.

Fixpoint dict_get (d : list (string * string)) (k : string) : option string :=
  match d with
  | [] => None
  | (k', v) :: r => if String.eqb k' k then Some v else dict_get r k
  end.

(** The closure [do_later] of [_set_timer (.., param, channel, mode)]. *)
Definition do_later (param : option string) (channel mode : string) : M unit :=
  s <- get ;;
  match later_timers s !! (param, channel, mode) with
  | Some _ => modify (fun s => set_later_timers (delete (param, channel, mode) (later_timers s)) s)
  | None => raise KeyError
  end ;;;
  drop_key param channel mode ;;;
  config_save ;;;
  try_except
    (try_except
       (match dict_get mode_requests mode with
        | Some name =>
            yield_request ("ircop." +:+ name)
              [("channel", Some channel); ("target", param)]%string
        | None => raise KeyError
        end)
       (fun e => match e with
                 | KeyError =>
                     yield_request "ircop.mode"
                       [("channel", Some channel); ("mode", Some mode); ("param", param)]%string
                 | _ => raise e
                 end))
    (fun e => match e with
              | OpFailed _ | ValueError _ =>
                  transport_send_event "irc.do_msg"
                    [("user", channel);
                     ("message", "I was about to do a " +:+ mode +:+ " " +:+ str_opt param
                                   +:+ ", but " +:+ exc_str e)]%string
              | _ => raise e
              end).

(** The reactor runs the delayed call [timer] once its delay has passed;
    it never runs a call that was cancelled or has run. *)
Definition reactor_fire (timer : nat) : M unit :=
  fun s => match reactor s !! timer with
           | Some dc =>
               match dc_status dc with
               | Pending =>
                   let '(param, channel, mode) := dc_key dc in
                   do_later param channel mode
                     (set_reactor (<[timer := with_status Called dc]> (reactor s)) s)
               | _ => (Raise (OtherError "delayed call is not pending"), s)
               end
           | None => (Raise (OtherError "unknown delayed call"), s)
           end.

(** The fields of an [irc.on_mode_change] event that the handler reads. *)
Record ModeChange : Type := mkModeChange {
  ev_set : bool;
  ev_mode : string;
  ev_arg : option string;
  ev_channel : string
}.

Definition on_event_irc_on_mode_change (event : ModeChange) : M unit :=
  let mode := if ev_set event then ("+" +:+ ev_mode event)%string
              else ("-" +:+ ev_mode event)%string in
  let user := ev_arg event in
  let channel := ev_channel event in
  s <- get ;;
  match later_timers s !! (user, channel, mode) with
  | None => ret tt
  | Some timer =>
      modify (fun s => set_later_timers (delete (user, channel, mode) (later_timers s)) s) ;;;
      timer_cancel timer ;;;
      drop_key user channel mode ;;;
      config_save
  end.

Definition stop : M unit :=
  s <- get ;;
  for_each (map snd (map_to_list (later_timers s))) timer_cancel.

(** [reload]: the config is read again from the json file, a missing
    ['laters'] becomes the empty list (in memory only), and the timers are
    synchronised only once the plugin has been started. *)
Definition reload : M unit :=
  modify (fun s => set_laters (default [] (jsonfile s)) s) ;;;
  s <- get ;;
  if started s then _set_all_timers else ret tt.

(** [__init__]: [started = False], an empty [later_timers], then the
    constructor of [BotPlugin] calls [reload]. *)
Definition new_plugin (file : option (list Later)) (dt : option Z) : IRCAdmin :=
  mkAdmin false ∅ [] dt file [] 0 [].

Definition construct (file : option (list Later)) (dt : option Z) : result unit * IRCAdmin :=
  reload (new_plugin file dt).

(** [start]: the part that concerns the timers. *)
Definition start : M unit :=
  modify (set_started true) ;;;
  _set_all_timers.

(** *** Commands *)

Definition parse_time (timestr : string) : M Z :=
  match calendar_parse timestr with
  | None => raise (ValueError "I don't understand when you want me to do that")
  | Some timestamp =>
      now <- time_time ;;
      ret (Z.max 1 (timestamp - now))
  end.

Definition _nick_to_hostmask (nick : string) : M string :=
  if (contains "!" nick && contains "@" nick) || startswith "$" nick then
    ret nick
  else
    modify (fun s => set_outbox (outbox s ++ [issue_request "irc.whois" [(EmptyString, Some nick)]]) s) ;;;
    match whois nick with
    | Raise e => raise e
    | Ok (_, username, host) =>
        if startswith "gateway/web/freenode/ip." host then
          ret ("*" +:+ "!" +:+ "*" +:+ "@"
               +:+ drop_chars 3 (default EmptyString (last (split "/" host))))
        else if startswith "gateway/" host then
          ret ("*" +:+ "!" +:+ username +:+ "@" +:+ "gateway/*")
        else
          ret ("*" +:+ "!" +:+ "*" +:+ "@" +:+ host)
    end.

(** Truthiness of an optional string ([None] and [""] are false) and of an
    optional number ([None] and [0] are false). *)
Definition truthy_str (v : option string) : bool :=
  match v with
  | Some (String _ _) => true
  | _ => false
  end.

Definition truthy_num (v : option Z) : bool :=
  match v with
  | Some z => negb (z =? 0)%Z
  | None => false
  end.

(** [_do_moderequest]: the request is issued and not awaited; the returned
    deferred is modelled by the way it fires. The callback [s] that books the
    reversal runs only when the request succeeds; an exception in a callback
    does not reach the caller, it becomes the failure of the deferred. *)
Definition _do_moderequest (channel mode hostmask : string) (duration : option Z)
  : M (result unit) :=
  name <- match dict_get [("b", "ban"); ("q", "quiet")]%string mode with
          | Some name => ret name
          | None => raise KeyError
          end ;;
  let args := [("channel", Some channel); ("target", Some hostmask)]%string in
  modify (fun s => set_outbox (outbox s ++ [issue_request ("ircop." +:+ name) args]) s) ;;;
  let req := transport_answer ("ircop." +:+ name) args in
  match req, duration with
  | Ok _, Some d =>
      if truthy_num duration then
        try_except (_set_timer d (Some hostmask) channel ("-" +:+ mode) ;;; ret req)
          (fun e => ret (Raise e))
      else ret req
  | _, _ => ret req
  end.

(** [yield d] on a deferred that has fired. *)
Definition await (d : result unit) : M unit :=
  match d with
  | Ok _ => ret tt
  | Raise e => raise e
  end.

(** [quiet], after the duration has been read. *)
Definition quiet_body (channel target : string) (duration : option Z) : M unit :=
  s <- get ;;
  let duration :=
    if negb (truthy_num duration) && truthy_num (defaulttime s)
    then defaulttime s else duration in
  r <- try_except (hostmask <- _nick_to_hostmask target ;; ret (Some hostmask))
         (fun e => match e with
                   | NoSuchNick =>
                       event_reply ("There is no user by that nick on the network. "
                                    +:+ "Try " +:+ target
                                    +:+ "!*@* to quiet anyone with that nick, or specify a full hostmask.") ;;;
                       ret None
                   | _ => raise e
                   end) ;;
  match r with
  | None => ret tt
  | Some hostmask =>
      try_except (d <- _do_moderequest channel "q" hostmask duration ;; await d)
        (fun e => match e with
                  | OpFailed _ => event_reply (exc_str e)
                  | _ => raise e
                  end)
  end.

Definition quiet (channel target : string) (timestr : option string) : M unit :=
  match timestr with
  | Some (String c r) =>
      p <- try_except (d <- parse_time (String c r) ;; ret (Ok d))
             (fun e => match e with
                       | ValueError _ => ret (Raise e)
                       | _ => raise e
                       end) ;;
      match p with
      | Ok d => quiet_body channel target (Some d)
      | Raise e => event_reply (exc_str e)
      end
  | _ => quiet_body channel target None
  end.

(** The locals [nick], [hostmask] and [do_kick] of [ban] after the three-way
    test on the target; [None] is a local that was never assigned. *)
Record BanLocals : Type := mkBanLocals {
  bl_nick : option string;
  bl_hostmask : option string;
  bl_do_kick : bool
}.

Definition local_var (name : string) (v : option string) : M string :=
  match v with
  | Some x => ret x
  | None => raise (UnboundLocalError name)
  end.

Definition ban (user channel target : string) (timestr : option string) : M unit :=
  let reason0 := ("Banned by " +:+ default EmptyString (head (split "!" user)))%string in
  rd <- match timestr with
        | Some (String c r) =>
            try_except (d <- parse_time (String c r) ;; ret (reason0, Some d))
              (fun e => match e with
                        | ValueError _ => ret (String c r, None)
                        | _ => raise e
                        end)
        | _ => ret (reason0, None)
        end ;;
  let '(reason, duration) := rd in
  s <- get ;;
  let duration :=
    if negb (truthy_num duration) && truthy_num (defaulttime s)
    then defaulttime s else duration in
  locals <-
    (if contains "@" target && contains "!" target && negb (contains "$" target) then
       let nick := default EmptyString (head (split "!" target)) in
       ret (Some (mkBanLocals (Some nick) (Some target) (negb (contains "*" nick))))
     else if negb (contains "@" target) && negb (contains "!" target)
             && negb (contains "$" target) then
       try_except (hostmask <- _nick_to_hostmask target ;;
                   ret (Some (mkBanLocals (Some target) (Some hostmask) true)))
         (fun e => match e with
                   | NoSuchNick =>
                       event_reply ("There is no user by that nick on the network. "
                                    +:+ "Try " +:+ target
                                    +:+ "!*@* to ban anyone with that nick, or specify a full hostmask.") ;;;
                       ret None
                   | WhoisTimedout =>
                       event_reply ("That's odd, the whois I did on " +:+ target
                                    +:+ " didn't work. Sorry.") ;;;
                       ret None
                   | _ => raise e
                   end)
     else ret (Some (mkBanLocals None None false))) ;;
  match locals with
  | None => ret tt
  | Some l =>
      hostmask <- local_var "hostmask" (bl_hostmask l) ;;
      ban_d <- _do_moderequest channel "b" hostmask duration ;;
      kick_d <- (if bl_do_kick l then
                   nick <- local_var "nick" (bl_nick l) ;;
                   let args := [("channel", Some channel); ("target", Some nick);
                                ("reason", Some reason)]%string in
                   modify (fun s => set_outbox (outbox s ++ [issue_request "ircop.kick" args]) s) ;;;
                   ret (Some (transport_answer "ircop.kick" args))
                 else ret None) ;;
      try_except
        (await ban_d ;;;
         match kick_d with
         | Some d => await d
         | None => raise (UnboundLocalError "kick_d")
         end)
        (fun e => match e with
                  | OpFailed _ => event_reply (exc_str e)
                  | _ => raise e
                  end)
  end.

(** *** The other commands *)

(** [self.transport.issue_request(name, **args)] without a [yield]: the
    request is handed to the transport, the deferred is what comes back. *)
Definition issue (name : string) (args : list (string * option string)) : M (result unit) :=
  modify (fun s => set_outbox (outbox s ++ [issue_request name args]) s) ;;;
  ret (transport_answer name args).

(** [event.user.split("!")[0]] *)
Definition nick_of (user : string) : string :=
  default EmptyString (head (split "!" user)).

Definition kick (channel nick : string) (reason : option string) : M unit :=
  try_except
    (yield_request "ircop.kick"
       [("channel", Some channel); ("target", Some nick); ("reason", reason)]%string)
    (fun e => match e with
              | OpFailed _ => event_reply (exc_str e)
              | _ => raise e
              end).

(** [voice], [devoice], [give_op] and [take_op] differ in the request name
    only: every request is issued first, then the deferreds are awaited in
    order. *)
Definition fan_out (request user channel : string) (nicks : option string) : M unit :=
  let nicks := match nicks with
               | Some (String c r) => words (String c r)
               | _ => [nick_of user]
               end in
  ds <- map_m (fun nick => issue request [("channel", Some channel); ("target", Some nick)]%string)
          nicks ;;
  try_except (for_each ds await)
    (fun e => match e with
              | OpFailed _ => event_reply (exc_str e)
              | _ => raise e
              end).

Definition voice := fan_out "ircop.voice".
Definition devoice := fan_out "ircop.devoice".
Definition give_op := fan_out "ircop.op".
Definition take_op := fan_out "ircop.deop".

(** [redirect]; [60*60*2] seconds. *)
Definition redirect (channel nick : string) (destchan : option string) : M unit :=
  let destchan := match destchan with
                  | Some (String c r) => String c r
                  | _ => "##FIX_YOUR_CONNECTION"%string
                  end in
  modify (fun s => set_outbox (outbox s ++ [issue_request "irc.whois" [(EmptyString, Some nick)]]) s) ;;;
  nh <- match whois nick with
        | Ok (n, username, _) => ret (n, ("*!" +:+ username +:+ "@*")%string)
        | Raise NoSuchNick => ret (nick, (nick +:+ "!*@*")%string)
        | Raise e => raise e
        end ;;
  let '(nick, hostmask) := nh in
  let hostmask := (hostmask +:+ "$" +:+ destchan)%string in
  ban_d <- _do_moderequest channel "b" hostmask (Some 7200%Z) ;;
  kick_d <- issue "ircop.kick"
              [("channel", Some channel); ("target", Some nick);
               ("reason", Some ("Redirected to " +:+ destchan))]%string ;;
  try_except (await ban_d ;;; await kick_d)
    (fun e => match e with
              | OpFailed _ => event_reply (exc_str e)
              | _ => raise e
              end) ;;;
  event_reply ("Redirected " +:+ nick +:+ " to " +:+ destchan +:+ " for 2 hours").

(** [_do_modederequest]: with a delay the reversal is only booked. *)
Definition _do_modederequest (channel mode hostmask : string) (delay : option Z)
  : M (result unit) :=
  match delay with
  | Some d =>
      if truthy_num delay then
        _set_timer d (Some hostmask) channel ("-" +:+ mode) ;;; ret (Ok tt)
      else
        name <- match dict_get [("b", "unban"); ("q", "unquiet")]%string mode with
                | Some name => ret name
                | None => raise KeyError
                end ;;
        issue ("ircop." +:+ name) [("channel", Some channel); ("target", Some hostmask)]%string
  | None =>
      name <- match dict_get [("b", "unban"); ("q", "unquiet")]%string mode with
              | Some name => ret name
              | None => raise KeyError
              end ;;
      issue ("ircop." +:+ name) [("channel", Some channel); ("target", Some hostmask)]%string
  end.

(** [unquiet] and [unban] differ in the mode letter and in one reply. *)
Definition un_command (mode nosuchnick : string) (channel target : string)
    (timestr : option string) : M unit :=
  p <- match timestr with
       | Some (String c r) =>
           try_except (d <- parse_time (String c r) ;; ret (Ok (Some d)))
             (fun e => match e with
                       | ValueError _ => ret (Raise e)
                       | _ => raise e
                       end)
       | _ => ret (Ok None)
       end ;;
  match p with
  | Raise e => event_reply (exc_str e)
  | Ok delay =>
      r <- try_except (hostmask <- _nick_to_hostmask target ;; ret (Some hostmask))
             (fun e => match e with
                       | NoSuchNick => event_reply nosuchnick ;;; ret None
                       | _ => raise e
                       end) ;;
      match r with
      | None => ret tt
      | Some hostmask =>
          try_except (d <- _do_modederequest channel mode hostmask delay ;; await d)
            (fun e => match e with
                      | OpFailed _ => event_reply (exc_str e)
                      | _ => raise e
                      end) ;;;
          if truthy_num delay then event_reply "It shall be done." else ret tt
      end
  end.

Definition unquiet := un_command "q"
  "There is no user by that nick on the network. Try specifying a full hostmask. Use “/mode +q” to see the channel quiet list".
Definition unban := un_command "b"
  "There is no user by that nick on the network. Try specifying a full hostmask. Use “/mode +b” to see the channel ban list".

(** [mode[0]] and [mode[1]] of [{"-":"+","+":"-"}[mode[0]] + mode[1]]. *)
Definition reversemode (mode : string) : result string :=
  match mode with
  | EmptyString => Raise IndexError
  | String sign r =>
      match dict_get [("-", "+"); ("+", "-")]%string (String sign EmptyString) with
      | None => Raise KeyError
      | Some sign' =>
          match r with
          | EmptyString => Raise IndexError
          | String letter _ => Ok (sign' +:+ String letter EmptyString)
          end
      end
  end.

(** [mode]; the local [time_to_wait] stays unassigned when the time does
    not parse. *)
Definition mode (channel mode : string) (param timespec : option string) : M unit :=
  let given := truthy_str timespec in
  let spec := default EmptyString timespec in
  time_to_wait <-
    (if given then
       try_except (d <- parse_time spec ;; ret (Some d))
         (fun e => match e with
                   | ValueError _ => event_reply (exc_str e) ;;; ret None
                   | _ => raise e
                   end)
     else ret None) ;;
  let bound := match time_to_wait with
               | Some d => ret d
               | None => raise (UnboundLocalError "time_to_wait")
               end in
  if given && (startswith "in" spec || startswith "at" spec) then
    d <- bound ;;
    _set_timer d param channel mode ;;;
    event_reply ("Doing a " +:+ mode +:+ " " +:+ str_opt param +:+ " in "
                 +:+ str_of_nat (Z.to_nat d) +:+ " seconds")
  else
    r <- try_except
           (yield_request "ircop.mode"
              [(EmptyString, Some channel); (EmptyString, Some mode); (EmptyString, param)] ;;;
            ret true)
           (fun e => match e with
                     | OpFailed _ | ValueError _ => event_reply (exc_str e) ;;; ret false
                     | _ => raise e
                     end) ;;
    if r && given then
      rm <- match reversemode mode with
            | Ok rm => ret rm
            | Raise e => raise e
            end ;;
      d <- bound ;;
      _set_timer d param channel rm
    else ret tt.

(** The [duration] of [on_request_ircadmin_timedquiet]: an [int], or a
    string to parse. *)
Inductive Duration : Type :=
| DurInt (n : Z)
| DurStr (s : string).

Definition on_request_ircadmin_timedquiet (channel target : string) (duration : Duration)
  : M unit :=
  d <- match duration with
       | DurInt n => ret n
       | DurStr s => parse_time s
       end ;;
  hostmask <- _nick_to_hostmask target ;;
  r <- _do_moderequest channel "q" hostmask (Some d) ;;
  await r.

(** *** The operations of the timed requests, as a transition system *)

Inductive Op : Type :=
| op_schedule (delay : Z) (param : option string) (channel mode : string)
| op_mode_change (event : ModeChange)
| op_fire (timer : nat).

Definition exec (o : Op) : M unit :=
  match o with
  | op_schedule delay param channel mode => _set_timer delay param channel mode
  | op_mode_change event => on_event_irc_on_mode_change event
  | op_fire timer => reactor_fire timer
  end.

(** The state after a list of operations. The state an operation leaves
    is kept also when it ends in an exception; firing a delayed call that
    is not pending changes nothing. *)
Definition run (ops : list Op) (s : IRCAdmin) : IRCAdmin :=
  fold_left (fun s o => snd (exec o s)) ops s.

(** A plugin that was constructed on a json file and then started. *)
Definition booted (file : option (list Later)) (dt : option Z) : IRCAdmin :=
  snd (start (snd (construct file dt))).

(** The delayed calls of a key that are still to run. *)
Definition live_timers (k : Key) (s : IRCAdmin) : list DelayedCall :=
  filter (fun dc => dc_key dc = k /\ dc_status dc = Pending) (reactor s).

(** The persisted items of a key. *)
Definition persisted (k : Key) (s : IRCAdmin) : list Later :=
  filter (fun item => later_key item = k) (laters s).

(** The request [do_later] issues first for a key. *)
Definition fire_request (param : option string) (channel mode : string) : Action :=
  match dict_get mode_requests mode with
  | Some name =>
      issue_request ("ircop." +:+ name) [("channel", Some channel); ("target", param)]%string
  | None =>
      issue_request "ircop.mode"
        [("channel", Some channel); ("mode", Some mode); ("param", param)]%string
  end.

Definition answer_of (a : Action) : result unit :=
  match a with
  | issue_request name args => transport_answer name args
  | _ => Ok tt
  end.

(** *** Vocabulary of the properties of the timed requests *)

(** The timer table and the reactor agree: the table maps each key to a
    pending delayed call of that key, every pending delayed call is the one
    the table holds for its key, and no delay is below 1. *)
Record Consistent (s : IRCAdmin) : Prop := mkConsistent {
  inv_table : forall k h, later_timers s !! k = Some h ->
    exists dc, reactor s !! h = Some dc /\ dc_key dc = k /\ dc_status dc = Pending;
  inv_pending : forall h dc, reactor s !! h = Some dc -> dc_status dc = Pending ->
    later_timers s !! dc_key dc = Some h;
  inv_delay : forall h dc, reactor s !! h = Some dc -> (1 <= dc_delay dc)%Z
}.

(** The invariant of the timed requests: moreover the keys of the table
    are the keys of [config['laters']], no key has two items, and the file
    holds the list. *)
Record Inv (s : IRCAdmin) : Prop := mkInv {
  inv_consistent : Consistent s;
  inv_keys : forall k, is_Some (later_timers s !! k) <-> k ∈ later_key <$> laters s;
  inv_nodup : NoDup (later_key <$> laters s);
  inv_saved : default [] (jsonfile s) = laters s
}.

(** The reactor after [_set_timer] has cancelled the call booked for [k]. *)
Definition cancelled_for (k : Key) (s : IRCAdmin) : list DelayedCall :=
  match later_timers s !! k with
  | Some h => alter (with_status Cancelled) h (reactor s)
  | None => reactor s
  end.

(** The state [_set_timer] leaves, when the call it has to cancel is a
    pending one. *)
Definition scheduled (delay : Z) (k : Key) (s : IRCAdmin) : IRCAdmin :=
  let '(param, channel, mode) := k in
  let l := filter (fun item => later_key item <> k) (laters s)
           ++ [mkLater (time_at (clock s) + delay) param channel mode] in
  mkAdmin (started s)
    (<[k := length (reactor s)]> (later_timers s))
    l (defaulttime s) (Some l)
    (cancelled_for k s ++ [mkCall (Z.max 1 delay) k Pending])
    (S (clock s)) (outbox s).

(** The state after the key [k], booked on the call [h], has been taken out
    of the table and of the persisted list, the call being left as [st]. *)
Definition removed (st : CallStatus) (k : Key) (h : nat) (s : IRCAdmin) : IRCAdmin :=
  let l := filter (fun item => later_key item <> k) (laters s) in
  mkAdmin (started s) (delete k (later_timers s)) l (defaulttime s) (Some l)
    (alter (with_status st) h (reactor s)) (clock s) (outbox s).

(** The mode string of a mode-change event: sign and letter. *)
Definition mode_of (event : ModeChange) : string :=
  ((if ev_set event then "+" else "-") +:+ ev_mode event)%string.

(** What [do_later] sends after its first request, by the answer to it. *)
Definition notice (param : option string) (channel mode : string) (e : Exc) : Action :=
  send_event "irc.do_msg"
    [("user", channel);
     ("message", "I was about to do a " +:+ mode +:+ " " +:+ str_opt param
                   +:+ ", but " +:+ exc_str e)]%string.

(** The body of the second loop of [_set_all_timers]. *)
Definition resync_body (item : Later) : M unit :=
  now <- time_time ;;
  _set_timer (activatetime item - now) (l_param item) (l_channel item) (l_mode item).

(** The plugin when [start] enters [_set_all_timers]. *)
Definition boot_state (file : option (list Later)) (dt : option Z) : IRCAdmin :=
  mkAdmin true ∅ (default [] file) dt file [] 0 [].

(** The delayed calls the loop of [_set_all_timers] books for items with
    distinct keys, none of them booked before: one per item, in order; the
    loop reads the clock twice per item. *)
Fixpoint resync_calls (c : nat) (items : list Later) : list DelayedCall :=
  match items with
  | [] => []
  | item :: r =>
      mkCall (Z.max 1 (activatetime item - time_at c)) (later_key item) Pending
      :: resync_calls (S (S c)) r
  end.

(** The first failure among deferreds that are awaited in order. *)
Fixpoint first_error (ds : list (result unit)) : option Exc :=
  match ds with
  | [] => None
  | Ok _ :: r => first_error r
  | Raise e :: _ => Some e
  end.

(** *** The chat commands as inputs, beside the timed requests *)

Inductive Command : Type :=
| cmd_kick (channel nick : string) (reason : option string)
| cmd_voice (user channel : string) (nicks : option string)
| cmd_devoice (user channel : string) (nicks : option string)
| cmd_op (user channel : string) (nicks : option string)
| cmd_deop (user channel : string) (nicks : option string)
| cmd_quiet (channel target : string) (timestr : option string)
| cmd_ban (user channel target : string) (timestr : option string)
| cmd_redirect (channel nick : string) (destchan : option string)
| cmd_unquiet (channel target : string) (timestr : option string)
| cmd_unban (channel target : string) (timestr : option string)
| cmd_mode (channel modestr : string) (param timespec : option string)
| req_timedquiet (channel target : string) (duration : Duration).

Definition command (c : Command) : M unit :=
  match c with
  | cmd_kick channel nick reason => kick channel nick reason
  | cmd_voice user channel nicks => voice user channel nicks
  | cmd_devoice user channel nicks => devoice user channel nicks
  | cmd_op user channel nicks => give_op user channel nicks
  | cmd_deop user channel nicks => take_op user channel nicks
  | cmd_quiet channel target timestr => quiet channel target timestr
  | cmd_ban user channel target timestr => ban user channel target timestr
  | cmd_redirect channel nick destchan => redirect channel nick destchan
  | cmd_unquiet channel target timestr => unquiet channel target timestr
  | cmd_unban channel target timestr => unban channel target timestr
  | cmd_mode channel modestr param timespec => mode channel modestr param timespec
  | req_timedquiet channel target duration =>
      on_request_ircadmin_timedquiet channel target duration
  end.

(** What reaches a started plugin: a mode-change event, a delayed call
    that runs, a direct [_set_timer], a chat command or the timed-quiet
    request. *)
Inductive Input : Type :=
| in_timer (o : Op)
| in_command (c : Command).

Definition handle (i : Input) : M unit :=
  match i with
  | in_timer o => exec o
  | in_command c => command c
  end.

Definition session (inputs : list Input) (s : IRCAdmin) : IRCAdmin :=
  fold_left (fun s i => snd (handle i s)) inputs s.

(** A method keeps the invariant of the timed requests, however it ends. *)
Definition keeps {A} (m : M A) : Prop :=
  forall s, Inv s -> Inv (snd (m s)).

End WithWorld.
End Admin.

(** ** IRCTopic *)

Module Topic.
Import Py.
Local Open Scope py_scope.

(** The edit a topic command applies once the current topic is known. *)
Inductive TopicEdit : Type :=
| EAppend (text : string)
| EInsert (pos : Z) (text : string)
| EReplace (pos : Z) (text : string)
| ERemove (pos : Z)
| EPop.

(** What is chained on a deferred of [_get_current_topic]: the closure
    [success] over the timeout call [c], and the pair given to
    [addCallbacks] by a topic command. *)
Inductive Callback : Type :=
| cb_success (c : nat)
| cb_edit (edit : TopicEdit) (channel : string).

Inductive CallStatus : Type := Pending | Cancelled | Called.

#[global] Instance TimeoutStatus_eq_dec : EqDecision CallStatus.
Proof. solve_decision. Defined.

(** The delayed call [reactor.callLater(10, failure)], [failure] closed over
    the channel. *)
Record TimeoutCall : Type := mkTimeout {
  tc_delay : Z;
  tc_channel : string;
  tc_status : CallStatus
}.

Record IRCTopic : Type := mkTopic {
  (** [defaultdict(lambda: deque(maxlen=10))], newest topic last *)
  topic_stack : gmap string (list string);
  (** [defaultdict(set)] of waiting deferreds (their identities), in the
      order they were added; the order a set is iterated in is not fixed *)
  topic_waiters : gmap string (list nat);
  (** callbacks chained on each deferred *)
  callbacks : gmap nat (list Callback);
  next_deferred : nat;
  reactor : list TimeoutCall;
  outbox : list Action
}.

Abbreviation M := (Py.M IRCTopic).

Definition set_topic_stack (m : gmap string (list string)) (s : IRCTopic) : IRCTopic :=
  mkTopic m (topic_waiters s) (callbacks s) (next_deferred s) (reactor s) (outbox s).
Definition set_topic_waiters (m : gmap string (list nat)) (s : IRCTopic) : IRCTopic :=
  mkTopic (topic_stack s) m (callbacks s) (next_deferred s) (reactor s) (outbox s).
Definition set_callbacks (m : gmap nat (list Callback)) (s : IRCTopic) : IRCTopic :=
  mkTopic (topic_stack s) (topic_waiters s) m (next_deferred s) (reactor s) (outbox s).
Definition set_next_deferred (n : nat) (s : IRCTopic) : IRCTopic :=
  mkTopic (topic_stack s) (topic_waiters s) (callbacks s) n (reactor s) (outbox s).
Definition set_reactor (r : list TimeoutCall) (s : IRCTopic) : IRCTopic :=
  mkTopic (topic_stack s) (topic_waiters s) (callbacks s) (next_deferred s) r (outbox s).
Definition set_outbox (o : list Action) (s : IRCTopic) : IRCTopic :=
  mkTopic (topic_stack s) (topic_waiters s) (callbacks s) (next_deferred s) (reactor s) o.

(** [start]: empty tables. *)
Definition started : IRCTopic := mkTopic ∅ ∅ ∅ 0 [] [].

Definition emit (a : Action) : M unit :=
  modify (fun s => set_outbox (outbox s ++ [a]) s).

(** [deque.append] with [maxlen=10]: the oldest entries fall out. *)
Definition deque_append (x : string) (q : list string) : list string :=
  let q' := q ++ [x] in
  drop (length q' - 10) q'.

(** [self.topic_stack[channel]] and [self.topic_waiters[channel]]: a missing
    entry reads as an empty one. *)
Definition stack_of (s : IRCTopic) (channel : string) : list string :=
  default [] (topic_stack s !! channel).
Definition waiters_of (s : IRCTopic) (channel : string) : list nat :=
  default [] (topic_waiters s !! channel).

(** [self.topic_waiters.pop(channel, set())] *)
Definition pop_waiters (channel : string) : M (list nat) :=
  fun s => (Ok (waiters_of s channel),
            set_topic_waiters (delete channel (topic_waiters s)) s).

Definition timeout_cancel (c : nat) : M unit :=
  fun s => match reactor s !! c with
           | Some tc =>
               match tc_status tc with
               | Pending => (Ok tt, set_reactor (<[c := mkTimeout (tc_delay tc) (tc_channel tc) Cancelled]> (reactor s)) s)
               | Cancelled => (Raise AlreadyCancelled, s)
               | Called => (Raise AlreadyCalled, s)
               end
           | None => (Raise (OtherError "unknown delayed call"), s)
           end.

(** [_set_topic]: the request is issued and its deferred dropped. *)
Definition _set_topic (channel topic : string) : M unit :=
  emit (issue_request "ircop.topic" [(EmptyString, Some channel); (EmptyString, Some topic)]).

Definition only_parts (n : nat) : string :=
  ("There are only " +:+ str_of_nat n +:+ " topic parts. Remember indexes start at 0")%string.

(** The inner [callback(currenttopic)] of each topic command. *)
Definition edit_callback (edit : TopicEdit) (channel currenttopic : string) : M unit :=
  match edit with
  | EAppend text =>
      let topic_parts := map strip (split "|" (strip currenttopic)) in
      _set_topic channel (join " | " (topic_parts ++ [text]))
  | EInsert pos text =>
      let topic_parts := map strip (split "|" currenttopic) in
      _set_topic channel (join " | " (insert_at topic_parts pos text))
  | EReplace pos text =>
      let topic_parts := map strip (split "|" currenttopic) in
      match setitem topic_parts pos text with
      | Raise _ => emit (reply (only_parts (length topic_parts)))
      | Ok parts' => _set_topic channel (join " | " parts')
      end
  | ERemove pos =>
      let topic_parts := map strip (split "|" currenttopic) in
      match delitem topic_parts pos with
      | Raise _ => emit (reply (only_parts (length topic_parts)))
      | Ok parts' => _set_topic channel (join " | " parts')
      end
  | EPop =>
      let topic_parts := map strip (split "|" currenttopic) in
      match delitem topic_parts (-1) with
      | Raise _ => emit (reply (only_parts (length topic_parts)))
      | Ok parts' => _set_topic channel (join " | " parts')
      end
  end.

(** The result a firing deferred hands from one callback to the next: the
    topic it was fired with, [None] once a callback has returned, or the
    failure a callback has raised. *)
Inductive Fired : Type :=
| fired_topic (value : string)
| fired_none
| fired_failure (e : Exc).

(** One link of the chain of a deferred, as twisted runs it. [success] was
    added with [addCallback]: on a result it cancels the timeout call and
    returns the result, a failure passes it by. The pair of a topic command
    was added with [addCallbacks]: on a result the edit runs (on [None] it
    raises, [None] has no [strip] or [split]), on a failure the errback
    replies; both return [None]. An exception of a callback never leaves
    the deferred: it is the failure that the next link gets. *)
Definition run_callback (cb : Callback) (r : Fired) : M Fired :=
  match cb, r with
  | cb_success _, fired_failure e => ret (fired_failure e)
  | cb_success c, _ =>
      try_except (timeout_cancel c ;;; ret r) (fun e => ret (fired_failure e))
  | cb_edit edit channel, fired_topic value =>
      try_except (edit_callback edit channel value ;;; ret fired_none)
        (fun e => ret (fired_failure e))
  | cb_edit _ _, fired_none => ret (fired_failure (OtherError "AttributeError"))
  | cb_edit _ _, fired_failure _ =>
      try_except (emit (reply "Could not determine current topic") ;;; ret fired_none)
        (fun e => ret (fired_failure e))
  end.

Fixpoint run_chain (cbs : list Callback) (r : Fired) : M unit :=
  match cbs with
  | [] => ret tt
  | cb :: rest => r' <- run_callback cb r ;; run_chain rest r'
  end.

(** [d.callback(value)] on a waiting deferred: the firing is recorded in
    the outbox, then the chain runs. The plugin fires a deferred only when
    it has just popped it from the waiters, so none is fired twice. *)
Definition d_callback (value : string) (d : nat) : M unit :=
  emit (deferred_callback d value) ;;;
  s <- get ;;
  modify (fun s => set_callbacks (delete d (callbacks s)) s) ;;;
  run_chain (default [] (callbacks s !! d)) (fired_topic value).

Definition on_event_irc_on_topic_updated (channel newtopic : string) : M unit :=
  s <- get ;;
  let oldtopic := last (stack_of s channel) in
  (if decide (Some newtopic = oldtopic) then ret tt
   else modify (fun s => set_topic_stack
                  (<[channel := deque_append newtopic (stack_of s channel)]> (topic_stack s)) s)) ;;;
  ds <- pop_waiters channel ;;
  for_each ds (d_callback newtopic).

(** The reactor runs the delayed call [c] of [callLater(10, failure)]: it
    calls [failure()] with no argument while [def failure(_)] takes one, so
    the call raises [TypeError] before the body of [failure] runs. No waiter
    is popped and no errback is called; the reactor logs the exception. *)
Definition timeout_fire (c : nat) : M unit :=
  fun s => match reactor s !! c with
           | Some tc =>
               match tc_status tc with
               | Pending =>
                   (Raise (OtherError "TypeError: failure() takes exactly 1 argument (0 given)"),
                    set_reactor (<[c := mkTimeout (tc_delay tc) (tc_channel tc) Called]> (reactor s)) s)
               | _ => (Raise (OtherError "delayed call is not pending"), s)
               end
           | None => (Raise (OtherError "unknown delayed call"), s)
           end.

(** A deferred as its caller gets it: already fired ([defer.succeed]) or
    waiting under an identity. *)
Inductive Deferred : Type :=
| Succeeded (value : string)
| Waiting (d : nat).

(** [d.addCallback(cb)] on a deferred that has not fired. *)
Definition add_callback (d : nat) (cb : Callback) : M unit :=
  modify (fun s => set_callbacks
            (<[d := default [] (callbacks s !! d) ++ [cb]]> (callbacks s)) s).

Definition _get_current_topic (channel : string) : M Deferred :=
  s <- get ;;
  match last (stack_of s channel) with
  | Some top => ret (Succeeded top)
  | None =>
      emit (send_event "irc.do_topic" [("channel", channel)]%string) ;;;
      s <- get ;;
      let deferreds := waiters_of s channel in
      (* new_d = defer.Deferred(): a fresh identity, no callbacks *)
      let new_d := next_deferred s in
      modify (fun s => set_callbacks (<[new_d := []]> (callbacks s))
                         (set_next_deferred (S new_d) s)) ;;;
      match deferreds with
      | [] =>
          let c := length (reactor s) in
          modify (fun s => set_reactor (reactor s ++ [mkTimeout 10 channel Pending]) s) ;;;
          add_callback new_d (cb_success c)
      | _ :: _ => ret tt
      end ;;;
      modify (fun s => set_topic_waiters (<[channel := deferreds ++ [new_d]]> (topic_waiters s)) s) ;;;
      ret (Waiting new_d)
  end.

(** [d.addCallbacks(callback, errback)] of a topic command. *)
Definition addCallbacks (d : Deferred) (edit : TopicEdit) (channel : string) : M unit :=
  match d with
  | Succeeded value => edit_callback edit channel value
  | Waiting n => add_callback n (cb_edit edit channel)
  end.

(** [topicappend], [topicinsert], [topicreplace], [topicremove], [topicpop] *)
Definition topic_command (edit : TopicEdit) (channel : string) : M unit :=
  d <- _get_current_topic channel ;;
  addCallbacks d edit channel.

Definition topic_undo (channel : string) : M unit :=
  s <- get ;;
  match reverse (stack_of s channel) with
  | _ :: newtopic :: rest =>
      modify (fun s => set_topic_stack (<[channel := reverse rest]> (topic_stack s)) s) ;;;
      _set_topic channel newtopic
  | _ => emit (reply "I don't know what the topic used to be. Cannot undo =(")
  end.

(** *** The topic plugin as a transition system *)

Inductive Op : Type :=
| op_command (edit : TopicEdit) (channel : string)
| op_topic_updated (channel newtopic : string)
| op_timeout (c : nat)
| op_undo (channel : string).

Definition exec (o : Op) : M unit :=
  match o with
  | op_command edit channel => topic_command edit channel
  | op_topic_updated channel newtopic => on_event_irc_on_topic_updated channel newtopic
  | op_timeout c => timeout_fire c
  | op_undo channel => topic_undo channel
  end.

Definition run (ops : list Op) (s : IRCTopic) : IRCTopic :=
  fold_left (fun s o => snd (exec o s)) ops s.

(** The fetch request of a channel, and how many of them a list of actions
    holds. *)
Definition fetch_request (channel : string) : Action :=
  send_event "irc.do_topic" [("channel", channel)]%string.

#[global] Instance Action_eq_dec : EqDecision Action.
Proof. solve_decision. Defined.


(** *** Vocabulary of the properties of the waiters *)

Definition not_resolution (a : Action) : Prop :=
  forall d value, a <> deferred_callback d value.

Definition cancel_tc (tc : TimeoutCall) : TimeoutCall :=
  mkTimeout (tc_delay tc) (tc_channel tc) Cancelled.

(** What an edit sends, whatever the state. *)
Definition edit_actions (edit : TopicEdit) (channel value : string) : list Action :=
  outbox (snd (edit_callback edit channel value started)).

(** The reactor after [c.cancel()] was tried: only a pending call is
    cancelled. *)
Definition cancel_pending (c : nat) (r : list TimeoutCall) : list TimeoutCall :=
  match r !! c with
  | Some tc =>
      match tc_status tc with
      | Pending => <[c := cancel_tc tc]> r
      | _ => r
      end
  | None => r
  end.

Definition is_pending (r : list TimeoutCall) (c : nat) : bool :=
  match r !! c with
  | Some tc => bool_decide (tc_status tc = Pending)
  | None => false
  end.

(** The timeout call that the callbacks of a deferred cancel, if any. *)
Definition success_timer (cbs : list Callback) : option nat :=
  match cbs with
  | cb_success c :: _ => Some c
  | _ => None
  end.

Definition cancel_head (cbs : list Callback) (r : list TimeoutCall) : list TimeoutCall :=
  match success_timer cbs with
  | Some c => cancel_pending c r
  | None => r
  end.

(** What the chain of a waiting deferred sends when it is fired with
    [value]: the edit of the first waiter runs only if the timeout call can
    still be cancelled, else its errback replies. *)
Definition chain_actions (r : list TimeoutCall) (cbs : list Callback) (value : string)
  : list Action :=
  match cbs with
  | [cb_edit edit channel] => edit_actions edit channel value
  | [cb_success c; cb_edit edit channel] =>
      if is_pending r c then edit_actions edit channel value
      else [reply "Could not determine current topic"]
  | _ => []
  end.

(** A deferred that carries the edit of one command on [ch] and nothing
    else; a deferred that has no timeout call to cancel. *)
Definition edit_only (s : IRCTopic) (ch : string) (d : nat) : Prop :=
  exists edit, callbacks s !! d = Some [cb_edit edit ch].

Definition no_timer (s : IRCTopic) (ch : string) (d : nat) : Prop :=
  callbacks s !! d = None \/ edit_only s ch d.

(** The invariant of the waiters. The first waiter of a channel carries
    the closure [success] over the timeout call booked for the channel,
    which may have run already, and then the edit of its command; the others
    carry their edit only. A pending timeout call belongs to the first
    waiter of its channel. *)
Record TInv (s : IRCTopic) : Prop := mkTInv {
  tinv_head : forall ch d0 rest, waiters_of s ch = d0 :: rest ->
    (exists c edit st, callbacks s !! d0 = Some [cb_success c; cb_edit edit ch]
                       /\ reactor s !! c = Some (mkTimeout 10 ch st))
    /\ Forall (edit_only s ch) rest;
  tinv_disjoint : forall ch1 ch2 d,
    d ∈ waiters_of s ch1 -> d ∈ waiters_of s ch2 -> ch1 = ch2;
  tinv_fresh : forall ch d, d ∈ waiters_of s ch -> d < next_deferred s;
  tinv_timeout : forall c tc, reactor s !! c = Some tc -> tc_status tc = Pending ->
    exists d0 rest edit, waiters_of s (tc_channel tc) = d0 :: rest
                         /\ callbacks s !! d0 = Some [cb_success c; cb_edit edit (tc_channel tc)]
}.

(** The timeout call of the waiters of a channel: the one the first of them
    cancels. *)
Definition batch_timer (s : IRCTopic) (ch : string) : option nat :=
  match waiters_of s ch with
  | d0 :: _ => success_timer (default [] (callbacks s !! d0))
  | [] => None
  end.

Definition cancel_batch (s : IRCTopic) (ch : string) : list TimeoutCall :=
  match batch_timer s ch with
  | Some c => cancel_pending c (reactor s)
  | None => reactor s
  end.

Definition pushed (s : IRCTopic) (ch newtopic : string) : gmap string (list string) :=
  if decide (Some newtopic = last (stack_of s ch)) then topic_stack s
  else <[ch := deque_append newtopic (stack_of s ch)]> (topic_stack s).

Definition first_callbacks (s : IRCTopic) (ch : string) : list Callback :=
  match waiters_of s ch with
  | [] => [cb_success (length (reactor s))]
  | _ :: _ => []
  end.

Definition with_timeout (s : IRCTopic) (ch : string) : list TimeoutCall :=
  match waiters_of s ch with
  | [] => reactor s ++ [mkTimeout 10 ch Pending]
  | _ :: _ => reactor s
  end.

(** *** Vocabulary of the properties of the topic history *)

(** No topic is in the history twice in a row. *)
Definition no_repeat (l : list string) : Prop :=
  forall i x y, l !! i = Some x -> l !! S i = Some y -> x <> y.

(** The invariant of the topic history: at most 10 topics per channel, no
    topic twice in a row, and deferreds wait on a channel only while its
    history is empty. *)
Record HInv (s : IRCTopic) : Prop := mkHInv {
  hinv_bound : forall ch, length (stack_of s ch) <= 10;
  hinv_no_repeat : forall ch, no_repeat (stack_of s ch);
  hinv_unknown : forall ch, waiters_of s ch <> [] -> stack_of s ch = []
}.

End Topic.

(** ** The plugin base: [PluginConfig], [PluginBoss], [BotPlugin] *)

Module PluginBase.
Import Py.
Local Open Scope py_scope.

(** JSON data, as [json.load] returns it and [json.dump] writes it. *)
#[warnings="-register-all"] Inductive Json : Type :=
| JNull
| JBool (b : bool)
| JNum (n : Z)
| JStr (s : string)
| JList (l : list Json)
| JObj (o : list (string * Json)).

(** The master config [self.config] of the boss, as far as the code here
    looks into it: [config['core']['plugins']], the dict
    [config['plugin_config']] when the key is there, and the other keys. *)
Record Master : Type := mkMaster {
  core_plugins : list string;
  plugin_config : option (gmap string Json);
  other_keys : list (string * Json)
}.

(** A plugin class of the [plugins] package, by what its [start()] and
    [stop()] do to the boss: return, or raise. Its constructor is the one
    of [BotPlugin]. *)
Record PluginClass : Type := mkClass {
  start_raises : option Exc;
  stop_raises : option Exc
}.

(** The calls the boss makes on the transport and on plugins. *)
Inductive Call : Type :=
| call_start (plugin_name : string)
| call_stop (plugin_name : string)
| call_unhook (plugin_name : string).

Record PluginBoss : Type := mkBoss {
  _configdir : string;
  config : Master;
  loaded_plugins : gmap string PluginClass;
  (** what [config.json] holds *)
  master_file : Master;
  (** the other json files, by path *)
  plugin_files : gmap string Json;
  calls : list Call
}.

Abbreviation M := (Py.M PluginBoss).

Definition set_config (c : Master) (s : PluginBoss) : PluginBoss :=
  mkBoss (_configdir s) c (loaded_plugins s) (master_file s) (plugin_files s) (calls s).
Definition set_loaded_plugins (l : gmap string PluginClass) (s : PluginBoss) : PluginBoss :=
  mkBoss (_configdir s) (config s) l (master_file s) (plugin_files s) (calls s).
Definition set_master_file (c : Master) (s : PluginBoss) : PluginBoss :=
  mkBoss (_configdir s) (config s) (loaded_plugins s) c (plugin_files s) (calls s).
Definition set_plugin_files (f : gmap string Json) (s : PluginBoss) : PluginBoss :=
  mkBoss (_configdir s) (config s) (loaded_plugins s) (master_file s) f (calls s).
Definition set_calls (c : list Call) (s : PluginBoss) : PluginBoss :=
  mkBoss (_configdir s) (config s) (loaded_plugins s) (master_file s) (plugin_files s) c.

Definition set_plugin_config (pc : option (gmap string Json)) (c : Master) : Master :=
  mkMaster (core_plugins c) pc (other_keys c).

(** [s.endswith("/")] *)
Fixpoint endswith_slash (s : string) : bool :=
  match s with
  | EmptyString => false
  | String c EmptyString => Ascii.eqb c "/"
  | String _ r => endswith_slash r
  end.

(** [os.path.join(a, b)] of [posixpath] *)
Definition path_join (a b : string) : string :=
  if startswith "/" b then b
  else match a with
       | EmptyString => b
       | _ => if endswith_slash a then a +:+ b else a +:+ "/" +:+ b
       end.

(** *** [PluginConfig] *)

Record PluginConfig : Type := mkPluginConfig {
  _jsonfile : string;
  data : Json
}.

(** [PluginConfig(jsonfile)]: [open] raises [IOError] on a missing file. *)
Definition PluginConfig_init (jsonfile : string) : M PluginConfig :=
  s <- get ;;
  match plugin_files s !! jsonfile with
  | Some d => ret (mkPluginConfig jsonfile d)
  | None => raise (OtherError "IOError")
  end.

(** [PluginConfig.save]: written to [jsonfile~], then renamed. *)
Definition PluginConfig_save (c : PluginConfig) : M unit :=
  let tmp := (_jsonfile c +:+ "~")%string in
  modify (fun s => set_plugin_files (<[tmp := data c]> (plugin_files s)) s) ;;;
  s <- get ;;
  match plugin_files s !! tmp with
  | Some d => modify (set_plugin_files (<[_jsonfile c := d]> (delete tmp (plugin_files s))))
  | None => raise (OtherError "OSError")
  end.

(** *** [PluginBoss] *)

(** [PluginBoss.save] *)
Definition save : M unit :=
  modify (fun s => set_master_file (config s) s).

(** [os.path.join(self._configdir, plugin_name) + ".json"]; the files of
    plugins are kept apart from [config.json] here, so no plugin is taken
    to be named so that this path is the path of [config.json]. *)
Definition plugin_config_path (configdir plugin_name : string) : string :=
  (path_join configdir plugin_name +:+ ".json")%string.

Definition get_plugin_config (plugin_name : string) : M PluginConfig :=
  s <- get ;;
  let old_config := match plugin_config (config s) with
                    | Some pc => default (JObj []) (pc !! plugin_name)
                    | None => JObj []
                    end in
  let path := plugin_config_path (_configdir s) plugin_name in
  (match plugin_files s !! path with
   | Some _ => ret tt
   | None => modify (fun s => set_plugin_files (<[path := old_config]> (plugin_files s)) s)
   end) ;;;
  s <- get ;;
  (match plugin_config (config s) with
   | Some pc =>
       match pc !! plugin_name with
       | Some _ =>
           modify (fun s => set_config
                     (set_plugin_config (Some (delete plugin_name pc)) (config s)) s) ;;;
           save
       | None => ret tt
       end
   | None => ret tt
   end) ;;;
  s <- get ;;
  (match plugin_config (config s) with
   | Some pc =>
       if decide (pc = ∅) then
         modify (fun s => set_config (set_plugin_config None (config s)) s) ;;;
         save
       else ret tt
   | None => ret tt
   end) ;;;
  PluginConfig_init path.

Section WithPackage.
(** [__import__("abbott.plugins." + modulename)] and [getattr(module,
    classname)]: the modules of the package and their classes. *)
Context (package : string -> option (string -> option PluginClass)).

Definition call (c : Call) : M unit :=
  modify (fun s => set_calls (calls s ++ [c]) s).

Definition plugin_start (plugin_name : string) (plugin : PluginClass) : M unit :=
  call (call_start plugin_name) ;;;
  match start_raises plugin with
  | Some e => raise e
  | None => ret tt
  end.

Definition plugin_stop (plugin_name : string) (plugin : PluginClass) : M unit :=
  call (call_stop plugin_name) ;;;
  match stop_raises plugin with
  | Some e => raise e
  | None => ret tt
  end.

(** [load_plugin]; unpacking [plugin_name.split(".")] into two names
    raises [ValueError] on another number of parts; the constructor of
    [BotPlugin] calls [reload], which reads the plugin's config. *)
Definition load_plugin (plugin_name : string) : M unit :=
  match split "." plugin_name with
  | [modulename; classname] =>
      match package modulename with
      | None => raise (OtherError "ImportError")
      | Some module =>
          match module classname with
          | None => raise (OtherError "AttributeError")
          | Some pluginclass =>
              get_plugin_config plugin_name ;;;
              try_except (plugin_start plugin_name pluginclass)
                (fun e => call (call_unhook plugin_name) ;;; raise e) ;;;
              modify (fun s => set_loaded_plugins
                        (<[plugin_name := pluginclass]> (loaded_plugins s)) s)
          end
      end
  | [] => raise (ValueError "need more than 0 values to unpack")
  | [_] => raise (ValueError "need more than 1 value to unpack")
  | _ => raise (ValueError "too many values to unpack")
  end.

Definition unload_plugin (plugin_name : string) : M unit :=
  s <- get ;;
  match loaded_plugins s !! plugin_name with
  | None => raise KeyError
  | Some plugin =>
      modify (fun s => set_loaded_plugins (delete plugin_name (loaded_plugins s)) s) ;;;
      call (call_unhook plugin_name) ;;;
      plugin_stop plugin_name plugin
  end.

Definition load_all_plugins : M unit :=
  s <- get ;;
  for_each (core_plugins (config s)) load_plugin.

End WithPackage.

(** *** [BotPlugin]: the dispatcher methods *)

(** ["on_event_%s" % eventtype.replace(".", "_")] and the like *)
Definition method_name (prefix name : string) : string :=
  (prefix +:+ replace_char "." "_" name)%string.

Section Dispatch.
(** The state of a plugin, its events, and what a request takes and its
    deferred fires with. *)
Context {St Event Args : Type}.

(** The [on_event_], [on_middleware_] and [on_request_] methods of a plugin,
    by attribute name. *)
Record BotPlugin : Type := mkPlugin {
  event_methods : gmap string (Event -> Py.M St unit);
  middleware_methods : gmap string (Event -> Py.M St (option Event));
  request_methods : gmap string (Args -> Py.M St (result unit))
}.

Definition received_event (self : BotPlugin) (eventtype : string) (event : Event)
  : Py.M St unit :=
  match event_methods self !! method_name "on_event_" eventtype with
  | Some method => method event
  | None => ret tt
  end.

Definition received_middleware_event (self : BotPlugin) (eventtype : string) (event : Event)
  : Py.M St (option Event) :=
  match middleware_methods self !! method_name "on_middleware_" eventtype with
  | Some method => method event
  | None => ret (Some event)
  end.

(** [incoming_request]: without a method the deferred has failed. *)
Definition incoming_request (self : BotPlugin) (name : string) (args : Args)
  : Py.M St (result unit) :=
  match request_methods self !! method_name "on_request_" name with
  | Some method => method args
  | None => ret (Raise (OtherError "The plugin does not provide that request method"))
  end.

End Dispatch.

End PluginBase.

(** ** A concrete environment, for running the plugins on examples *)

Definition quiet_world : World :=
  {| time_at := fun n => (1000 + Z.of_nat n)%Z;
     transport_answer := fun _ _ => Py.Ok tt;
     whois := fun nick =>
       if String.eqb nick "bob" then Py.Ok ("bob", "bobby", "unaffiliated/bob")%string
       else if String.eqb nick "web" then Py.Ok ("web", "w", "gateway/web/freenode/ip.10.0.0.7")%string
       else if String.eqb nick "gw" then Py.Ok ("gw", "gwuser", "gateway/tor/x")%string
       else Py.Raise Py.NoSuchNick;
     calendar_parse := fun timestr =>
       if String.eqb timestr "for 1 hour" then Some 4600%Z else None |}.

(** A package with one module of two plugin classes, one of which fails to
    start, and a boss whose master config still holds an entry for a
    plugin. *)
Definition demo_package : string -> option (string -> option PluginBase.PluginClass) :=
  fun modulename =>
    if String.eqb modulename "admin" then
      Some (fun classname =>
              if String.eqb classname "IRCAdmin" then Some (PluginBase.mkClass None None)
              else if String.eqb classname "Broken"
                   then Some (PluginBase.mkClass (Some (Py.OtherError "boom")) None)
                   else None)
    else None.

Definition demo_master : PluginBase.Master :=
  PluginBase.mkMaster ["admin.IRCAdmin"%string]
    (Some {["admin.IRCAdmin"%string := PluginBase.JObj [("defaulttime"%string, PluginBase.JNull)]]})
    [].

Definition demo_boss3 : PluginBase.PluginBoss :=
  PluginBase.mkBoss "cfg"
    (PluginBase.mkMaster ["admin.IRCAdmin"; "admin.Broken"; "admin.IRCTopic"]%string None [])
    ∅ (PluginBase.mkMaster [] None []) ∅ [].

Definition demo_boss : PluginBase.PluginBoss :=
  PluginBase.mkBoss "cfg" demo_master ∅ demo_master ∅ [].

(** The reading of "every invalid 0-indexed position is answered with the
    out-of-range reply and no request", for one topic command. *)
Definition rejects_invalid_positions (cmd : Z -> Topic.TopicEdit) : Prop :=
  forall (channel currenttopic : string) (pos : Z) (s : Topic.IRCTopic),
    let n := length (map Py.strip (Py.split "|" currenttopic)) in
    (pos < 0 \/ Z.of_nat n <= pos)%Z ->
    snd (Topic.edit_callback (cmd pos) channel currenttopic s)
      = Topic.set_outbox (Topic.outbox s ++ [reply (Topic.only_parts n)]) s.

Definition xq_key : Admin.Key := (Some "x!*@*", "#a", "-q")%string.
Definition xq_item : Admin.Later := Admin.mkLater 5000 (Some "x!*@*"%string) "#a" "-q".
Definition xq_scheduled : list Admin.Op :=
  [Admin.op_schedule 60 (Some "x!*@*"%string) "#a" "-q"].
Definition xq_removed : Admin.ModeChange :=
  Admin.mkModeChange false "q" (Some "x!*@*"%string) "#a".

(** * Properties *)

(** ** Python helpers *)

Section PyFacts.
Import Py.

Lemma split_nonempty sep s : split sep s <> [].
Proof.
  destruct s as [|c r]; simpl; [discriminate|].
  destruct (Ascii.eqb c sep); [discriminate|].
  destruct (split sep r); discriminate.
Qed.

Lemma split_no_sep sep s : contains sep s = false -> split sep s = [s].
Proof.
  induction s as [|c r IH]; simpl; [reflexivity|].
  destruct (Ascii.eqb c sep); [discriminate|].
  intros H. rewrite (IH H). reflexivity.
Qed.

Lemma split_app_sep sep a b :
  split sep (a +:+ String sep b) = split sep a ++ split sep b.
Proof.
  induction a as [|c r IH]; simpl.
  - rewrite Ascii.eqb_refl. reflexivity.
  - destruct (Ascii.eqb c sep); [by rewrite IH|].
    rewrite IH. destruct (split sep r) eqn:E; [by apply split_nonempty in E|].
    reflexivity.
Qed.

Lemma last_split_app sep a b :
  contains sep b = false ->
  last (split sep (a +:+ String sep b)) = Some b.
Proof.
  intros H. rewrite split_app_sep, (split_no_sep sep b H), last_snoc. reflexivity.
Qed.

Lemma startswith_app p s : startswith p (p +:+ s) = true.
Proof.
  unfold startswith. induction p as [|c r IH]; simpl.
  - by destruct s.
  - destruct (ascii_dec c c); [exact IH|congruence].
Qed.

Lemma startswith_char_contains c s :
  startswith (String c EmptyString) s = true -> contains c s = true.
Proof.
  destruct s as [|d r]; unfold startswith; cbn [String.prefix]; [discriminate|].
  destruct (ascii_dec c d) as [->|]; [|discriminate].
  intros _. cbn [contains]. rewrite Ascii.eqb_refl. reflexivity.
Qed.

Lemma length_split_pos sep s : 0 < length (split sep s).
Proof. pose proof (split_nonempty sep s). destruct (split sep s); simpl; [done|lia]. Qed.

Lemma index_None n pos :
  index n pos = None <-> (pos < - Z.of_nat n \/ Z.of_nat n <= pos)%Z.
Proof.
  unfold index.
  destruct (Z.leb_spec 0 pos), (Z.ltb_spec pos (Z.of_nat n)),
    (Z.leb_spec (- Z.of_nat n) pos); split; intros; try done; lia.
Qed.

Lemma index_Some n pos i :
  index n pos = Some i ->
  i < n /\ ((0 <= pos)%Z /\ Z.of_nat i = pos \/ (pos < 0)%Z /\ Z.of_nat i = (Z.of_nat n + pos)%Z).
Proof.
  unfold index.
  destruct (Z.leb_spec 0 pos), (Z.ltb_spec pos (Z.of_nat n)),
    (Z.leb_spec (- Z.of_nat n) pos); intros; simplify_eq; lia.
Qed.

End PyFacts.

(** ** IRCAdmin *)

Section AdminFacts.
Context {W : World}.
Import Py Admin.
Local Open Scope py_scope.

Lemma _nick_to_hostmask_whois nick s n username host :
  (contains "!" nick && contains "@" nick) || startswith "$" nick = false ->
  whois nick = Ok (n, username, host) ->
  exists hostmask,
    _nick_to_hostmask nick s
    = (Ok hostmask,
       set_outbox (outbox s ++ [issue_request "irc.whois" [(EmptyString, Some nick)]]) s).
Proof.
  intros Hlook Hw. unfold _nick_to_hostmask. rewrite Hlook.
  unfold bind, modify, ret. rewrite Hw.
  destruct (startswith "gateway/web/freenode/ip." host);
    [|destruct (startswith "gateway/" host)]; by eexists.
Qed.

(** C8. [_nick_to_hostmask]: a nick that holds both [!] and [@], or starts
    with [$], is returned as it is, with no whois; otherwise a whois request
    is issued and, from its answer [(_, username, host)]: a host
    [gateway/web/freenode/ip.<ip>] gives [*!*@<ip>], any other [gateway/]
    host gives [*!username@gateway/*], every other host gives [*!*@host];
    and the answer [(bob, bobby, unaffiliated/bob)] gives
    [*!*@unaffiliated/bob]. *)
Theorem nick_to_hostmask_cases (nick : string) (s : IRCAdmin) :
  ((contains "!" nick && contains "@" nick) || startswith "$" nick = true ->
   _nick_to_hostmask nick s = (Ok nick, s))
  /\
  ((contains "!" nick && contains "@" nick) || startswith "$" nick = false ->
   forall n username host, whois nick = Ok (n, username, host) ->
   snd (_nick_to_hostmask nick s)
     = set_outbox (outbox s ++ [issue_request "irc.whois" [(EmptyString, Some nick)]]) s
   /\ (forall ip, host = ("gateway/web/freenode/ip." +:+ ip)%string ->
                  contains "/" ip = false ->
                  fst (_nick_to_hostmask nick s) = Ok ("*!*@" +:+ ip)%string)
   /\ (startswith "gateway/" host = true ->
       startswith "gateway/web/freenode/ip." host = false ->
       fst (_nick_to_hostmask nick s) = Ok ("*!" +:+ username +:+ "@gateway/*")%string)
   /\ (startswith "gateway/" host = false ->
       fst (_nick_to_hostmask nick s) = Ok ("*!*@" +:+ host)%string)
   /\ (username = "bobby"%string -> host = "unaffiliated/bob"%string ->
       fst (_nick_to_hostmask nick s) = Ok "*!*@unaffiliated/bob"%string)).
Proof.
  split.
  - intros H. unfold _nick_to_hostmask. rewrite H. reflexivity.
  - intros H n username host Hw. unfold _nick_to_hostmask. rewrite H.
    unfold bind, modify. rewrite Hw.
    split; [|split; [|split; [|split]]].
    + destruct (startswith "gateway/web/freenode/ip." host); [reflexivity|].
      destruct (startswith "gateway/" host); reflexivity.
    + intros ip -> Hip.
      rewrite (startswith_app "gateway/web/freenode/ip." ip).
      change ("gateway/web/freenode/ip." +:+ ip)%string
        with ("gateway/web/freenode" +:+ String "/" ("ip." +:+ ip))%string.
      rewrite last_split_app by (simpl; exact Hip).
      reflexivity.
    + intros Hg Hn. rewrite Hn, Hg. reflexivity.
    + intros Hg.
      destruct (startswith "gateway/web/freenode/ip." host) eqn:Hn.
      * exfalso. unfold startswith in *.
        apply String.prefix_correct in Hn.
        assert (Hp : String.prefix "gateway/" host = true).
        { apply String.prefix_correct.
          destruct host as [|c0 host]; [discriminate|].
          repeat (match type of Hn with
                  | substring 0 _ (String _ ?h) = _ =>
                      simpl in Hn; injection Hn as -> Hn; destruct h; [discriminate|]
                  end).
          reflexivity. }
        congruence.
      * rewrite Hg. reflexivity.
    + intros -> ->. reflexivity.
Qed.

Ltac mstep :=
  unfold config_save, drop_key, callLater, time_time, event_reply,
    transport_send_event, yield_request, await, local_var;
  unfold bind, get, modify, ret, raise, try_except; simpl.

(** *** The timed requests: what holds in every state of a run *)

Lemma same_key_later_key param channel mode item :
  same_key param channel mode item <-> later_key item = (param, channel, mode).
Proof.
  unfold same_key, later_key. split.
  - intros (-> & -> & ->). reflexivity.
  - intros [= -> -> ->]. done.
Qed.

Lemma elem_of_keys_filter (k k' : Key) (l : list Later) :
  k' ∈ later_key <$> filter (fun item => later_key item <> k) l
  <-> k' <> k /\ k' ∈ later_key <$> l.
Proof.
  rewrite !list_elem_of_fmap. split.
  - intros (item & -> & Hin). apply list_elem_of_filter in Hin as [Hne Hin].
    split; [exact Hne|]. by exists item.
  - intros (Hne & item & -> & Hin). exists item. split; [reflexivity|].
    apply list_elem_of_filter. done.
Qed.

Lemma drop_key_filter param channel mode (l : list Later) :
  filter (fun item => ~ same_key param channel mode item) l
  = filter (fun item => later_key item <> (param, channel, mode)) l.
Proof.
  apply list_filter_iff. intros item. by rewrite same_key_later_key.
Qed.

Lemma NoDup_keys_filter (k : Key) (l : list Later) :
  NoDup (later_key <$> l) ->
  NoDup (later_key <$> filter (fun item => later_key item <> k) l).
Proof.
  induction l as [|item l IH]; [done|].
  rewrite fmap_cons, NoDup_cons. intros [Hni Hnd].
  rewrite filter_cons. case_decide.
  - rewrite fmap_cons, NoDup_cons. split; [|by apply IH].
    rewrite elem_of_keys_filter. tauto.
  - by apply IH.
Qed.

Lemma insert_alter_status (r : list DelayedCall) h dc st :
  r !! h = Some dc -> <[h := with_status st dc]> r = alter (with_status st) h r.
Proof.
  intros H. apply list_eq. intros i.
  destruct (decide (i = h)) as [->|Hne].
  - rewrite list_lookup_alter_eq, H. simpl.
    apply list_lookup_insert_eq. by eapply lookup_lt_Some.
  - by rewrite list_lookup_insert_ne, list_lookup_alter_ne.
Qed.

Lemma _set_timer_scheduled delay param channel mode s :
  (forall h, later_timers s !! (param, channel, mode) = Some h ->
     exists dc, reactor s !! h = Some dc /\ dc_status dc = Pending) ->
  _set_timer delay param channel mode s
    = (Ok tt, scheduled delay (param, channel, mode) s).
Proof.
  intros Hp. unfold _set_timer, scheduled, cancelled_for. mstep.
  destruct (later_timers s !! (param, channel, mode)) as [h|] eqn:E; simpl.
  - destruct (Hp h eq_refl) as (dc & Hdc & Hst).
    unfold timer_cancel. simpl. rewrite Hdc, Hst. simpl.
    rewrite length_insert, insert_delete_eq, drop_key_filter.
    rewrite (insert_alter_status _ _ _ _ Hdc), ?E. reflexivity.
  - rewrite drop_key_filter, ?E. reflexivity.
Qed.

Lemma lookup_alter_status (r : list DelayedCall) st h h' dc :
  alter (with_status st) h r !! h' = Some dc ->
  exists dc0, r !! h' = Some dc0 /\ dc_delay dc = dc_delay dc0 /\ dc_key dc = dc_key dc0
              /\ (h' <> h -> dc = dc0) /\ (h' = h -> dc_status dc = st).
Proof.
  destruct (decide (h = h')) as [->|Hne].
  - rewrite list_lookup_alter_eq. destruct (r !! h') as [dc0|]; [|discriminate].
    intros [= <-]. exists dc0. repeat split; done.
  - rewrite list_lookup_alter_ne by done. intros H. exists dc. repeat split; done.
Qed.

Lemma Consistent_removed st k h s :
  Consistent s -> later_timers s !! k = Some h -> st <> Pending ->
  Consistent (removed st k h s).
Proof.
  intros I Hk Hst.
  destruct (inv_table s I k h Hk) as (dck & Hdck & Hkey & _).
  constructor; simpl.
  - intros k' h'. rewrite lookup_delete_Some. intros [Hne Hl].
    destruct (inv_table s I k' h' Hl) as (dc & Hdc & Hk' & Hp).
    exists dc. split; [|done].
    rewrite list_lookup_alter_ne; [done|]. intros ->. congruence.
  - intros h' dc Hdc Hp.
    apply lookup_alter_status in Hdc as (dc0 & Hdc0 & _ & Hkk & Hne & Heq).
    destruct (decide (h' = h)) as [->|Hn]; [by rewrite (Heq eq_refl) in Hp|].
    rewrite (Hne Hn) in *. pose proof (inv_pending s I h' dc0 Hdc0 Hp) as Hl.
    rewrite lookup_delete_ne; [done|]. intros E. rewrite <- E in Hl. congruence.
  - intros h' dc Hdc.
    apply lookup_alter_status in Hdc as (dc0 & Hdc0 & -> & _).
    by eapply (inv_delay s I).
Qed.

Lemma Inv_removed st k h s :
  Inv s -> later_timers s !! k = Some h -> st <> Pending -> Inv (removed st k h s).
Proof.
  intros I Hk Hst.
  constructor; [by apply Consistent_removed; [apply I|..]|simpl..].
  - intros k'. rewrite elem_of_keys_filter, <- (inv_keys s I k').
    unfold is_Some. setoid_rewrite lookup_delete_Some. split.
    + intros (x & Hne & Hx). split; [done|]. by exists x.
    + intros (Hne & x & Hx). exists x. done.
  - apply NoDup_keys_filter, (inv_nodup s I).
  - reflexivity.
Qed.

Lemma Inv_set_outbox o s : Inv s -> Inv (set_outbox o s).
Proof. intros [[] ? ? ?]. by constructor; [constructor|..]. Qed.

Lemma Consistent_scheduled delay k s : Consistent s -> Consistent (scheduled delay k s).
Proof.
  intros I. destruct k as [[param channel] mode].
  set (k := (param, channel, mode)).
  assert (Hlen : length (cancelled_for k s) = length (reactor s)).
  { unfold cancelled_for. destruct (later_timers s !! k); [apply length_alter|done]. }
  assert (Hold : forall h dc, cancelled_for k s !! h = Some dc -> dc_status dc = Pending ->
                 reactor s !! h = Some dc /\ dc_key dc <> k).
  { intros h dc Hdc Hp. unfold cancelled_for in Hdc.
    destruct (later_timers s !! k) as [hk|] eqn:Ek.
    - apply lookup_alter_status in Hdc as (dc0 & Hdc0 & _ & _ & Hne & Heq).
      destruct (decide (h = hk)) as [->|Hn]; [by rewrite (Heq eq_refl) in Hp|].
      rewrite (Hne Hn) in *. split; [done|]. intros E.
      pose proof (inv_pending s I h dc0 Hdc0 Hp) as Hl. rewrite E in Hl. congruence.
    - split; [done|]. intros E.
      pose proof (inv_pending s I h dc Hdc Hp) as Hl. rewrite E in Hl. congruence. }
  constructor; simpl.
  - intros k' h'. rewrite lookup_insert_Some. intros [[<- <-]|[Hne Hl]].
    + exists (mkCall (Z.max 1 delay) k Pending). split; [|done].
      rewrite lookup_app_r by lia. by rewrite Hlen, Nat.sub_diag.
    + destruct (inv_table s I k' h' Hl) as (dc & Hdc & Hk' & Hp).
      exists dc. split; [|done].
      rewrite lookup_app_l by (rewrite Hlen; by eapply lookup_lt_Some).
      unfold cancelled_for. destruct (later_timers s !! k) as [hk|] eqn:Ek; [|done].
      rewrite list_lookup_alter_ne; [done|]. intros E. subst hk.
      destruct (inv_table s I k h' Ek) as (dc' & Hdc' & Hk'' & _). congruence.
  - intros h' dc Hdc Hp. apply lookup_app_Some in Hdc as [Hdc|[Hge Hdc]].
    + destruct (Hold h' dc Hdc Hp) as [Hr Hne].
      rewrite lookup_insert_ne by done. by apply (inv_pending s I).
    + rewrite Hlen in *. destruct (h' - length (reactor s)) as [|n] eqn:En; [|done].
      injection Hdc as <-. simpl. rewrite lookup_insert_eq. f_equal. lia.
  - intros h' dc Hdc. apply lookup_app_Some in Hdc as [Hdc|[Hge Hdc]].
    + unfold cancelled_for in Hdc. destruct (later_timers s !! k).
      * apply lookup_alter_status in Hdc as (dc0 & Hdc0 & -> & _). by eapply (inv_delay s I).
      * by eapply (inv_delay s I).
    + destruct (h' - length (cancelled_for k s)) as [|n]; [|done].
      injection Hdc as <-. simpl. lia.
Qed.

Lemma Inv_scheduled delay k s : Inv s -> Inv (scheduled delay k s).
Proof.
  intros I. constructor; [apply Consistent_scheduled, I|..];
    destruct k as [[param channel] mode]; set (k := (param, channel, mode)); simpl.
  - intros k'. rewrite fmap_app, elem_of_app, elem_of_keys_filter, <- (inv_keys s I k').
    simpl. rewrite list_elem_of_singleton. unfold is_Some.
    setoid_rewrite lookup_insert_Some. split.
    + intros (x & [[<- <-]|[Hne Hx]]); [by right|]. left. split; [done|by exists x].
    + intros [[Hne [x Hx]]| ->]; [exists x; by right|]. eexists. by left.
  - rewrite fmap_app. apply NoDup_app. split; [apply NoDup_keys_filter, (inv_nodup s I)|].
    split; [|apply NoDup_singleton].
    intros k'. rewrite elem_of_keys_filter. simpl. rewrite list_elem_of_singleton. tauto.
  - reflexivity.
Qed.

Lemma mode_change_eq event s :
  on_event_irc_on_mode_change event s
  = match later_timers s !! (ev_arg event, ev_channel event, mode_of event) with
    | None => (Ok tt, s)
    | Some timer =>
        match timer_cancel timer
                (set_later_timers
                   (delete (ev_arg event, ev_channel event, mode_of event) (later_timers s)) s) with
        | (Ok _, s1) =>
            (Ok tt, set_jsonfile
                      (Some (filter (fun item => later_key item <> (ev_arg event, ev_channel event, mode_of event)) (laters s1)))
                      (set_laters (filter (fun item => later_key item <> (ev_arg event, ev_channel event, mode_of event)) (laters s1)) s1))
        | (Raise e, s1) => (Raise e, s1)
        end
    end.
Proof.
  unfold on_event_irc_on_mode_change, mode_of. mstep.
  destruct (ev_set event); simpl;
    (destruct (later_timers s !! _) as [timer|]; simpl; [|reflexivity]);
    (destruct (timer_cancel timer _) as [[[]|e] s1]; simpl;
     [rewrite drop_key_filter|]; reflexivity).
Qed.

Lemma mode_change_removed event s h :
  Consistent s ->
  later_timers s !! (ev_arg event, ev_channel event, mode_of event) = Some h ->
  on_event_irc_on_mode_change event s
  = (Ok tt, removed Cancelled (ev_arg event, ev_channel event, mode_of event) h s).
Proof.
  intros I Hk. rewrite mode_change_eq, Hk.
  destruct (inv_table s I _ _ Hk) as (dc & Hdc & _ & Hp).
  unfold timer_cancel. simpl. rewrite Hdc, Hp. simpl.
  rewrite (insert_alter_status _ _ _ _ Hdc). reflexivity.
Qed.

Lemma mode_change_noop event s :
  later_timers s !! (ev_arg event, ev_channel event, mode_of event) = None ->
  on_event_irc_on_mode_change event s = (Ok tt, s).
Proof. intros Hk. by rewrite mode_change_eq, Hk. Qed.

Lemma do_later_removed param channel mode s h :
  later_timers s !! (param, channel, mode) = Some h ->
  exists r rest,
    do_later param channel mode s
    = (r, set_outbox (outbox s ++ fire_request param channel mode :: rest)
            (mkAdmin (started s) (delete (param, channel, mode) (later_timers s))
               (filter (fun item => later_key item <> (param, channel, mode)) (laters s))
               (defaulttime s)
               (Some (filter (fun item => later_key item <> (param, channel, mode)) (laters s)))
               (reactor s) (clock s) (outbox s)))
    /\ (answer_of (fire_request param channel mode) = Ok tt -> r = Ok tt /\ rest = [])
    /\ (forall e, answer_of (fire_request param channel mode) = Raise e ->
        (exists msg, e = OpFailed msg \/ e = ValueError msg) ->
        r = Ok tt /\ rest = [notice param channel mode e]).
Proof.
  intros Hk. unfold do_later, fire_request, answer_of.
  destruct (dict_get mode_requests mode) as [name|]; mstep; rewrite Hk; simpl;
    rewrite drop_key_filter.
  - set (args := [("channel"%string, Some channel); ("target"%string, param)]).
    set (gargs := [("channel"%string, Some channel); ("mode"%string, Some mode); ("param"%string, param)]).
    destruct (transport_answer ("ircop." +:+ name) args) as [[]|e] eqn:Ea; simpl.
    + exists (Ok tt), []. split; [reflexivity|]. split; [done|]. intros e [=].
    + destruct e; simpl; cbv beta; simpl;
        try (destruct (transport_answer "ircop.mode" gargs) as [[]|[]]; simpl; cbv beta; simpl);
        rewrite <- ?app_assoc; simpl;
        (eexists _, _; split; [reflexivity|]; split; [done|]);
        intros e' [= <-] [msg' [?|?]]; done.
  - set (gargs := [("channel"%string, Some channel); ("mode"%string, Some mode); ("param"%string, param)]).
    destruct (transport_answer "ircop.mode" gargs) as [[]|e] eqn:Ea; simpl.
    + exists (Ok tt), []. split; [reflexivity|]. split; [done|]. intros e [=].
    + destruct e; simpl; cbv beta; simpl; rewrite <- ?app_assoc; simpl;
        (eexists _, _; split; [reflexivity|]; split; [done|]);
        intros e' [= <-] [msg' [?|?]]; done.
Qed.

Lemma reactor_fire_removed timer dc s :
  reactor s !! timer = Some dc -> dc_status dc = Pending ->
  later_timers s !! dc_key dc = Some timer ->
  let '(param, channel, mode) := dc_key dc in
  exists r rest,
    reactor_fire timer s
    = (r, set_outbox (outbox s ++ fire_request param channel mode :: rest)
            (removed Called (dc_key dc) timer s))
    /\ (answer_of (fire_request param channel mode) = Ok tt -> r = Ok tt /\ rest = [])
    /\ (forall e, answer_of (fire_request param channel mode) = Raise e ->
        (exists msg, e = OpFailed msg \/ e = ValueError msg) ->
        r = Ok tt /\ rest = [notice param channel mode e]).
Proof.
  intros Hdc Hp Hk. unfold reactor_fire. rewrite Hdc, Hp.
  destruct (dc_key dc) as [[param channel] mode] eqn:Ek.
  set (s1 := set_reactor _ s).
  destruct (do_later_removed param channel mode s1 timer Hk) as (r & rest & E & Hok & Hfail).
  exists r, rest. split; [|split; assumption].
  rewrite E. unfold removed, s1. simpl.
  rewrite (insert_alter_status _ _ _ _ Hdc). reflexivity.
Qed.

(** *** Every operation keeps the invariant *)

Lemma Inv_exec o s : Inv s -> Inv (snd (exec o s)).
Proof.
  intros I. destruct o as [delay param channel mode|event|timer]; simpl.
  - rewrite _set_timer_scheduled.
    + by apply Inv_scheduled.
    + intros h Hh. destruct (inv_table s (inv_consistent s I) _ _ Hh) as (dc & ? & _ & ?).
      by exists dc.
  - destruct (later_timers s !! (ev_arg event, ev_channel event, mode_of event)) as [h|] eqn:E.
    + rewrite (mode_change_removed event s h (inv_consistent s I) E). by apply Inv_removed.
    + by rewrite (mode_change_noop event s E).
  - destruct (reactor s !! timer) as [dc|] eqn:Hdc; [|by unfold reactor_fire; rewrite Hdc].
    destruct (decide (dc_status dc = Pending)) as [Hp|Hp].
    + pose proof (inv_pending s (inv_consistent s I) timer dc Hdc Hp) as Hk.
      pose proof (reactor_fire_removed timer dc s Hdc Hp Hk) as H.
      destruct (dc_key dc) as [[param channel] mode].
      destruct H as (r & rest & -> & _). simpl.
      apply Inv_set_outbox. by apply Inv_removed.
    + unfold reactor_fire. rewrite Hdc. by destruct (dc_status dc).
Qed.

Lemma Inv_run ops s : Inv s -> Inv (run ops s).
Proof.
  revert s. induction ops as [|o ops IH]; intros s I; [exact I|].
  simpl. apply IH. by apply Inv_exec.
Qed.

(** *** The loop of [_set_all_timers] *)

Lemma persisted_scheduled_same delay param channel mode s :
  persisted (param, channel, mode) (scheduled delay (param, channel, mode) s)
  = [mkLater (time_at (clock s) + delay) param channel mode].
Proof.
  unfold persisted, scheduled. simpl.
  rewrite filter_app, list_filter_filter.
  rewrite (list_filter_iff _ (fun _ => False)) by tauto.
  assert (Hnil : forall l : list Later, filter (fun _ => False) l = []).
  { induction l as [|x l IH]; [done|]. rewrite filter_cons_False; [exact IH|tauto]. }
  rewrite Hnil. simpl. by rewrite filter_cons_True.
Qed.

Lemma persisted_scheduled_other delay k k' s :
  k' <> k -> persisted k' (scheduled delay k s) = persisted k' s.
Proof.
  intros Hne. destruct k as [[param channel] mode].
  unfold persisted, scheduled. simpl.
  rewrite filter_app, list_filter_filter_l by (intros x ->; done).
  rewrite filter_cons_False by (simpl; unfold later_key; simpl; congruence).
  by rewrite app_nil_r.
Qed.

Lemma Consistent_set_clock n s : Consistent s -> Consistent (set_clock n s).
Proof. intros []. by constructor. Qed.

Lemma resync_body_scheduled item s :
  Consistent s ->
  resync_body item s
  = (Ok tt, scheduled (activatetime item - time_at (clock s)) (later_key item)
              (set_clock (S (clock s)) s)).
Proof.
  intros I. unfold resync_body. mstep.
  rewrite _set_timer_scheduled; [reflexivity|].
  intros h Hh. destruct (inv_table s I _ _ Hh) as (dc & ? & _ & ?). by exists dc.
Qed.

Lemma resync_loop items : forall s,
  Consistent s ->
  exists s', for_each items resync_body s = (Ok tt, s')
    /\ Consistent s'
    /\ (forall k, is_Some (later_timers s' !! k)
                  <-> is_Some (later_timers s !! k) \/ k ∈ later_key <$> items)
    /\ (forall k, k ∈ later_key <$> laters s'
                  <-> k ∈ later_key <$> laters s \/ k ∈ later_key <$> items)
    /\ (forall k, k ∈ later_key <$> items -> length (persisted k s') = 1)
    /\ (forall k, k ∉ later_key <$> items -> persisted k s' = persisted k s)
    /\ (items <> [] -> jsonfile s' = Some (laters s'))
    /\ (items = [] -> s' = s)
    /\ started s' = started s /\ outbox s' = outbox s /\ defaulttime s' = defaulttime s
    /\ length (reactor s) <= length (reactor s')
    /\ (forall h dc', reactor s' !! h = Some dc' -> h < length (reactor s) ->
          exists dc, reactor s !! h = Some dc /\ dc_key dc' = dc_key dc
                     /\ dc_delay dc' = dc_delay dc)
    /\ (forall h dc, reactor s' !! h = Some dc -> length (reactor s) <= h ->
          exists item n, item ∈ items /\ dc_key dc = later_key item
                         /\ dc_delay dc = Z.max 1 (activatetime item - time_at n)).
Proof.
  induction items as [|item items IH]; intros s I.
  - exists s. simpl. split_and!; try done.
    + intros k. rewrite elem_of_nil. tauto.
    + intros k. rewrite elem_of_nil. tauto.
    + intros k H. by apply elem_of_nil in H.
    + intros h dc' H _. by exists dc'.
    + intros h dc H Hge. apply lookup_lt_Some in H. lia.
  - set (k := later_key item).
    set (d := (activatetime item - time_at (clock s))%Z).
    set (s1 := scheduled d k (set_clock (S (clock s)) s)).
    assert (I1 : Consistent s1) by apply Consistent_scheduled, Consistent_set_clock, I.
    destruct (IH s1 I1) as (s' & E & I' & Ht & Hl & Hone & Hother & Hj & _ & Hst & Ho & Hdt
                            & Hlen & Hold & Hnew).
    assert (Hlen1 : length (reactor s1) = S (length (reactor s))).
    { unfold s1, scheduled, k, later_key. simpl. rewrite length_app. simpl.
      unfold cancelled_for. simpl. destruct (later_timers s !! _); rewrite ?length_alter; lia. }
    assert (Hr1 : forall h dc1, reactor s1 !! h = Some dc1 ->
              (h < length (reactor s) /\ exists dc, reactor s !! h = Some dc
                 /\ dc_key dc1 = dc_key dc /\ dc_delay dc1 = dc_delay dc)
              \/ (h = length (reactor s) /\ dc_key dc1 = k /\ dc_delay dc1 = Z.max 1 d)).
    { intros h dc1. unfold s1, scheduled, k, later_key. simpl.
      intros H. apply lookup_app_Some in H as [H|[Hge H]].
      - left. unfold cancelled_for in H. simpl in H.
        destruct (later_timers s !! _).
        + apply lookup_alter_status in H as (dc0 & H0 & ? & ? & _).
          split; [by eapply lookup_lt_Some|]. by exists dc0.
        + split; [by eapply lookup_lt_Some|]. by exists dc1.
      - right. destruct (h - _) as [|n] eqn:En; [|done]. injection H as <-. simpl.
        split; [|done]. unfold cancelled_for in *. simpl in *.
        destruct (later_timers s !! _); rewrite ?length_alter in *; lia. }
    exists s'. cbn [for_each]. unfold bind at 1.
    rewrite (resync_body_scheduled item s I). fold k d s1. rewrite E.
    split; [reflexivity|]. split; [exact I'|]. split_and!.
    + intros k'. rewrite Ht, fmap_cons, elem_of_cons. fold k.
      unfold s1, scheduled, k, later_key at 1 2. simpl. unfold is_Some.
      setoid_rewrite lookup_insert_Some. fold (later_key item). fold k. split.
      * intros [(x & [[<- <-]|[Hne Hx]])|H]; [right; by left|left; by exists x|right; by right].
      * intros [[x Hx]|[->|H]]; [|left; eexists; by left|by right].
        destruct (decide (k = k')) as [<-|Hne]; [left; eexists; by left|].
        left. exists x. by right.
    + intros k'. rewrite Hl, fmap_cons, elem_of_cons. fold k.
      unfold s1, scheduled, k, later_key at 1 2. simpl. fold (later_key item). fold k.
      rewrite fmap_app, elem_of_app, elem_of_keys_filter. simpl.
      rewrite list_elem_of_singleton. unfold later_key at 2. simpl. fold (later_key item). fold k.
      destruct (decide (k' = k)); tauto.
    + intros k'. rewrite fmap_cons, elem_of_cons. fold k. intros Hk'.
      destruct (decide (k' ∈ later_key <$> items)) as [Hin|Hni]; [by apply Hone|].
      destruct Hk' as [->|?]; [|done].
      rewrite (Hother k Hni). unfold s1, k, later_key.
      by rewrite persisted_scheduled_same.
    + intros k'. rewrite fmap_cons, not_elem_of_cons. fold k. intros [Hne Hni].
      rewrite (Hother k' Hni). unfold s1. by rewrite persisted_scheduled_other.
    + intros _. destruct items as [|i2 items]; [|by apply Hj].
      simpl in E. injection E as <-. unfold s1, scheduled, k, later_key. reflexivity.
    + done.
    + rewrite Hst. unfold s1, scheduled, k, later_key. reflexivity.
    + rewrite Ho. unfold s1, scheduled, k, later_key. reflexivity.
    + rewrite Hdt. unfold s1, scheduled, k, later_key. reflexivity.
    + lia.
    + intros h dc' H Hlt.
      destruct (Hold h dc' H ltac:(lia)) as (dc1 & H1 & Hk1 & Hd1).
      destruct (Hr1 h dc1 H1) as [(_ & dc & H0 & ? & ?)|(-> & _)]; [|lia].
      exists dc. split; [done|]. split; congruence.
    + intros h dc H Hge.
      destruct (decide (h < length (reactor s1))) as [Hlt|Hnlt].
      * destruct (Hold h dc H Hlt) as (dc1 & H1 & Hk1 & Hd1).
        destruct (Hr1 h dc1 H1) as [(? & _)|(-> & Hk & Hd)]; [lia|].
        exists item, (clock s). split; [by left|]. unfold k, d in *. split; congruence.
      * destruct (Hnew h dc H ltac:(lia)) as (item' & n & Hin & ? & ?).
        exists item', n. split; [by right|done].
Qed.

(** *** The start-up state *)

Lemma construct_eq file dt :
  construct file dt = (Ok tt, mkAdmin false ∅ (default [] file) dt file [] 0 []).
Proof. reflexivity. Qed.

Lemma start_eq file dt :
  start (snd (construct file dt)) = for_each (default [] file) resync_body (boot_state file dt).
Proof.
  rewrite construct_eq. unfold start, _set_all_timers. mstep.
  rewrite map_to_list_empty. reflexivity.
Qed.

Lemma Consistent_boot_state file dt : Consistent (boot_state file dt).
Proof. constructor; simpl; intros *; by rewrite ?lookup_empty, ?lookup_nil. Qed.

Lemma NoDup_keys_of_counts (l : list Later) :
  (forall k, length (filter (fun item => later_key item = k) l) <= 1) ->
  NoDup (later_key <$> l).
Proof.
  induction l as [|item l IH]; intros H; [constructor|].
  rewrite fmap_cons. constructor.
  - intros Hin. apply list_elem_of_fmap in Hin as (item' & E & Hin).
    specialize (H (later_key item)). rewrite filter_cons_True in H by done.
    assert (Hin' : item' ∈ filter (fun i => later_key i = later_key item) l)
      by (apply list_elem_of_filter; done).
    destruct (filter _ l); [by apply elem_of_nil in Hin'|simpl in H; lia].
  - apply IH. intros k. specialize (H k). rewrite filter_cons in H.
    case_decide; simpl in H; lia.
Qed.

Lemma booted_spec file dt :
  exists s', start (snd (construct file dt)) = (Ok tt, s')
    /\ booted file dt = s'
    /\ Inv s'
    /\ (forall k, is_Some (later_timers s' !! k) <-> k ∈ later_key <$> default [] file)
    /\ (forall h dc, reactor s' !! h = Some dc ->
          exists item n, item ∈ default [] file /\ dc_key dc = later_key item
                         /\ dc_delay dc = Z.max 1 (activatetime item - time_at n)).
Proof.
  destruct (resync_loop (default [] file) (boot_state file dt) (Consistent_boot_state file dt))
    as (s' & E & I' & Ht & Hl & Hone & Hother & Hj & Hnil & _ & _ & _ & _ & _ & Hnew).
  exists s'. rewrite start_eq. split; [exact E|].
  split; [unfold booted; by rewrite start_eq, E|].
  assert (Hkeys : forall k, is_Some (later_timers s' !! k) <-> k ∈ later_key <$> default [] file).
  { intros k. rewrite Ht. simpl. rewrite lookup_empty. split; [|by right].
    intros [[x [=]]|H]; done. }
  split; [|split; [exact Hkeys|]].
  - constructor; [exact I'| | |].
    + intros k. rewrite Hkeys, Hl. simpl. tauto.
    + apply NoDup_keys_of_counts. intros k.
      destruct (decide (k ∈ later_key <$> default [] file)) as [Hin|Hni].
      * fold (persisted k s'). by rewrite (Hone k Hin).
      * fold (persisted k s'). rewrite (Hother k Hni). unfold persisted. simpl.
        destruct (filter _ (default [] file)) as [|x l] eqn:Ef; [simpl; lia|].
        exfalso. apply Hni.
        assert (Hx : x ∈ filter (fun item => later_key item = k) (default [] file))
          by (rewrite Ef; left).
        apply list_elem_of_filter in Hx as [<- Hx]. apply list_elem_of_fmap. by exists x.
    + destruct (default [] file) as [|i0 l0] eqn:Ed.
      * rewrite (Hnil eq_refl). reflexivity.
      * by rewrite Hj.
  - intros h dc H. apply (Hnew h dc H). simpl. lia.
Qed.

Lemma Inv_reachable file dt ops : Inv (run ops (booted file dt)).
Proof.
  apply Inv_run. destruct (booted_spec file dt) as (s' & _ & -> & I & _). exact I.
Qed.

(** *** The live delayed calls of a key *)

Lemma filter_unique {A} (P : A -> Prop) `{!forall x, Decision (P x)} (l : list A) i x :
  l !! i = Some x -> P x ->
  (forall j y, l !! j = Some y -> P y -> j = i) ->
  filter P l = [x].
Proof.
  revert i. induction l as [|a l IH]; intros i Hi Hx Hu; [done|].
  destruct i as [|i]; simpl in Hi.
  - injection Hi as ->. rewrite filter_cons_True by done. f_equal.
    destruct (filter P l) as [|y l'] eqn:Ef; [done|].
    assert (Hy : y ∈ filter P l) by (rewrite Ef; left).
    apply list_elem_of_filter in Hy as [Hy Hin].
    apply list_elem_of_lookup in Hin as [j Hj].
    specialize (Hu (S j) y Hj Hy). discriminate.
  - rewrite filter_cons_False.
    + apply (IH i Hi Hx). intros j y Hj Hy. specialize (Hu (S j) y Hj Hy). lia.
    + intros Ha. specialize (Hu 0 a eq_refl Ha). discriminate.
Qed.

Lemma filter_none {A} (P : A -> Prop) `{!forall x, Decision (P x)} (l : list A) :
  (forall x, x ∈ l -> ~ P x) -> filter P l = [].
Proof.
  intros Hall. destruct (filter P l) as [|y l'] eqn:Ef; [done|].
  assert (Hy : y ∈ filter P l) by (rewrite Ef; left).
  apply list_elem_of_filter in Hy as [Hy Hin]. by destruct (Hall y Hin).
Qed.

Lemma live_timers_table k s :
  Consistent s ->
  live_timers k s = match later_timers s !! k with
                    | Some h => match reactor s !! h with Some dc => [dc] | None => [] end
                    | None => []
                    end.
Proof.
  intros I. unfold live_timers.
  destruct (later_timers s !! k) as [h|] eqn:E.
  - destruct (inv_table s I k h E) as (dc & Hdc & Hk & Hp). rewrite Hdc.
    apply (filter_unique _ _ h dc Hdc); [done|].
    intros j y Hj [Hky Hpy]. pose proof (inv_pending s I j y Hj Hpy) as Hl.
    rewrite Hky in Hl. congruence.
  - apply filter_none. intros dc Hin [Hk Hp].
    apply list_elem_of_lookup in Hin as [j Hj].
    pose proof (inv_pending s I j dc Hj Hp) as Hl. rewrite Hk in Hl. congruence.
Qed.

Lemma scheduled_new_call delay k s :
  reactor (scheduled delay k s) !! length (reactor s) = Some (mkCall (Z.max 1 delay) k Pending)
  /\ later_timers (scheduled delay k s) !! k = Some (length (reactor s)).
Proof.
  destruct k as [[param channel] mode]. set (k := (param, channel, mode)).
  assert (Hlen : length (cancelled_for k s) = length (reactor s)).
  { unfold cancelled_for. destruct (later_timers s !! k); [apply length_alter|done]. }
  unfold scheduled. simpl. fold k. split; [|apply lookup_insert_eq].
  rewrite lookup_app_r by lia. by rewrite Hlen, Nat.sub_diag.
Qed.

(** *** The claims on the timed requests *)

(** C1. From the start-up state of the plugin (constructed on any json
    file, then started) and after any sequence of [_set_timer] (schedule),
    [on_event_irc_on_mode_change] (invalidate) and delayed-call firings, the
    keys of [later_timers] are exactly the keys of the items of
    [config['laters']], which is also what the json file holds; schedule and
    invalidate always complete without an exception there. *)
Theorem timer_table_matches_persisted (file : option (list Later)) (dt : option Z)
    (ops : list Op) :
  let s := run ops (booted file dt) in
  dom (later_timers s) =@{gset Key} list_to_set (later_key <$> laters s)
  /\ (forall k, is_Some (later_timers s !! k)
                <-> exists item, item ∈ laters s /\ later_key item = k)
  /\ default [] (jsonfile s) = laters s
  /\ (forall delay param channel mode,
        fst (exec (op_schedule delay param channel mode) s) = Ok tt)
  /\ (forall event, fst (exec (op_mode_change event) s) = Ok tt).
Proof.
  intros s. pose proof (Inv_reachable file dt ops) as I. fold s in I.
  split_and!.
  - apply set_eq. intros k.
    rewrite elem_of_dom, elem_of_list_to_set. apply (inv_keys s I).
  - intros k. rewrite (inv_keys s I), list_elem_of_fmap. split.
    + intros (item & -> & Hin). by exists item.
    + intros (item & Hin & <-). by exists item.
  - apply (inv_saved s I).
  - intros delay param channel mode. simpl. rewrite _set_timer_scheduled; [done|].
    intros h Hh. destruct (inv_table s (inv_consistent s I) _ _ Hh) as (dc & ? & _ & ?).
    by exists dc.
  - intros event. simpl.
    destruct (later_timers s !! (ev_arg event, ev_channel event, mode_of event)) as [h|] eqn:E.
    + by rewrite (mode_change_removed event s h (inv_consistent s I) E).
    + by rewrite (mode_change_noop event s E).
Qed.

(** C2. In any state of a run, two calls of [_set_timer] for the same key
    [(param, channel, mode)] leave exactly one pending delayed call for the
    key, the one [later_timers] holds, with delay [max(1, delay2)], and
    exactly one persisted item for the key, [(now + delay2, ...)], saved to
    the file; and no delayed call ever has a delay below 1. *)
Theorem schedule_twice_replaces (file : option (list Later)) (dt : option Z)
    (ops : list Op) (delay1 delay2 : Z) (param : option string) (channel mode : string) :
  let s := run ops (booted file dt) in
  let k := (param, channel, mode) in
  exists s1 s2 h,
    _set_timer delay1 param channel mode s = (Ok tt, s1)
    /\ _set_timer delay2 param channel mode s1 = (Ok tt, s2)
    /\ later_timers s2 !! k = Some h
    /\ reactor s2 !! h = Some (mkCall (Z.max 1 delay2) k Pending)
    /\ live_timers k s2 = [mkCall (Z.max 1 delay2) k Pending]
    /\ persisted k s2 = [mkLater (time_at (clock s1) + delay2) param channel mode]
    /\ jsonfile s2 = Some (laters s2)
    /\ (forall h' dc, reactor s2 !! h' = Some dc -> (1 <= dc_delay dc)%Z).
Proof.
  intros s k. pose proof (Inv_reachable file dt ops) as I. fold s in I.
  pose proof (inv_consistent s I) as C.
  set (s1 := scheduled delay1 k s).
  assert (C1 : Consistent s1) by by apply Consistent_scheduled.
  set (s2 := scheduled delay2 k s1).
  assert (C2 : Consistent s2) by by apply Consistent_scheduled.
  assert (Hpend : forall s0, Consistent s0 -> forall h, later_timers s0 !! k = Some h ->
            exists dc, reactor s0 !! h = Some dc /\ dc_status dc = Pending).
  { intros s0 C0 h Hh. destruct (inv_table s0 C0 _ _ Hh) as (dc & ? & _ & ?). by exists dc. }
  destruct (scheduled_new_call delay2 k s1) as [Hr Hl]. fold s2 in Hr, Hl.
  exists s1, s2, (length (reactor s1)). split_and!.
  - apply _set_timer_scheduled, (Hpend s C).
  - apply _set_timer_scheduled, (Hpend s1 C1).
  - exact Hl.
  - exact Hr.
  - rewrite (live_timers_table k s2 C2), Hl, Hr. reflexivity.
  - apply persisted_scheduled_same.
  - reflexivity.
  - apply (inv_delay s2 C2).
Qed.

(** C6. In any state of a run, a mode-change event whose key
    [(arg, channel, sign+mode)] has a pending timed request cancels the
    delayed call, takes the key out of [later_timers] and its items out of
    [config['laters']], and saves the config; with no pending request for
    the key the handler returns without an exception and changes nothing. *)
Theorem mode_change_invalidates (file : option (list Later)) (dt : option Z)
    (ops : list Op) (event : ModeChange) :
  let s := run ops (booted file dt) in
  let k := (ev_arg event, ev_channel event, mode_of event) in
  (forall h, later_timers s !! k = Some h ->
     exists s' dc,
       on_event_irc_on_mode_change event s = (Ok tt, s')
       /\ reactor s !! h = Some dc /\ dc_status dc = Pending
       /\ reactor s' = <[h := with_status Cancelled dc]> (reactor s)
       /\ live_timers k s' = []
       /\ later_timers s' = delete k (later_timers s)
       /\ laters s' = filter (fun item => later_key item <> k) (laters s)
       /\ persisted k s' = []
       /\ jsonfile s' = Some (laters s'))
  /\ (later_timers s !! k = None ->
      on_event_irc_on_mode_change event s = (Ok tt, s)).
Proof.
  intros s k. pose proof (Inv_reachable file dt ops) as I. fold s in I.
  pose proof (inv_consistent s I) as C.
  split; [|apply mode_change_noop].
  intros h Hh. destruct (inv_table s C k h Hh) as (dc & Hdc & Hk & Hp).
  exists (removed Cancelled k h s), dc.
  assert (C' : Consistent (removed Cancelled k h s)) by by apply Consistent_removed.
  split_and!; try done.
  - by apply mode_change_removed.
  - simpl. symmetry. by apply insert_alter_status.
  - rewrite (live_timers_table k _ C'). simpl. by rewrite lookup_delete_eq.
  - unfold persisted. simpl. rewrite list_filter_filter.
    apply filter_none. intros x _ [? ?]. done.
Qed.

(** C3. In any state of a run, when the reactor runs a pending delayed
    call, [do_later] first takes its own key out of [later_timers] and out of
    [config['laters']] and saves the config; then it issues one request:
    for the modes [+b -b +q -q +o -o +v -v] the request [ircop.ban],
    [ircop.unban], [ircop.quiet], [ircop.unquiet], [ircop.op], [ircop.deop],
    [ircop.voice], [ircop.devoice] with the channel and the parameter as
    target, for any other mode [ircop.mode] with the channel, the mode
    string and the parameter. When that request succeeds nothing more is
    sent; when it fails with [OpFailed] or [ValueError] the only thing sent
    after it is the [irc.do_msg] notice to the channel, naming the mode, the
    parameter and the reason (no second request). *)
Theorem fire_removes_then_requests (file : option (list Later)) (dt : option Z)
    (ops : list Op) (timer : nat) (dc : DelayedCall) :
  let s := run ops (booted file dt) in
  reactor s !! timer = Some dc -> dc_status dc = Pending ->
  let '(param, channel, mode) := dc_key dc in
  let req := fire_request param channel mode in
  (exists r rest s',
     reactor_fire timer s = (r, s')
     /\ later_timers s' = delete (dc_key dc) (later_timers s)
     /\ laters s' = filter (fun item => later_key item <> dc_key dc) (laters s)
     /\ persisted (dc_key dc) s' = []
     /\ jsonfile s' = Some (laters s')
     /\ live_timers (dc_key dc) s' = []
     /\ outbox s' = outbox s ++ req :: rest
     /\ (answer_of req = Ok tt -> r = Ok tt /\ rest = [])
     /\ (forall e, answer_of req = Raise e ->
         (exists msg, e = OpFailed msg \/ e = ValueError msg) ->
         r = Ok tt
         /\ rest = [send_event "irc.do_msg"
                      [("user", channel);
                       ("message", "I was about to do a " +:+ mode +:+ " " +:+ str_opt param
                                     +:+ ", but " +:+ exc_str e)]%string]))
  /\ (forall name, In (mode, name)
        [("+b", "ban"); ("-b", "unban"); ("+q", "quiet"); ("-q", "unquiet");
         ("+o", "op"); ("-o", "deop"); ("+v", "voice"); ("-v", "devoice")]%string ->
      req = issue_request ("ircop." +:+ name) [("channel", Some channel); ("target", param)]%string)
  /\ (dict_get mode_requests mode = None ->
      req = issue_request "ircop.mode"
              [("channel", Some channel); ("mode", Some mode); ("param", param)]%string).
Proof.
  intros s Hdc Hp. pose proof (Inv_reachable file dt ops) as I. fold s in I.
  pose proof (inv_consistent s I) as C.
  pose proof (inv_pending s C timer dc Hdc Hp) as Hk.
  pose proof (reactor_fire_removed timer dc s Hdc Hp Hk) as H.
  destruct (dc_key dc) as [[param channel] mode] eqn:Ek.
  destruct H as (r & rest & E & Hok & Hfail).
  split; [|split].
  - exists r, rest, (set_outbox (outbox s ++ fire_request param channel mode :: rest)
                       (removed Called (param, channel, mode) timer s)).
    assert (C' : Consistent (removed Called (param, channel, mode) timer s))
      by by apply Consistent_removed.
    split_and!; try done.
    + unfold persisted. simpl. rewrite list_filter_filter.
      apply filter_none. intros x _ [? ?]. done.
    + pose proof (live_timers_table (param, channel, mode) _ C') as Hl.
      simpl in Hl. rewrite lookup_delete_eq in Hl. exact Hl.
  - intros name Hin. unfold fire_request. simpl in Hin.
    repeat (destruct Hin as [[= <- <-]|Hin]; [reflexivity|]). destruct Hin.
  - intros Hnone. unfold fire_request. by rewrite Hnone.
Qed.

(** *** Resynchronisation *)

Lemma resync_calls_lookup items : forall c i item,
  items !! i = Some item ->
  resync_calls c items !! i
  = Some (mkCall (Z.max 1 (activatetime item - time_at (c + 2 * i))) (later_key item) Pending).
Proof.
  induction items as [|x items IH]; intros c i item H; [done|].
  destruct i as [|i]; cbn [lookup list_lookup resync_calls] in *.
  - injection H as ->. by rewrite Nat.add_0_r.
  - rewrite (IH _ _ _ H). replace (S (S c) + 2 * i) with (c + 2 * S i) by lia. reflexivity.
Qed.

Lemma length_resync_calls items : forall c, length (resync_calls c items) = length items.
Proof. induction items as [|x items IH]; intros c; simpl; [done|by rewrite IH]. Qed.

Lemma resync_loop_fresh items : forall s,
  Consistent s ->
  NoDup (later_key <$> items) ->
  (forall k, k ∈ later_key <$> items -> later_timers s !! k = None) ->
  exists s', for_each items resync_body s = (Ok tt, s')
    /\ reactor s' = reactor s ++ resync_calls (clock s) items.
Proof.
  induction items as [|item items IH]; intros s I Hnd Hfresh.
  - exists s. simpl. by rewrite app_nil_r.
  - rewrite fmap_cons in Hnd. apply NoDup_cons in Hnd as [Hni Hnd].
    set (k := later_key item).
    set (d := (activatetime item - time_at (clock s))%Z).
    set (s1 := scheduled d k (set_clock (S (clock s)) s)).
    assert (Hk : later_timers s !! k = None) by (apply Hfresh; rewrite fmap_cons; left).
    assert (Hr1 : reactor s1 = reactor s ++ [mkCall (Z.max 1 d) k Pending]).
    { unfold s1, scheduled, cancelled_for, k, later_key. simpl.
      fold (later_key item). fold k. by rewrite Hk. }
    assert (I1 : Consistent s1) by apply Consistent_scheduled, Consistent_set_clock, I.
    assert (Hf1 : forall k', k' ∈ later_key <$> items -> later_timers s1 !! k' = None).
    { intros k' Hin. unfold s1, scheduled, k, later_key. simpl.
      fold (later_key item). fold k.
      rewrite lookup_insert_ne; [apply Hfresh; rewrite fmap_cons; by right|].
      intros <-. done. }
    destruct (IH s1 I1 Hnd Hf1) as (s' & E & Hr).
    exists s'. cbn [for_each]. unfold bind at 1.
    rewrite (resync_body_scheduled item s I). fold k d s1. rewrite E.
    split; [reflexivity|]. rewrite Hr, Hr1, <- app_assoc. reflexivity.
Qed.

(** C5 (as amended). The first [reload], made by the constructor before
    [start], books no delayed call: [reload] synchronises only when
    [started] is set. [start] runs the resynchronisation, and so does every
    [reload] of a started plugin, on the list read again from the file. Run
    on the empty timer table, as by [start], it leaves exactly one pending
    delayed call for each key of the persisted list and none for any other
    key; every delayed call comes from an item of the list, with delay
    [max(1, activatetime - now)]; and when the keys of the list are distinct
    (as in every list the plugin wrote) the i-th item gets the i-th delayed
    call. *)
Theorem resync_from_persisted_list (file : option (list Later)) (dt : option Z) :
  construct file dt = (Ok tt, mkAdmin false ∅ (default [] file) dt file [] 0 [])
  /\ (forall s, reload s
        = if started s then _set_all_timers (set_laters (default [] (jsonfile s)) s)
          else (Ok tt, set_laters (default [] (jsonfile s)) s))
  /\ (exists s',
        start (snd (construct file dt)) = (Ok tt, s')
        /\ (forall k, length (live_timers k s')
                      = if decide (k ∈ later_key <$> default [] file) then 1 else 0)
        /\ (forall h dc, reactor s' !! h = Some dc ->
              exists item n, item ∈ default [] file /\ dc_key dc = later_key item
                             /\ dc_delay dc = Z.max 1 (activatetime item - time_at n))
        /\ (NoDup (later_key <$> default [] file) ->
            length (reactor s') = length (default [] file)
            /\ forall i item, default [] file !! i = Some item ->
                 reactor s' !! i
                 = Some (mkCall (Z.max 1 (activatetime item - time_at (2 * i)))
                           (later_key item) Pending))).
Proof.
  split; [reflexivity|]. split.
  - intros s. unfold reload. mstep. by destruct (started s).
  - destruct (booted_spec file dt) as (s' & E & _ & I & Hkeys & Hnew).
    exists s'. split; [exact E|]. split_and!.
    + intros k. rewrite (live_timers_table k s' (inv_consistent s' I)).
      case_decide as Hin.
      * apply Hkeys in Hin as [h Hh]. rewrite Hh.
        destruct (inv_table s' (inv_consistent s' I) k h Hh) as (dc & -> & _). reflexivity.
      * destruct (later_timers s' !! k) as [h|] eqn:Eh; [|reflexivity].
        exfalso. apply Hin, Hkeys. by exists h.
    + exact Hnew.
    + intros Hnd.
      destruct (resync_loop_fresh (default [] file) (boot_state file dt)
                  (Consistent_boot_state file dt) Hnd) as (s2 & E2 & Hr).
      { intros k _. apply lookup_empty. }
      rewrite start_eq in E. rewrite E in E2. injection E2 as <-.
      rewrite Hr. simpl. split; [apply length_resync_calls|].
      intros i item Hi. by apply resync_calls_lookup.
Qed.

(** *** Ban and quiet with a duration that does not parse *)

Lemma timer_cancel_outbox timer s : outbox (snd (timer_cancel timer s)) = outbox s.
Proof.
  unfold timer_cancel. destruct (reactor s !! timer) as [dc|]; [|reflexivity].
  destruct (dc_status dc); reflexivity.
Qed.

Lemma _set_timer_outbox delay param channel mode s :
  outbox (snd (_set_timer delay param channel mode s)) = outbox s.
Proof.
  unfold _set_timer. mstep.
  destruct (later_timers s !! (param, channel, mode)) as [timer|]; simpl; [|reflexivity].
  unfold timer_cancel; simpl.
  destruct (reactor s !! timer) as [dc|]; simpl; [|reflexivity].
  destruct (dc_status dc); reflexivity.
Qed.

Lemma _do_moderequest_b channel hostmask duration s :
  exists d s', _do_moderequest channel "b" hostmask duration s = (Ok d, s')
    /\ outbox s' = outbox s ++ [issue_request "ircop.ban"
                                  [("channel", Some channel); ("target", Some hostmask)]%string]
    /\ defaulttime s' = defaulttime s.
Proof.
  unfold _do_moderequest. mstep.
  set (args := [("channel"%string, Some channel); ("target"%string, Some hostmask)]).
  change ("ircop." +:+ "ban")%string with "ircop.ban"%string.
  change ("-" +:+ "b")%string with "-b"%string.
  set (s1 := set_outbox _ s).
  destruct (transport_answer "ircop.ban" args) as [u|e]; simpl.
  - destruct duration as [d|]; simpl; [|by eexists _, _].
    destruct (negb (d =? 0)%Z); simpl; [|by eexists _, _].
    pose proof (_set_timer_outbox d (Some hostmask) channel "-b" s1) as Ho.
    assert (Hd : defaulttime (snd (_set_timer d (Some hostmask) channel "-b" s1)) = defaulttime s).
    { unfold _set_timer. mstep.
      destruct (later_timers s !! _) as [timer|]; simpl; [|reflexivity].
      unfold timer_cancel; simpl.
      destruct (reactor s !! timer) as [dc|]; simpl; [|reflexivity].
      destruct (dc_status dc); reflexivity. }
    destruct (_set_timer d (Some hostmask) channel "-b" s1) as [[[]|e] s2]; simpl in *;
      eexists _, _; (split; [reflexivity|]); split; assumption.
  - destruct duration; by eexists _, _.
Qed.

(** C9 (as amended). When the duration text [ts] does not parse: [quiet]
    replies with the parse error and stops, no request is issued; [ban]
    goes on: for a full mask, and for a nick that whois resolves, the
    [ircop.ban] request is issued, and the text is the reason of the kick
    that goes with it. *)
Theorem unparsed_duration_ban_quiet (user channel target ts : string) (s : IRCAdmin) :
  ts <> EmptyString ->
  calendar_parse ts = None ->
  quiet channel target (Some ts) s
    = (Ok tt, set_outbox (outbox s ++ [reply "I don't understand when you want me to do that"]) s)
  /\
  (contains "@" target && contains "!" target && negb (contains "$" target) = true ->
   let nick := default EmptyString (head (split "!" target)) in
   let ban_req := issue_request "ircop.ban" [("channel", Some channel); ("target", Some target)]%string in
   let kick_req := issue_request "ircop.kick"
                     [("channel", Some channel); ("target", Some nick); ("reason", Some ts)]%string in
   exists rest,
     outbox (snd (ban user channel target (Some ts) s))
       = outbox s ++ [ban_req] ++ (if contains "*" nick then [] else [kick_req]) ++ rest)
  /\
  (negb (contains "@" target) && negb (contains "!" target) && negb (contains "$" target) = true ->
   forall n username host, whois target = Ok (n, username, host) ->
   exists hostmask rest,
     fst (_nick_to_hostmask target s) = Ok hostmask
     /\ outbox (snd (ban user channel target (Some ts) s))
        = outbox s ++ [issue_request "irc.whois" [(EmptyString, Some target)];
                       issue_request "ircop.ban" [("channel", Some channel); ("target", Some hostmask)]%string;
                       issue_request "ircop.kick"
                         [("channel", Some channel); ("target", Some target); ("reason", Some ts)]%string]
                   ++ rest).
Proof.
  intros Hts Hparse.
  destruct ts as [|c0 ts0]; [done|]. clear Hts.
  split; [|split].
  - unfold quiet, parse_time. rewrite Hparse. reflexivity.
  - intros Hmask nick ban_req kick_req.
    unfold ban, parse_time. rewrite Hparse. mstep. rewrite Hmask. simpl.
    fold nick.
    match goal with
    | |- context [_do_moderequest channel "b" target ?dur s] =>
        destruct (_do_moderequest_b channel target dur s) as (d & s1 & E & Ho & _)
    end.
    rewrite E. simpl. fold kick_req.
    destruct (contains "*" nick); simpl.
    + exists (match d with Raise (OpFailed m) => [reply m] | _ => [] end).
      destruct d as [[]|[]]; simpl; rewrite Ho, <- ?app_assoc, ?app_nil_r; reflexivity.
    + set (a := transport_answer "ircop.kick" _).
      exists (match d, a with
              | Raise (OpFailed m), _ => [reply m]
              | Ok _, Raise (OpFailed m) => [reply m]
              | _, _ => []
              end).
      destruct d as [[]|[]]; simpl; try (rewrite Ho, <- ?app_assoc; reflexivity);
        destruct a as [[]|[]]; simpl; rewrite Ho, <- ?app_assoc, ?app_nil_r; reflexivity.
  - intros Hnick n username host Hw.
    assert (Hn1 : (contains "@" target && contains "!" target && negb (contains "$" target)) = false).
    { destruct (contains "@" target); [discriminate|reflexivity]. }
    assert (Hlook : (contains "!" target && contains "@" target) || startswith "$" target = false).
    { destruct (startswith "$" target) eqn:Hd.
      - apply startswith_char_contains in Hd. rewrite Hd, andb_false_r in Hnick. discriminate.
      - destruct (contains "!" target); [by destruct (contains "@" target)|reflexivity]. }
    destruct (_nick_to_hostmask_whois target s n username host Hlook Hw) as (hostmask & En).
    exists hostmask.
    unfold ban, parse_time. rewrite Hparse. mstep. rewrite Hn1, Hnick. simpl.
    rewrite En. simpl.
    set (s1 := set_outbox _ s).
    match goal with
    | |- context [_do_moderequest channel "b" hostmask ?dur s1] =>
        destruct (_do_moderequest_b channel hostmask dur s1) as (d & s2 & E & Ho & _)
    end.
    rewrite E. simpl.
    set (a := transport_answer "ircop.kick" _).
    exists (match d, a with
            | Raise (OpFailed m), _ => [reply m]
            | Ok _, Raise (OpFailed m) => [reply m]
            | _, _ => []
            end).
    split; [reflexivity|].
    assert (Ho1 : outbox s1 = outbox s ++ [issue_request "irc.whois" [(EmptyString, Some target)]])
      by reflexivity.
    destruct d as [[]|[]]; simpl;
      try (rewrite Ho, Ho1, <- ?app_assoc; reflexivity);
      destruct a as [[]|[]]; simpl; rewrite Ho, Ho1, <- ?app_assoc, ?app_nil_r; reflexivity.
Qed.

End AdminFacts.

(** ** IRCTopic: the edit callbacks *)

Section TopicEditFacts.
Import Py Topic.
Local Open Scope py_scope.

Lemma insert_at_clamped {A} (l : list A) (pos : Z) (x : A) :
  exists i, i <= length l /\ insert_at l pos x = take i l ++ x :: drop i l
            /\ ((Z.of_nat (length l) <= pos)%Z -> i = length l)
            /\ ((pos < - Z.of_nat (length l))%Z -> i = 0)
            /\ ((0 <= pos <= Z.of_nat (length l))%Z -> Z.of_nat i = pos)
            /\ ((- Z.of_nat (length l) <= pos < 0)%Z -> Z.of_nat i = (Z.of_nat (length l) + pos)%Z).
Proof.
  unfold insert_at.
  set (n := Z.of_nat (length l)).
  set (p := if (pos <? 0)%Z then Z.max 0 (n + pos) else Z.min pos n).
  exists (Z.to_nat p). subst p.
  destruct (Z.ltb_spec pos 0); repeat split; intros; subst n; lia.
Qed.

(** C7 (as amended). With [n] the number of topic parts: [replace] and
    [remove] answer every position outside [-n .. n-1] with the reply
    "There are only n topic parts..." and issue no request; [insert] never
    rejects a position: it clamps it to the list ([pos >= n] appends,
    [pos < -n] prepends) and issues the set-topic request. *)
Theorem topic_edit_positions (channel currenttopic text : string) (pos : Z) (s : IRCTopic) :
  let parts := map strip (split "|" currenttopic) in
  let n := length parts in
  ((pos < - Z.of_nat n \/ Z.of_nat n <= pos)%Z ->
     edit_callback (EReplace pos text) channel currenttopic s
       = (Ok tt, set_outbox (outbox s ++ [reply (only_parts n)]) s)
     /\ edit_callback (ERemove pos) channel currenttopic s
       = (Ok tt, set_outbox (outbox s ++ [reply (only_parts n)]) s))
  /\
  (exists i, i <= n
     /\ edit_callback (EInsert pos text) channel currenttopic s
        = (Ok tt, set_outbox (outbox s ++
             [issue_request "ircop.topic"
                [(EmptyString, Some channel);
                 (EmptyString, Some (join " | " (take i parts ++ text :: drop i parts)))]]) s)
     /\ ((Z.of_nat n <= pos)%Z -> i = n)
     /\ ((pos < - Z.of_nat n)%Z -> i = 0)).
Proof.
  intros parts n. split.
  - intros Hpos. apply (index_None n pos) in Hpos.
    unfold edit_callback, setitem, delitem. fold parts. fold n.
    rewrite Hpos. split; reflexivity.
  - destruct (insert_at_clamped parts pos text) as (i & Hi & E & Hge & Hlt & _).
    exists i. split; [exact Hi|]. split; [|split; assumption].
    unfold edit_callback. fold parts. rewrite E. reflexivity.
Qed.

(** Inside [-n .. n-1] [replace] and [remove] apply the edit, a negative
    position counting from the end. *)
Lemma topic_edit_in_range (channel currenttopic text : string) (pos : Z) (s : IRCTopic) :
  let parts := map strip (split "|" currenttopic) in
  let n := length parts in
  (- Z.of_nat n <= pos < Z.of_nat n)%Z ->
  exists i, i < n
    /\ Z.of_nat i = (if (pos <? 0)%Z then Z.of_nat n + pos else pos)%Z
    /\ edit_callback (EReplace pos text) channel currenttopic s
       = _set_topic channel (join " | " (<[i := text]> parts)) s
    /\ edit_callback (ERemove pos) channel currenttopic s
       = _set_topic channel (join " | " (delete i parts)) s.
Proof.
  intros parts n Hpos.
  destruct (index n pos) as [i|] eqn:E.
  - exists i. pose proof (index_Some _ _ _ E) as [Hi Hc].
    split; [exact Hi|]. split.
    + destruct (Z.ltb_spec pos 0); lia.
    + unfold edit_callback, setitem, delitem. fold parts. fold n. rewrite E. split; reflexivity.
  - apply index_None in E. lia.
Qed.

End TopicEditFacts.

(** C7, the claim as stated fails for [insert]: position 5 on the two-part
    topic [a | b] is answered with a set-topic request for [a | b | x], not
    with the out-of-range reply; and for [replace], position -1 replaces the
    last part. *)
Lemma topicinsert_accepts_any_position :
  Topic.outbox (snd (Topic.edit_callback (Topic.EInsert 5 "x") "#c" "a | b" Topic.started))
    = [issue_request "ircop.topic" [(EmptyString, Some "#c"%string); (EmptyString, Some "a | b | x"%string)]]
  /\ Topic.outbox (snd (Topic.edit_callback (Topic.EReplace (-1) "x") "#c" "a | b" Topic.started))
    = [issue_request "ircop.topic" [(EmptyString, Some "#c"%string); (EmptyString, Some "a | x"%string)]]
  /\ ~ rejects_invalid_positions (fun pos => Topic.EInsert pos "x")
  /\ ~ rejects_invalid_positions (fun pos => Topic.EReplace pos "x").
Proof.
  split; [reflexivity|]. split; [reflexivity|]. split.
  - intros H. specialize (H "#c"%string "a | b"%string 5%Z Topic.started).
    simpl in H. assert (Hp : (5 < 0 \/ 2 <= 5)%Z) by lia.
    specialize (H Hp). vm_compute in H. discriminate H.
  - intros H. specialize (H "#c"%string "a | b"%string (-1)%Z Topic.started).
    simpl in H. assert (Hp : (-1 < 0 \/ 2 <= -1)%Z) by lia.
    specialize (H Hp). vm_compute in H. discriminate H.
Qed.

Example topic_edit_examples :
  Topic.outbox (snd (Topic.edit_callback (Topic.EAppend "gamma") "#c" "alpha | beta" Topic.started))
    = [issue_request "ircop.topic" [(EmptyString, Some "#c"%string); (EmptyString, Some "alpha | beta | gamma"%string)]]
  /\ Topic.outbox (snd (Topic.edit_callback (Topic.EReplace 1 "X") "#c" "a | b | c" Topic.started))
    = [issue_request "ircop.topic" [(EmptyString, Some "#c"%string); (EmptyString, Some "a | X | c"%string)]]
  /\ Topic.outbox (snd (Topic.edit_callback (Topic.ERemove 5) "#c" "a | b | c" Topic.started))
    = [reply "There are only 3 topic parts. Remember indexes start at 0"].
Proof. repeat split; reflexivity. Qed.

Lemma topic_edit_positions_witness :
  Topic.edit_callback (Topic.EReplace 5 "x") "#c" "a | b | c" Topic.started
    = (Py.Ok tt, Topic.set_outbox [reply "There are only 3 topic parts. Remember indexes start at 0"] Topic.started)
  /\ Topic.edit_callback (Topic.ERemove (-4)) "#c" "a | b | c" Topic.started
    = (Py.Ok tt, Topic.set_outbox [reply "There are only 3 topic parts. Remember indexes start at 0"] Topic.started).
Proof.
  pose proof (topic_edit_positions "#c" "a | b | c" "x" 5 Topic.started) as [H5 _].
  pose proof (topic_edit_positions "#c" "a | b | c" "x" (-4) Topic.started) as [H4 _].
  simpl in H5, H4.
  split.
  - apply H5. right. lia.
  - apply H4. left. lia.
Defined.

(** ** IRCAdmin: stop, reload and the other commands *)

Section AdminMore.
Context {W : World}.
Import Py Admin.
Local Open Scope py_scope.

Ltac mrun :=
  unfold issue, kick, config_save, drop_key, callLater, time_time, event_reply,
    transport_send_event, yield_request, await, local_var;
  unfold bind, get, modify, ret, raise, try_except; simpl.

Ltac mcbn :=
  unfold issue, kick, config_save, drop_key, callLater, time_time, event_reply,
    transport_send_event, yield_request, await, local_var;
  unfold bind, get, modify, ret, raise, try_except;
  cbn -[scheduled _set_timer String.append str_of_nat].

Lemma cancel_all hs : forall s,
  NoDup hs ->
  (forall h, h ∈ hs -> exists dc, reactor s !! h = Some dc /\ dc_status dc = Pending) ->
  exists r',
    for_each hs timer_cancel s = (Ok tt, set_reactor r' s)
    /\ forall h, r' !! h = if decide (h ∈ hs) then with_status Cancelled <$> reactor s !! h
                           else reactor s !! h.
Proof.
  induction hs as [|h hs IH]; intros s Hnd Hp.
  - exists (reactor s). split; [by destruct s|]. intros h. by rewrite decide_False by apply not_elem_of_nil.
  - apply NoDup_cons in Hnd as [Hni Hnd].
    destruct (Hp h ltac:(left)) as (dc & Hdc & Hst).
    set (s1 := set_reactor (<[h := with_status Cancelled dc]> (reactor s)) s).
    assert (E1 : timer_cancel h s = (Ok tt, s1)).
    { unfold timer_cancel. by rewrite Hdc, Hst. }
    destruct (IH s1 Hnd) as (r' & E & Hr).
    { intros h' Hin. destruct (Hp h' ltac:(by right)) as (dc' & Hdc' & Hst').
      exists dc'. split; [|done]. unfold s1. simpl.
      rewrite list_lookup_insert_ne; [done|]. intros ->. done. }
    exists r'. cbn [for_each]. unfold bind at 1. rewrite E1, E. split; [reflexivity|].
    intros h'. rewrite Hr. unfold s1. simpl.
    destruct (decide (h' ∈ hs)) as [Hin|Hin].
    + rewrite decide_True by by right.
      rewrite list_lookup_insert_ne; [done|]. intros ->. done.
    + destruct (decide (h' = h)) as [->|Hne].
      * rewrite decide_True by left.
        rewrite list_lookup_insert_eq by by eapply lookup_lt_Some. by rewrite Hdc.
      * rewrite decide_False by (rewrite not_elem_of_cons; done).
        by rewrite list_lookup_insert_ne.
Qed.

Lemma map_fmap {A B} (f : A -> B) (l : list A) : map f l = f <$> l.
Proof. induction l as [|x l IH]; simpl; [done|by rewrite IH]. Qed.

Lemma table_handles s :
  Consistent s ->
  let hs := map snd (map_to_list (later_timers s)) in
  NoDup hs
  /\ (forall h, h ∈ hs <-> exists k, later_timers s !! k = Some h)
  /\ (forall h, h ∈ hs -> exists dc, reactor s !! h = Some dc /\ dc_status dc = Pending).
Proof.
  intros C hs. unfold hs. rewrite map_fmap.
  assert (Hin : forall h, h ∈ (map_to_list (later_timers s)).*2
                          <-> exists k, later_timers s !! k = Some h).
  { intros h. rewrite list_elem_of_fmap. split.
    - intros ([k h'] & -> & Hkh). apply elem_of_map_to_list in Hkh. by exists k.
    - intros [k Hk]. exists (k, h). split; [done|]. by apply elem_of_map_to_list. }
  split_and!; [|exact Hin|].
  - apply NoDup_fmap_2_strong; [|apply NoDup_map_to_list].
    intros [k1 h1] [k2 h2] H1 H2. simpl. intros <-.
    apply elem_of_map_to_list in H1, H2.
    destruct (inv_table s C k1 h1 H1) as (dc1 & Hd1 & Hk1 & _).
    destruct (inv_table s C k2 h1 H2) as (dc2 & Hd2 & Hk2 & _).
    f_equal. congruence.
  - intros h [k Hk]%Hin. destruct (inv_table s C k h Hk) as (dc & ? & _ & ?). by exists dc.
Qed.

(** The state [stop] leaves: only the reactor differs, every delayed call
    the table holds is cancelled. *)
Lemma stop_spec s :
  Consistent s ->
  exists r',
    stop s = (Ok tt, set_reactor r' s)
    /\ length r' = length (reactor s)
    /\ (forall h dc', r' !! h = Some dc' ->
          dc_status dc' <> Pending
          /\ exists dc, reactor s !! h = Some dc /\ dc_key dc' = dc_key dc
                        /\ dc_delay dc' = dc_delay dc)
    /\ (forall k h, later_timers s !! k = Some h ->
          exists dc, r' !! h = Some (with_status Cancelled dc)).
Proof.
  intros C. destruct (table_handles s C) as (Hnd & Hin & Hp).
  destruct (cancel_all _ s Hnd Hp) as (r' & E & Hr).
  exists r'. unfold stop. unfold bind, get. rewrite E. split; [reflexivity|].
  split_and!.
  - apply Nat.le_antisymm; apply Nat.nlt_ge; intros Hlt.
    + assert (Hs : is_Some (r' !! length (reactor s))) by (apply lookup_lt_is_Some; lia).
      rewrite Hr in Hs. rewrite (lookup_ge_None_2 (reactor s)) in Hs by lia.
      case_decide; by destruct Hs.
    + assert (Hs : r' !! length r' = None) by by apply lookup_ge_None_2.
      rewrite Hr in Hs. apply lookup_lt_is_Some in Hlt as [dc Hdc].
      rewrite Hdc in Hs. by case_decide.
  - intros h dc'. rewrite Hr. case_decide as Hh.
    + destruct (reactor s !! h) as [dc|] eqn:Hdc; [|done]. simpl. intros [= <-].
      split; [done|]. by exists dc.
    + intros Hdc. split; [|by exists dc'].
      intros Hst. apply Hh, Hin. exists (dc_key dc'). by apply (inv_pending s C).
  - intros k h Hk. destruct (inv_table s C k h Hk) as (dc & Hdc & _).
    exists dc. rewrite Hr, decide_True by (apply Hin; by exists k). by rewrite Hdc.
Qed.

(** X1. In any state of a run, [stop] returns without an exception, leaves
    no delayed call pending, and changes neither the timer table nor the
    persisted list nor the file. *)
Theorem stop_cancels_every_timer (file : option (list Later)) (dt : option Z)
    (ops : list Op) :
  let s := run ops (booted file dt) in
  exists s',
    stop s = (Ok tt, s')
    /\ (forall k, live_timers k s' = [])
    /\ (forall h dc, reactor s' !! h = Some dc -> dc_status dc <> Pending)
    /\ later_timers s' = later_timers s
    /\ laters s' = laters s
    /\ jsonfile s' = jsonfile s.
Proof.
  intros s. pose proof (Inv_reachable file dt ops) as I. fold s in I.
  destruct (stop_spec s (inv_consistent s I)) as (r' & E & _ & Hst & _).
  exists (set_reactor r' s). split_and!; try done.
  - intros k. unfold live_timers. simpl. apply filter_none.
    intros dc Hin [_ Hp]. apply list_elem_of_lookup in Hin as [h Hh].
    by destruct (Hst h dc Hh).
  - intros h dc Hh. by destruct (Hst h dc Hh).
Qed.

Lemma started_exec o s : Inv s -> started (snd (exec o s)) = started s.
Proof.
  intros I. pose proof (inv_consistent s I) as C.
  destruct o as [delay param channel mode|event|timer]; simpl.
  - rewrite _set_timer_scheduled; [done|].
    intros h Hh. destruct (inv_table s C _ _ Hh) as (dc & ? & _ & ?). by exists dc.
  - destruct (later_timers s !! (ev_arg event, ev_channel event, mode_of event)) as [h|] eqn:E.
    + by rewrite (mode_change_removed event s h C E).
    + by rewrite (mode_change_noop event s E).
  - destruct (reactor s !! timer) as [dc|] eqn:Hdc; [|by unfold reactor_fire; rewrite Hdc].
    destruct (decide (dc_status dc = Pending)) as [Hp|Hp].
    + pose proof (inv_pending s C timer dc Hdc Hp) as Hk.
      pose proof (reactor_fire_removed timer dc s Hdc Hp Hk) as H.
      destruct (dc_key dc) as [[param channel] mode].
      by destruct H as (r & rest & -> & _).
    + unfold reactor_fire. rewrite Hdc. by destruct (dc_status dc).
Qed.

Lemma started_reachable file dt ops : started (run ops (booted file dt)) = true.
Proof.
  assert (Hb : started (booted file dt) = true /\ Inv (booted file dt)).
  { destruct (booted_spec file dt) as (s' & E & <- & I & _). split; [|done].
    destruct (resync_loop (default [] file) (boot_state file dt) (Consistent_boot_state file dt))
      as (s2 & E2 & _ & _ & _ & _ & _ & _ & _ & Hst & _).
    rewrite start_eq, E2 in E. injection E as <-. exact Hst. }
  destruct Hb as [Hb I]. revert Hb I. generalize (booted file dt).
  induction ops as [|o ops IH]; intros s Hs I; [done|].
  simpl. apply IH; [by rewrite started_exec|by apply Inv_exec].
Qed.

(** X2. In any state of a run that still has a persisted item, [reload]
    ends in [AlreadyCancelled]: [_set_all_timers] has cancelled every
    delayed call but left them in [later_timers], and the first [_set_timer]
    cancels one of them again. Afterwards no delayed call is pending, while
    the persisted list and the file still hold every item. *)
Theorem reload_with_pending_requests_raises (file : option (list Later)) (dt : option Z)
    (ops : list Op) :
  let s := run ops (booted file dt) in
  laters s <> [] ->
  exists s',
    reload s = (Raise AlreadyCancelled, s')
    /\ (forall k, live_timers k s' = [])
    /\ laters s' = laters s
    /\ jsonfile s' = jsonfile s.
Proof.
  intros s Hne. pose proof (Inv_reachable file dt ops) as I. fold s in I.
  pose proof (inv_consistent s I) as C.
  pose proof (started_reachable file dt ops) as Hst. fold s in Hst.
  destruct (stop_spec s C) as (r' & E & _ & Hnp & Hcan).
  destruct (laters s) as [|item rest] eqn:El; [done|]. clear Hne.
  set (k := later_key item).
  assert (Hk : is_Some (later_timers s !! k)).
  { apply (inv_keys s I). rewrite El, fmap_cons. left. }
  destruct Hk as [h Hk]. destruct (Hcan k h Hk) as (dc & Hh).
  assert (Es : set_laters (default [] (jsonfile s)) s = s).
  { rewrite (inv_saved s I). by destruct s. }
  exists (set_later_timers (delete k (later_timers s))
            (set_clock (S (clock s)) (set_reactor r' s))).
  split_and!.
  - unfold reload. unfold bind at 1, modify. rewrite Es.
    unfold bind at 1, get. rewrite Hst.
    unfold _set_all_timers. unfold bind at 1, get. unfold bind at 1.
    unfold stop, bind, get in E. rewrite E.
    unfold bind at 1, get. simpl laters. rewrite El. cbn [for_each].
    unfold bind at 1. unfold bind at 1, time_time. simpl.
    unfold _set_timer. unfold bind at 1, get. unfold bind at 1. simpl.
    fold (later_key item). fold k. rewrite Hk.
    unfold bind at 1, modify. unfold timer_cancel. simpl. rewrite Hh. reflexivity.
  - intros k'. unfold live_timers. simpl. apply filter_none.
    intros dc' Hin [_ Hp]. apply list_elem_of_lookup in Hin as [h' Hh'].
    by destruct (Hnp h' dc' Hh').
  - simpl. by rewrite El.
  - reflexivity.
Qed.

(** *** Timed bans and quiets *)

Lemma Consistent_set_outbox o s : Consistent s -> Consistent (set_outbox o s).
Proof. intros []. by constructor. Qed.

Lemma pending_of_consistent s k :
  Consistent s ->
  forall h, later_timers s !! k = Some h ->
    exists dc, reactor s !! h = Some dc /\ dc_status dc = Pending.
Proof. intros C h Hh. destruct (inv_table s C _ _ Hh) as (dc & ? & _ & ?). by exists dc. Qed.

Lemma _do_moderequest_eq channel letter name hostmask duration s :
  In (letter, name) [("b", "ban"); ("q", "quiet")]%string ->
  let args := [("channel", Some channel); ("target", Some hostmask)]%string in
  let s1 := set_outbox (outbox s ++ [issue_request ("ircop." +:+ name) args]) s in
  let req := transport_answer ("ircop." +:+ name) args in
  _do_moderequest channel letter hostmask duration s
  = match req, duration with
    | Ok _, Some d =>
        if truthy_num duration then
          match _set_timer d (Some hostmask) channel ("-" +:+ letter) s1 with
          | (Ok _, s') => (Ok req, s')
          | (Raise e, s') => (Ok (Raise e), s')
          end
        else (Ok req, s1)
    | _, _ => (Ok req, s1)
    end.
Proof.
  intros Hin args s1 req.
  destruct Hin as [[= <- <-]|[[= <- <-]|[]]]; unfold _do_moderequest; simpl dict_get;
    unfold bind, ret, modify, try_except; fold args; fold s1; fold req;
    (destruct req as [[]|e]; [|by destruct duration]);
    (destruct duration as [d|]; [|reflexivity]);
    (destruct (truthy_num (Some d)); [|reflexivity]);
    by destruct (_set_timer _ _ _ _ s1) as [[[]|e] s'].
Qed.

Lemma _do_moderequest_spec channel letter name hostmask duration s :
  In (letter, name) [("b", "ban"); ("q", "quiet")]%string ->
  Consistent s ->
  let args := [("channel", Some channel); ("target", Some hostmask)]%string in
  let s1 := set_outbox (outbox s ++ [issue_request ("ircop." +:+ name) args]) s in
  _do_moderequest channel letter hostmask duration s
  = match transport_answer ("ircop." +:+ name) args, duration with
    | Ok _, Some d =>
        if truthy_num duration
        then (Ok (Ok tt), scheduled d (Some hostmask, channel, "-" +:+ letter)%string s1)
        else (Ok (Ok tt), s1)
    | Ok _, None => (Ok (Ok tt), s1)
    | Raise e, _ => (Ok (Raise e), s1)
    end.
Proof.
  intros Hin C args s1.
  assert (C1 : Consistent s1) by by apply Consistent_set_outbox.
  rewrite (_do_moderequest_eq channel letter name hostmask duration s Hin).
  fold args. fold s1.
  destruct (transport_answer _ args) as [[]|e]; [|by destruct duration].
  destruct duration as [d|]; [|reflexivity].
  destruct (truthy_num (Some d)); [|reflexivity].
  rewrite _set_timer_scheduled by by apply pending_of_consistent. reflexivity.
Qed.

(** X3. [_do_moderequest] in any state of a run, for the ban and the quiet
    request: the request is always issued; when it fails nothing is booked
    (only the outbox differs) and the failure is what the deferred carries;
    when it succeeds with no duration, or duration 0, nothing is booked
    either; when it succeeds with another duration [d], exactly one delayed
    call is pending for [(hostmask, channel, "-"+letter)], with delay
    [max(1, d)], and one item [now + d] is persisted for it. *)
Theorem moderequest_books_reversal_on_success (file : option (list Later)) (dt : option Z)
    (ops : list Op) (channel letter name hostmask : string) (duration : option Z) :
  let s := run ops (booted file dt) in
  let args := [("channel", Some channel); ("target", Some hostmask)]%string in
  let s1 := set_outbox (outbox s ++ [issue_request ("ircop." +:+ name) args]) s in
  let k := (Some hostmask, channel, "-" +:+ letter)%string in
  In (letter, name) [("b", "ban"); ("q", "quiet")]%string ->
  (forall e, transport_answer ("ircop." +:+ name) args = Raise e ->
     _do_moderequest channel letter hostmask duration s = (Ok (Raise e), s1))
  /\ (transport_answer ("ircop." +:+ name) args = Ok tt ->
      truthy_num duration = false ->
      _do_moderequest channel letter hostmask duration s = (Ok (Ok tt), s1))
  /\ (forall d, transport_answer ("ircop." +:+ name) args = Ok tt ->
      duration = Some d -> d <> 0%Z ->
      exists s2,
        _do_moderequest channel letter hostmask duration s = (Ok (Ok tt), s2)
        /\ outbox s2 = outbox s1
        /\ live_timers k s2 = [mkCall (Z.max 1 d) k Pending]
        /\ persisted k s2 = [mkLater (time_at (clock s) + d) (Some hostmask) channel ("-" +:+ letter)]
        /\ jsonfile s2 = Some (laters s2)).
Proof.
  intros s args s1 k Hin. pose proof (Inv_reachable file dt ops) as I. fold s in I.
  pose proof (inv_consistent s I) as C.
  pose proof (_do_moderequest_spec channel letter name hostmask duration s Hin C) as E.
  cbv zeta in E. fold args in E. fold s1 in E. fold k in E.
  split_and!.
  - intros e Ha. rewrite E, Ha. reflexivity.
  - intros Ha Hd. rewrite E, Ha. destruct duration; [by rewrite Hd|done].
  - intros d Ha -> Hd. rewrite Ha in E. cbn [truthy_num] in E.
    assert (Hz : negb (d =? 0)%Z = true) by (apply negb_true_iff, Z.eqb_neq; done).
    rewrite Hz in E. exists (scheduled d k s1). split; [exact E|].
    assert (C2 : Consistent (scheduled d k s1))
      by by apply Consistent_scheduled, Consistent_set_outbox.
    destruct (scheduled_new_call d k s1) as [Hr Hl].
    split_and!; try done.
    + rewrite (live_timers_table k _ C2), Hl, Hr. reflexivity.
    + change (clock s) with (clock s1). apply persisted_scheduled_same.
Qed.

(** X4. The reversal booked by a timed ban or quiet undoes that very
    request: when the delayed call runs, the first thing [do_later] issues
    is [ircop.unban] (for a ban) or [ircop.unquiet] (for a quiet) with the
    same channel and the same hostmask as target, which is the request
    [_do_modederequest] issues at once when it is given no delay; afterwards
    nothing is pending or persisted for the key. *)
Theorem timed_request_is_reversed (file : option (list Later)) (dt : option Z)
    (ops : list Op) (channel letter name hostmask : string) (d : Z) :
  let s := run ops (booted file dt) in
  let args := [("channel", Some channel); ("target", Some hostmask)]%string in
  let k := (Some hostmask, channel, "-" +:+ letter)%string in
  In (letter, name) [("b", "ban"); ("q", "quiet")]%string ->
  transport_answer ("ircop." +:+ name) args = Ok tt ->
  d <> 0%Z ->
  exists s2 h r rest s3 s4,
    _do_moderequest channel letter hostmask (Some d) s = (Ok (Ok tt), s2)
    /\ later_timers s2 !! k = Some h
    /\ reactor_fire h s2 = (r, s3)
    /\ outbox s3 = outbox s2 ++ issue_request ("ircop.un" +:+ name) args :: rest
    /\ live_timers k s3 = []
    /\ persisted k s3 = []
    /\ _do_modederequest channel letter hostmask None s
       = (Ok (transport_answer ("ircop.un" +:+ name) args), s4)
    /\ outbox s4 = outbox s ++ [issue_request ("ircop.un" +:+ name) args]
    /\ later_timers s4 = later_timers s /\ reactor s4 = reactor s /\ laters s4 = laters s.
Proof.
  intros s args k Hin Ha Hd. pose proof (Inv_reachable file dt ops) as I. fold s in I.
  pose proof (inv_consistent s I) as C.
  pose proof (_do_moderequest_spec channel letter name hostmask (Some d) s Hin C) as E.
  cbv zeta in E. fold args in E. fold k in E. rewrite Ha in E. cbn [truthy_num] in E.
  assert (Hz : negb (d =? 0)%Z = true) by (apply negb_true_iff, Z.eqb_neq; done).
  rewrite Hz in E.
  set (s1 := set_outbox _ s) in E. set (s2 := scheduled d k s1) in E.
  assert (C2 : Consistent s2) by by apply Consistent_scheduled, Consistent_set_outbox.
  destruct (scheduled_new_call d k s1) as [Hr Hl]. fold s2 in Hr, Hl.
  pose proof (reactor_fire_removed _ _ s2 Hr eq_refl Hl) as Hf.
  cbn [dc_key k] in Hf. destruct Hf as (r & rest & Ef & _).
  assert (C3 : Consistent (removed Called k (length (reactor s1)) s2))
    by by apply Consistent_removed.
  assert (Hreq : fire_request (Some hostmask) channel ("-" +:+ letter)
                 = issue_request ("ircop.un" +:+ name) args).
  { by destruct Hin as [[= <- <-]|[[= <- <-]|[]]]. }
  rewrite Hreq in Ef.
  eexists s2, _, r, rest, _, _. split_and!; [exact E|exact Hl|exact Ef|reflexivity| | | |..].
  - pose proof (live_timers_table k _ C3) as Hlt. simpl in Hlt.
    rewrite lookup_delete_eq in Hlt. exact Hlt.
  - unfold persisted. simpl. rewrite list_filter_filter.
    apply filter_none. intros x _ [? ?]. done.
  - destruct Hin as [[= <- <-]|[[= <- <-]|[]]]; reflexivity.
  - destruct Hin as [[= <- <-]|[[= <- <-]|[]]]; reflexivity.
  - done.
  - done.
  - done.
Qed.

(** *** The chat commands keep the invariant of the timed requests *)

Lemma Inv_set_clock n s : Inv s -> Inv (set_clock n s).
Proof. intros [[] ? ? ?]. by constructor; [constructor|..]. Qed.

Lemma keeps_ret {A} (a : A) : keeps (ret a).
Proof. by intros s I. Qed.

Lemma keeps_raise {A} e : keeps (A:=A) (raise e).
Proof. by intros s I. Qed.

Lemma keeps_get : keeps get.
Proof. by intros s I. Qed.

Lemma keeps_bind {A B} (m : M A) (f : A -> M B) :
  keeps m -> (forall a, keeps (f a)) -> keeps (bind m f).
Proof.
  intros Hm Hf s I. unfold bind. specialize (Hm s I).
  destruct (m s) as [[a|e] s']; [by apply Hf|done].
Qed.

Lemma keeps_try_except {A} (m : M A) (h : Exc -> M A) :
  keeps m -> (forall e, keeps (h e)) -> keeps (try_except m h).
Proof.
  intros Hm Hh s I. unfold try_except. specialize (Hm s I).
  destruct (m s) as [[a|e] s']; [done|by apply Hh].
Qed.

Lemma keeps_outbox (f : IRCAdmin -> list Action) :
  keeps (modify (fun s => set_outbox (f s) s)).
Proof. intros s I. by apply Inv_set_outbox. Qed.

Lemma keeps_event_reply msg : keeps (event_reply msg).
Proof. apply keeps_outbox. Qed.

Lemma keeps_issue name args : keeps (issue name args).
Proof. apply keeps_bind; [apply keeps_outbox|intros _; apply keeps_ret]. Qed.

Lemma keeps_await d : keeps (await d).
Proof. destruct d; [apply keeps_ret|apply keeps_raise]. Qed.

Lemma keeps_yield_request name args : keeps (yield_request name args).
Proof.
  apply keeps_bind; [apply keeps_outbox|intros _].
  destruct (transport_answer name args); [apply keeps_ret|apply keeps_raise].
Qed.

Lemma keeps_time_time : keeps time_time.
Proof. intros s I. by apply Inv_set_clock. Qed.

Lemma keeps_parse_time timestr : keeps (parse_time timestr).
Proof.
  unfold parse_time. destruct (calendar_parse timestr); [|apply keeps_raise].
  apply keeps_bind; [apply keeps_time_time|intros now; apply keeps_ret].
Qed.

Lemma keeps__set_timer delay param channel modestr :
  keeps (_set_timer delay param channel modestr).
Proof.
  intros s I. rewrite _set_timer_scheduled.
  - by apply Inv_scheduled.
  - by apply pending_of_consistent, I.
Qed.

Lemma keeps__nick_to_hostmask nick : keeps (_nick_to_hostmask nick).
Proof.
  unfold _nick_to_hostmask. destruct (_ || _); [apply keeps_ret|].
  apply keeps_bind; [apply keeps_outbox|intros _].
  destruct (whois nick) as [[[n username] host]|e]; [|apply keeps_raise].
  repeat (destruct (startswith _ host); [apply keeps_ret|]). apply keeps_ret.
Qed.

Lemma keeps_map_m {A B} (f : A -> M B) (l : list A) :
  (forall x, keeps (f x)) -> keeps (map_m f l).
Proof.
  intros Hf. induction l as [|x l IH]; [apply keeps_ret|].
  simpl. apply keeps_bind; [apply Hf|intros y].
  apply keeps_bind; [apply IH|intros ys; apply keeps_ret].
Qed.

Lemma keeps_for_each {A} (l : list A) (body : A -> M unit) :
  (forall x, keeps (body x)) -> keeps (for_each l body).
Proof.
  intros Hb. induction l as [|x l IH]; [apply keeps_ret|].
  simpl. apply keeps_bind; [apply Hb|intros _; apply IH].
Qed.

Ltac keeps_step :=
  first
    [ apply keeps_ret | apply keeps_raise | apply keeps_get
    | apply keeps_event_reply | apply keeps_issue | apply keeps_await
    | apply keeps_yield_request | apply keeps_time_time | apply keeps_parse_time
    | apply keeps__set_timer | apply keeps__nick_to_hostmask | apply keeps_outbox
    | apply keeps_bind; [|intros ?] | apply keeps_try_except; [|intros ?]
    | apply keeps_map_m; intros ? | apply keeps_for_each; intros ?
    | match goal with
      | |- keeps (match ?x with _ => _ end) => destruct x
      | |- keeps (if ?b then _ else _) => destruct b
      end ].

Ltac keeps_all := repeat keeps_step.

Lemma keeps__do_moderequest channel modestr hostmask duration :
  keeps (_do_moderequest channel modestr hostmask duration).
Proof. unfold _do_moderequest. keeps_all. Qed.

Lemma keeps__do_modederequest channel modestr hostmask delay :
  keeps (_do_modederequest channel modestr hostmask delay).
Proof. unfold _do_modederequest. keeps_all. Qed.

Lemma keeps_fan_out request user channel nicks :
  keeps (fan_out request user channel nicks).
Proof. unfold fan_out. keeps_all. Qed.

Lemma keeps_quiet channel target timestr : keeps (quiet channel target timestr).
Proof.
  unfold quiet, quiet_body.
  repeat first [apply keeps__do_moderequest | keeps_step].
Qed.

Lemma keeps_ban user channel target timestr : keeps (ban user channel target timestr).
Proof.
  unfold ban, local_var.
  repeat first [apply keeps__do_moderequest | keeps_step].
Qed.

Lemma keeps_redirect channel nick destchan : keeps (redirect channel nick destchan).
Proof.
  unfold redirect.
  repeat first [apply keeps__do_moderequest | keeps_step].
Qed.

Lemma keeps_un_command modestr nosuchnick channel target timestr :
  keeps (un_command modestr nosuchnick channel target timestr).
Proof.
  unfold un_command.
  repeat first [apply keeps__do_modederequest | keeps_step].
Qed.

Lemma keeps_mode channel modestr param timespec :
  keeps (mode channel modestr param timespec).
Proof. unfold mode. keeps_all. Qed.

Lemma keeps_timedquiet channel target duration :
  keeps (on_request_ircadmin_timedquiet channel target duration).
Proof.
  unfold on_request_ircadmin_timedquiet.
  repeat first [apply keeps__do_moderequest | keeps_step].
Qed.

Lemma keeps_command c : keeps (command c).
Proof.
  destruct c; simpl.
  - unfold kick. keeps_all.
  - apply keeps_fan_out.
  - apply keeps_fan_out.
  - apply keeps_fan_out.
  - apply keeps_fan_out.
  - apply keeps_quiet.
  - apply keeps_ban.
  - apply keeps_redirect.
  - apply keeps_un_command.
  - apply keeps_un_command.
  - apply keeps_mode.
  - apply keeps_timedquiet.
Qed.

Lemma Inv_session inputs : forall s, Inv s -> Inv (session inputs s).
Proof.
  induction inputs as [|i inputs IH]; intros s I; [done|].
  simpl. apply IH. destruct i as [o|c]; [by apply Inv_exec|by apply keeps_command].
Qed.

(** X5. The invariant of the timed requests holds in every state of a
    session, in which chat commands and the timed-quiet request mix with
    mode-change events, delayed calls that run and direct [_set_timer]
    calls: the keys of [later_timers] are the keys of [config['laters']],
    no key has two items, the file holds the list, and the table maps each
    key to the only pending delayed call of that key, whose delay is at
    least 1. *)
Theorem session_keeps_timers_in_step (file : option (list Later)) (dt : option Z)
    (inputs : list Input) :
  let s := session inputs (booted file dt) in
  (forall k, is_Some (later_timers s !! k)
             <-> exists item, item ∈ laters s /\ later_key item = k)
  /\ NoDup (later_key <$> laters s)
  /\ default [] (jsonfile s) = laters s
  /\ (forall k h, later_timers s !! k = Some h ->
        exists dc, reactor s !! h = Some dc /\ live_timers k s = [dc]
                   /\ dc_key dc = k /\ dc_status dc = Pending /\ (1 <= dc_delay dc)%Z)
  /\ (forall k, later_timers s !! k = None -> live_timers k s = []).
Proof.
  intros s.
  assert (I : Inv s).
  { apply Inv_session. destruct (booted_spec file dt) as (s' & _ & -> & I & _). exact I. }
  pose proof (inv_consistent s I) as C.
  split_and!.
  - intros k. rewrite (inv_keys s I), list_elem_of_fmap. split.
    + intros (item & -> & Hin). by exists item.
    + intros (item & Hin & <-). by exists item.
  - apply (inv_nodup s I).
  - apply (inv_saved s I).
  - intros k h Hk. destruct (inv_table s C k h Hk) as (dc & Hdc & Hkey & Hp).
    exists dc. split_and!; try done.
    + by rewrite (live_timers_table k s C), Hk, Hdc.
    + by apply (inv_delay s C h).
  - intros k Hk. by rewrite (live_timers_table k s C), Hk.
Qed.

(** *** Hostmasks *)

Lemma contains_app c a b : contains c (a +:+ b) = contains c a || contains c b.
Proof.
  induction a as [|d a IH]; [done|]. simpl. by destruct (Ascii.eqb d c).
Qed.

(** X6. What [_nick_to_hostmask] returns is a mask already: given its own
    result it returns it again, without a whois and without changing the
    state. *)
Theorem nick_to_hostmask_stable (nick h : string) (s s' : IRCAdmin) :
  _nick_to_hostmask nick s = (Ok h, s') ->
  _nick_to_hostmask h s' = (Ok h, s').
Proof.
  unfold _nick_to_hostmask.
  destruct ((contains "!" nick && contains "@" nick) || startswith "$" nick) eqn:E.
  - intros [= <- <-]. by rewrite E.
  - unfold bind, modify, ret, raise.
    destruct (whois nick) as [[[n username] host]|e]; [|discriminate].
    destruct (startswith "gateway/web/freenode/ip." host);
      [|destruct (startswith "gateway/" host)]; intros [= <- <-].
    all: match goal with
         | |- context [contains "!" ?m] =>
             assert (Hc : (contains "!" m && contains "@" m) || startswith "$" m = true);
             [|by rewrite Hc]
         end.
    all: cbn [String.append contains Ascii.eqb Bool.eqb]; rewrite ?contains_app;
      cbn [contains Ascii.eqb Bool.eqb]; by rewrite ?orb_true_r.
Qed.

(** *** [ban] on a target that is no nick *)

(** X7. [ban] on a target that is neither a full mask nor a plain nick (it
    holds a [$], or only one of [!] and [@]) assigns no [hostmask]: the
    command ends in [UnboundLocalError] before any request or reply, with
    no timer booked. *)
Theorem ban_extban_unbound_hostmask (user channel target : string)
    (timestr : option string) (s : IRCAdmin) :
  contains "$" target = true \/ contains "@" target <> contains "!" target ->
  exists s',
    ban user channel target timestr s = (Raise (UnboundLocalError "hostmask"), s')
    /\ outbox s' = outbox s
    /\ reactor s' = reactor s
    /\ later_timers s' = later_timers s
    /\ laters s' = laters s
    /\ jsonfile s' = jsonfile s.
Proof.
  intros H. unfold ban.
  assert (E1 : contains "@" target && contains "!" target && negb (contains "$" target) = false).
  { destruct H as [->|H]; [by rewrite andb_false_r|].
    destruct (contains "@" target), (contains "!" target); done. }
  assert (E2 : negb (contains "@" target) && negb (contains "!" target)
               && negb (contains "$" target) = false).
  { destruct H as [->|H]; [by rewrite andb_false_r|].
    destruct (contains "@" target), (contains "!" target); done. }
  rewrite E1, E2.
  destruct timestr as [[|c r]|]; unfold parse_time;
    [|destruct (calendar_parse (String c r))|]; mrun; by eexists.
Qed.

(** X8. [ban] on a full mask whose nick part holds a wildcard issues the
    ban and no kick, so [kick_d] is never assigned. This holds for every
    time string and every default time, in any state of a run: the duration
    is the parsed time when the time string parses, else the default time
    when there is one. When the ban request succeeds the reversal is booked
    for that duration (none without a duration) and then the command ends in
    [UnboundLocalError]; when the request fails with [OpFailed] nothing is
    booked, the message is replied and the command returns; another failure
    of the request ends the command. *)
Theorem ban_wildcard_mask_unbound_kick (file : option (list Later)) (dt : option Z)
    (ops : list Op) (user channel target : string) (timestr : option string) :
  let s := run ops (booted file dt) in
  let parsed := match timestr with
                | Some (String c r) => calendar_parse (String c r)
                | _ => None
                end in
  let s0 := match parsed with
            | Some _ => set_clock (S (clock s)) s
            | None => s
            end in
  let duration := match parsed with
                  | Some ts => Some (Z.max 1 (ts - time_at (clock s)))
                  | None => if truthy_num (defaulttime s) then defaulttime s else None
                  end in
  let args := [("channel", Some channel); ("target", Some target)]%string in
  let s1 := set_outbox (outbox s0 ++ [issue_request "ircop.ban" args]) s0 in
  let k := (Some target, channel, "-b")%string in
  contains "@" target = true -> contains "!" target = true ->
  contains "$" target = false ->
  contains "*" (default EmptyString (head (split "!" target))) = true ->
  (transport_answer "ircop.ban" args = Ok tt ->
     ban user channel target timestr s
     = (Raise (UnboundLocalError "kick_d"),
        match duration with
        | Some d => scheduled d k s1
        | None => s1
        end))
  /\ (forall d, duration = Some d ->
      d <> 0%Z
      /\ outbox (scheduled d k s1) = outbox s1
      /\ live_timers k (scheduled d k s1) = [mkCall (Z.max 1 d) k Pending]
      /\ persisted k (scheduled d k s1)
         = [mkLater (time_at (clock s0) + d) (Some target) channel "-b"])
  /\ (forall msg, transport_answer "ircop.ban" args = Raise (OpFailed msg) ->
     ban user channel target timestr s
     = (Ok tt, set_outbox (outbox s1 ++ [reply msg]) s1))
  /\ (forall e, transport_answer "ircop.ban" args = Raise e ->
     (forall msg, e <> OpFailed msg) ->
     ban user channel target timestr s = (Raise e, s1)).
Proof.
  intros s parsed s0 duration args s1 k Hat Hbang Hd Hw.
  pose proof (Inv_reachable file dt ops) as I. fold s in I.
  pose proof (inv_consistent s I) as C.
  assert (C0 : Consistent s0).
  { unfold s0. destruct parsed; [by apply Consistent_set_clock|done]. }
  assert (C1 : Consistent s1) by by apply Consistent_set_outbox.
  assert (Hdt : defaulttime s0 = defaulttime s) by (unfold s0; by destruct parsed).
  assert (Htr : forall d, duration = Some d -> truthy_num (Some d) = true).
  { intros d. unfold duration. destruct parsed as [ts|].
    - intros [= <-]. cbn [truthy_num]. apply negb_true_iff, Z.eqb_neq. lia.
    - destruct (truthy_num (defaulttime s)) eqn:Et; [|done]. by intros <-. }
  pose proof (_do_moderequest_spec channel "b" "ban" target duration s0
                ltac:(by left) C0) as E.
  cbv zeta in E. change ("ircop." +:+ "ban") with "ircop.ban" in E.
  change ("-" +:+ "b") with "-b" in E. fold args in E. fold s1 in E. fold k in E.
  assert (Eb : ban user channel target timestr s
               = match _do_moderequest channel "b" target duration s0 with
                 | (Ok (Ok _), s') => (Raise (UnboundLocalError "kick_d"), s')
                 | (Ok (Raise (OpFailed msg)), s') =>
                     (Ok tt, set_outbox (outbox s' ++ [reply msg]) s')
                 | (Ok (Raise e), s') => (Raise e, s')
                 | (Raise e, s') => (Raise e, s')
                 end).
  { unfold ban. rewrite Hat, Hbang, Hd, Hw. cbn [andb negb].
    assert (Hrest : forall reason (du : option Z) (st : IRCAdmin),
              (if negb (truthy_num du) && truthy_num (defaulttime st)
               then defaulttime st else du) = duration -> st = s0 ->
              (let '(reason, duration) := (reason, du) in
               s <- get ;;
               let duration :=
                 if negb (truthy_num duration) && truthy_num (defaulttime s)
                 then defaulttime s else duration in
               locals <- ret (Some (mkBanLocals
                                      (Some (default EmptyString (head (split "!" target))))
                                      (Some target) false)) ;;
               match locals with
               | None => ret tt
               | Some l =>
                   hostmask <- local_var "hostmask" (bl_hostmask l) ;;
                   ban_d <- _do_moderequest channel "b" hostmask duration ;;
                   kick_d <- (if bl_do_kick l then
                                nick <- local_var "nick" (bl_nick l) ;;
                                let args := [("channel", Some channel); ("target", Some nick);
                                             ("reason", Some reason)]%string in
                                modify (fun s => set_outbox (outbox s ++ [issue_request "ircop.kick" args]) s) ;;;
                                ret (Some (transport_answer "ircop.kick" args))
                              else ret None) ;;
                   try_except
                     (await ban_d ;;;
                      match kick_d with
                      | Some d => await d
                      | None => raise (UnboundLocalError "kick_d")
                      end)
                     (fun e => match e with
                               | OpFailed _ => event_reply (exc_str e)
                               | _ => raise e
                               end)
               end) st
              = match _do_moderequest channel "b" target duration s0 with
                | (Ok (Ok _), s') => (Raise (UnboundLocalError "kick_d"), s')
                | (Ok (Raise (OpFailed msg)), s') =>
                    (Ok tt, set_outbox (outbox s' ++ [reply msg]) s')
                | (Ok (Raise e), s') => (Raise e, s')
                | (Raise e, s') => (Raise e, s')
                end).
    { intros reason du st Hdu ->. cbv zeta.
      unfold bind at 1. unfold get at 1. rewrite Hdu.
      unfold bind at 1. unfold ret at 1. cbn [bl_hostmask bl_do_kick].
      unfold bind at 1. unfold local_var at 1, ret at 1.
      unfold bind at 1.
      destruct (_do_moderequest channel "b" target duration s0) as [[[[]|e]|e] s']; [| |done].
      - reflexivity.
      - by destruct e. }
    set (reason0 := ("Banned by " +:+ default EmptyString (head (split "!" user)))%string).
    destruct timestr as [[|c r]|].
    - unfold bind at 1. unfold ret at 1. apply (Hrest reason0 None s); [|done].
      cbn [truthy_num negb andb]. reflexivity.
    - unfold parse_time. unfold parsed, duration, s0 in *.
      destruct (calendar_parse (String c r)) as [ts|].
      + unfold bind at 1. unfold try_except, bind, time_time, ret.
        apply (Hrest reason0 (Some (Z.max 1 (ts - time_at (clock s))))
                 (set_clock (S (clock s)) s)); [|done].
        assert (Hz : truthy_num (Some (Z.max 1 (ts - time_at (clock s)))) = true).
        { cbn [truthy_num]. apply negb_true_iff, Z.eqb_neq. lia. }
        by rewrite Hz.
      + unfold bind at 1. unfold try_except, raise, ret.
        apply (Hrest (String c r) None s); [|done].
        cbn [truthy_num negb andb]. reflexivity.
    - unfold bind at 1. unfold ret at 1. apply (Hrest reason0 None s); [|done].
      cbn [truthy_num negb andb]. reflexivity. }
  split_and!.
  - intros Ha. rewrite Eb, E, Ha.
    destruct duration as [d|] eqn:Ed; [|reflexivity].
    by rewrite (Htr d eq_refl).
  - intros d Ed. pose proof (Htr d Ed) as Ht. cbn [truthy_num] in Ht.
    apply negb_true_iff, Z.eqb_neq in Ht.
    assert (C2 : Consistent (scheduled d k s1)) by by apply Consistent_scheduled.
    destruct (scheduled_new_call d k s1) as [Hr Hl].
    split_and!; try done.
    + rewrite (live_timers_table k _ C2), Hl, Hr. reflexivity.
    + change (clock s0) with (clock s1). apply persisted_scheduled_same.
  - intros msg Ha. rewrite Eb, E, Ha. by destruct duration.
  - intros e Ha Hne. rewrite Eb, E, Ha.
    destruct e; try (by destruct duration). by destruct (Hne msg).
Qed.

(** *** [voice], [devoice], [give_op], [take_op] *)

Lemma map_m_issue request (args : string -> list (string * option string)) l : forall s,
  map_m (fun nick => issue request (args nick)) l s
  = (Ok (map (fun nick => transport_answer request (args nick)) l),
     set_outbox (outbox s ++ map (fun nick => issue_request request (args nick)) l) s).
Proof.
  induction l as [|x l IH]; intros s.
  - simpl. unfold ret. rewrite app_nil_r. by destruct s.
  - cbn [map_m map]. unfold bind at 1. unfold issue at 1. unfold bind at 1, modify, ret.
    unfold bind at 1. rewrite IH. simpl. by rewrite <- app_assoc.
Qed.

Lemma for_each_await ds (s : IRCAdmin) :
  for_each ds await s = match first_error ds with
                        | None => (Ok tt, s)
                        | Some e => (Raise e, s)
                        end.
Proof.
  induction ds as [|[[]|e] ds IH]; [done| |done].
  cbn [for_each first_error]. unfold bind, await at 1, ret. exact IH.
Qed.

(** X9. [voice], [devoice], [give_op] and [take_op] hand every request to
    the transport, one per nick and in order, before any answer is looked
    at; then only the first failure counts: an [OpFailed] is replied once,
    another exception ends the command, and later failures are never
    reported. *)
Theorem fan_out_issues_all_reports_first (request user channel : string)
    (nicks : option string) (s : IRCAdmin) :
  let targets := match nicks with
                 | Some (String c r) => words (String c r)
                 | _ => [nick_of user]
                 end in
  let reqs := map (fun nick => issue_request request
                                 [("channel", Some channel); ("target", Some nick)]%string)
                targets in
  let s1 := set_outbox (outbox s ++ reqs) s in
  fan_out request user channel nicks s
  = match first_error (map answer_of reqs) with
    | None => (Ok tt, s1)
    | Some (OpFailed msg) => (Ok tt, set_outbox (outbox s1 ++ [reply msg]) s1)
    | Some e => (Raise e, s1)
    end.
Proof.
  intros targets reqs s1. unfold fan_out. fold targets.
  unfold bind at 1.
  rewrite (map_m_issue request
             (fun nick => [("channel", Some channel); ("target", Some nick)]%string)).
  fold reqs. fold s1. unfold try_except. rewrite for_each_await.
  unfold reqs. rewrite map_map. cbn [answer_of].
  destruct (first_error _) as [e|]; [|done]. by destruct e.
Qed.

(** *** [unquiet] and [unban] *)

Lemma _nick_to_hostmask_mask target (s : IRCAdmin) :
  contains "!" target = true -> contains "@" target = true ->
  _nick_to_hostmask target s = (Ok target, s).
Proof. intros H1 H2. unfold _nick_to_hostmask. by rewrite H1, H2. Qed.

Lemma _do_modederequest_delay channel letter hostmask d s :
  Consistent s -> d <> 0%Z ->
  _do_modederequest channel letter hostmask (Some d) s
  = (Ok (Ok tt), scheduled d (Some hostmask, channel, "-" +:+ letter)%string s).
Proof.
  intros C Hd. unfold _do_modederequest. cbn [truthy_num].
  assert (Hz : negb (d =? 0)%Z = true) by (apply negb_true_iff, Z.eqb_neq; done).
  rewrite Hz. unfold bind. rewrite _set_timer_scheduled by by apply pending_of_consistent.
  reflexivity.
Qed.

Lemma _do_modederequest_now channel letter name hostmask s :
  In (letter, name) [("b", "unban"); ("q", "unquiet")]%string ->
  let args := [("channel", Some channel); ("target", Some hostmask)]%string in
  _do_modederequest channel letter hostmask None s
  = (Ok (transport_answer ("ircop." +:+ name) args),
     set_outbox (outbox s ++ [issue_request ("ircop." +:+ name) args]) s).
Proof. by intros [[= <- <-]|[[= <- <-]|[]]]. Qed.

(** X10. [unquiet] and [unban] on a full mask, in any state of a run.
    Without a time the request goes out at once and nothing is booked; an
    [OpFailed] is replied. With a time that parses nothing is requested:
    the reversal is booked for the key, persisted and saved, and the reply
    is "It shall be done.". With a time that does not parse the parse error
    is the only effect. *)
Theorem un_command_now_or_later (file : option (list Later)) (dt : option Z)
    (ops : list Op) (letter name nosuchnick channel target : string) :
  let s := run ops (booted file dt) in
  let k := (Some target, channel, "-" +:+ letter)%string in
  let args := [("channel", Some channel); ("target", Some target)]%string in
  let s1 := set_outbox (outbox s ++ [issue_request ("ircop." +:+ name) args]) s in
  In (letter, name) [("b", "unban"); ("q", "unquiet")]%string ->
  contains "!" target = true -> contains "@" target = true ->
  un_command letter nosuchnick channel target None s
    = match transport_answer ("ircop." +:+ name) args with
      | Ok _ => (Ok tt, s1)
      | Raise (OpFailed msg) => (Ok tt, set_outbox (outbox s1 ++ [reply msg]) s1)
      | Raise e => (Raise e, s1)
      end
  /\ (forall c r ts, calendar_parse (String c r) = Some ts ->
      let d := Z.max 1 (ts - time_at (clock s)) in
      exists s',
        un_command letter nosuchnick channel target (Some (String c r)) s = (Ok tt, s')
        /\ outbox s' = outbox s ++ [reply "It shall be done."]
        /\ live_timers k s' = [mkCall d k Pending]
        /\ persisted k s'
           = [mkLater (time_at (S (clock s)) + d) (Some target) channel ("-" +:+ letter)]
        /\ jsonfile s' = Some (laters s'))
  /\ (forall c r, calendar_parse (String c r) = None ->
      un_command letter nosuchnick channel target (Some (String c r)) s
      = (Ok tt, set_outbox
                  (outbox s ++ [reply "I don't understand when you want me to do that"]) s)).
Proof.
  intros s k args s1 Hin H1 H2. pose proof (Inv_reachable file dt ops) as I. fold s in I.
  pose proof (inv_consistent s I) as C.
  split_and!.
  - unfold un_command. unfold bind at 1, ret at 1.
    unfold bind at 1, try_except at 1, bind at 1. rewrite _nick_to_hostmask_mask by done.
    unfold ret at 1. unfold bind at 1, try_except at 1, bind at 1.
    rewrite (_do_modederequest_now channel letter name target s Hin).
    fold args. fold s1. cbn [truthy_num].
    destruct (transport_answer _ args) as [[]|e]; [done|]. by destruct e.
  - intros c r ts Hp d.
    set (s0 := set_clock (S (clock s)) s).
    assert (C0 : Consistent s0) by by apply Consistent_set_clock.
    assert (Hd : d <> 0%Z) by (unfold d; lia).
    exists (set_outbox (outbox s ++ [reply "It shall be done."]) (scheduled d k s0)).
    assert (C2 : Consistent (scheduled d k s0)) by by apply Consistent_scheduled.
    destruct (scheduled_new_call d k s0) as [Hr Hl].
    split_and!.
    + unfold un_command, parse_time. rewrite Hp.
      unfold bind at 1, try_except at 1, bind at 1, bind at 1, time_time, ret at 1, ret at 1.
      fold s0. fold d.
      unfold bind at 1, try_except at 1, bind at 1. rewrite _nick_to_hostmask_mask by done.
      unfold ret at 1. unfold bind at 1, try_except at 1, bind at 1.
      rewrite (_do_modederequest_delay channel letter target d s0 C0 Hd). fold k.
      unfold await, ret at 1. cbn [truthy_num].
      assert (Hz : negb (d =? 0)%Z = true) by (apply negb_true_iff, Z.eqb_neq; done).
      rewrite Hz. reflexivity.
    + unfold k. reflexivity.
    + change (live_timers k (scheduled d k s0) = [mkCall d k Pending]).
      rewrite (live_timers_table k _ C2), Hl, Hr. f_equal. f_equal. unfold d. lia.
    + change (persisted k (scheduled d k s0)
              = [mkLater (time_at (clock s0) + d) (Some target) channel ("-" +:+ letter)]).
      apply persisted_scheduled_same.
    + unfold k. reflexivity.
  - intros c r Hp. unfold un_command, parse_time. rewrite Hp. reflexivity.
Qed.

(** *** [mode] *)

(** X11. [mode] with a time that does not parse never books a timer. The
    parse error is replied and the command goes on: for an "in" or "at"
    time it ends in [UnboundLocalError] at once; otherwise the mode request
    is issued, and when it succeeds the command ends in an exception too
    (from the lookup of the reverse mode, or [UnboundLocalError]); only a
    failed request lets it return. *)
Theorem mode_unparsed_time_never_books (channel modestr : string) (param : option string)
    (c : ascii) (r : string) (s : IRCAdmin) :
  let spec := String c r in
  let err := reply "I don't understand when you want me to do that" in
  let args := [(EmptyString, Some channel); (EmptyString, Some modestr); (EmptyString, param)] in
  let s1 := set_outbox (outbox s ++ [err]) s in
  let s2 := set_outbox (outbox s1 ++ [issue_request "ircop.mode" args]) s1 in
  calendar_parse spec = None ->
  (startswith "in" spec || startswith "at" spec = true ->
     mode channel modestr param (Some spec) s = (Raise (UnboundLocalError "time_to_wait"), s1))
  /\ (startswith "in" spec || startswith "at" spec = false ->
     mode channel modestr param (Some spec) s
     = match transport_answer "ircop.mode" args with
       | Ok _ => (Raise match reversemode modestr with
                        | Ok _ => UnboundLocalError "time_to_wait"
                        | Raise e => e
                        end, s2)
       | Raise (OpFailed msg) | Raise (ValueError msg) =>
           (Ok tt, set_outbox (outbox s2 ++ [reply msg]) s2)
       | Raise e => (Raise e, s2)
       end).
Proof.
  intros spec err args s1 s2 Hp. unfold mode. cbn [truthy_str default from_option id].
  fold spec. unfold parse_time. rewrite Hp. cbn [andb]. split; intros ->.
  - reflexivity.
  - mrun. fold args. fold s1. fold s2.
    destruct (transport_answer "ircop.mode" args) as [[]|e]; simpl.
    + by destruct (reversemode modestr).
    + by destruct e.
Qed.

(** X12. A mode set "for" or "until" a time is undone when the time is up.
    On the mode strings the pattern of the command admits, a sign and one
    letter, [reversemode] gives the other sign with the same letter, and
    reversing that gives the mode back. In any state of a run, when the
    time parses and the mode request succeeds, [mode] books one delayed call
    for the same parameter and the reversed mode; when that call runs, the
    first request [do_later] issues is the one of the reversed mode, and
    nothing stays pending or persisted for the key. *)
Theorem timed_mode_is_reversed (file : option (list Later)) (dt : option Z)
    (ops : list Op) (channel : string) (sign letter : ascii)
    (param : option string) (c : ascii) (r : string) (ts : Z) :
  let s := run ops (booted file dt) in
  let spec := String c r in
  let modestr := String sign (String letter EmptyString) in
  let rev := String (if Ascii.eqb sign "+" then "-" else "+")%char (String letter EmptyString) in
  let k := (param, channel, rev) in
  let d := Z.max 1 (ts - time_at (clock s)) in
  let args := [(EmptyString, Some channel); (EmptyString, Some modestr); (EmptyString, param)] in
  sign = "+"%char \/ sign = "-"%char ->
  calendar_parse spec = Some ts ->
  startswith "in" spec || startswith "at" spec = false ->
  transport_answer "ircop.mode" args = Ok tt ->
  reversemode modestr = Ok rev
  /\ reversemode rev = Ok modestr
  /\ exists s2 h res rest s3,
       mode channel modestr param (Some spec) s = (Ok tt, s2)
       /\ outbox s2 = outbox s ++ [issue_request "ircop.mode" args]
       /\ later_timers s2 !! k = Some h
       /\ live_timers k s2 = [mkCall d k Pending]
       /\ persisted k s2 = [mkLater (time_at (S (clock s)) + d) param channel rev]
       /\ reactor_fire h s2 = (res, s3)
       /\ outbox s3 = outbox s2 ++ fire_request param channel rev :: rest
       /\ (answer_of (fire_request param channel rev) = Ok tt -> res = Ok tt /\ rest = [])
       /\ live_timers k s3 = []
       /\ persisted k s3 = [].
Proof.
  intros s spec modestr rev k d args Hsign Hp Hfor Ha.
  assert (Hrev : reversemode modestr = Ok rev /\ reversemode rev = Ok modestr).
  { unfold modestr, rev. by destruct Hsign as [-> | ->]. }
  split; [apply Hrev|]. split; [apply Hrev|].
  pose proof (Inv_reachable file dt ops) as I. fold s in I.
  set (s0 := set_clock (S (clock s)) s).
  set (s1 := set_outbox (outbox s0 ++ [issue_request "ircop.mode" args]) s0).
  assert (C0 : Consistent s0) by apply Consistent_set_clock, I.
  assert (C1 : Consistent s1) by by apply Consistent_set_outbox.
  set (s2 := scheduled d k s1).
  assert (C2 : Consistent s2) by by apply Consistent_scheduled.
  assert (E : mode channel modestr param (Some spec) s = (Ok tt, s2)).
  { unfold mode. cbn [truthy_str default from_option id]. fold spec.
    unfold parse_time. rewrite Hp. cbn [andb]. rewrite Hfor.
    destruct Hrev as [-> _]. mcbn.
    fold modestr. fold s0. fold d. fold args. fold s1. rewrite Ha.
    cbn -[scheduled _set_timer String.append].
    rewrite _set_timer_scheduled by by apply pending_of_consistent.
    reflexivity. }
  destruct (scheduled_new_call d k s1) as [Hr Hl]. fold s2 in Hr, Hl.
  pose proof (reactor_fire_removed _ _ s2 Hr eq_refl Hl) as Hf.
  cbn [dc_key k] in Hf. destruct Hf as (res & rest & Ef & Hok & _).
  assert (C3 : Consistent (removed Called k (length (reactor s1)) s2))
    by by apply Consistent_removed.
  assert (Hd : Z.max 1 d = d) by (unfold d; lia).
  eexists s2, _, res, rest, _.
  split_and!; [exact E|reflexivity|exact Hl| | |exact Ef|reflexivity|exact Hok| |].
  - rewrite (live_timers_table k _ C2), Hl, Hr, Hd. reflexivity.
  - change (S (clock s)) with (clock s1). apply persisted_scheduled_same.
  - pose proof (live_timers_table k _ C3) as Hlt. simpl in Hlt.
    rewrite lookup_delete_eq in Hlt. exact Hlt.
  - unfold persisted. simpl. rewrite list_filter_filter.
    apply filter_none. intros x _ [? ?]. done.
Qed.

(** X13. [mode] with a time that parses, in any state of a run. For an
    "in" or "at" time nothing is requested now: the mode itself is booked
    and the delay is replied. For another time the mode request is issued
    first and, when it succeeds, the reverse mode is booked with the same
    parameter: the other sign and the first letter of the mode. A failed
    request books nothing. *)
Theorem mode_timed_books_itself_or_reverse (file : option (list Later)) (dt : option Z)
    (ops : list Op) (channel : string) (sign letter : ascii) (rest : string)
    (param : option string) (c : ascii) (r : string) (ts : Z) :
  let s := run ops (booted file dt) in
  let spec := String c r in
  let modestr := String sign (String letter rest) in
  let d := Z.max 1 (ts - time_at (clock s)) in
  let s0 := set_clock (S (clock s)) s in
  let args := [(EmptyString, Some channel); (EmptyString, Some modestr); (EmptyString, param)] in
  let s1 := set_outbox (outbox s0 ++ [issue_request "ircop.mode" args]) s0 in
  calendar_parse spec = Some ts ->
  (startswith "in" spec || startswith "at" spec = true ->
     mode channel modestr param (Some spec) s
     = (Ok tt,
        let s2 := scheduled d (param, channel, modestr) s0 in
        set_outbox (outbox s2 ++ [reply ("Doing a " +:+ modestr +:+ " " +:+ str_opt param
                                         +:+ " in " +:+ str_of_nat (Z.to_nat d)
                                         +:+ " seconds")]) s2))
  /\ (startswith "in" spec || startswith "at" spec = false ->
     forall sign', dict_get [("-", "+"); ("+", "-")]%string (String sign EmptyString)
                   = Some sign' ->
     mode channel modestr param (Some spec) s
     = match transport_answer "ircop.mode" args with
       | Ok _ => (Ok tt, scheduled d (param, channel, sign' +:+ String letter EmptyString) s1)
       | Raise (OpFailed msg) | Raise (ValueError msg) =>
           (Ok tt, set_outbox (outbox s1 ++ [reply msg]) s1)
       | Raise e => (Raise e, s1)
       end).
Proof.
  intros s spec modestr d s0 args s1 Hp.
  pose proof (Inv_reachable file dt ops) as I. fold s in I.
  assert (C0 : Consistent s0) by apply Consistent_set_clock, I.
  assert (C1 : Consistent s1) by by apply Consistent_set_outbox.
  unfold mode. cbn [truthy_str default from_option id]. fold spec.
  unfold parse_time. rewrite Hp. cbn [andb].
  split.
  - intros ->. mcbn. fold s0. fold d.
    rewrite _set_timer_scheduled by by apply pending_of_consistent.
    reflexivity.
  - intros -> sign' Hs. unfold reversemode. cbn [modestr]. rewrite Hs. mcbn.
    fold modestr. fold s0. fold d. fold args. fold s1.
    destruct (transport_answer "ircop.mode" args) as [[]|e].
    + cbn -[scheduled _set_timer String.append].
      rewrite _set_timer_scheduled by by apply pending_of_consistent.
      reflexivity.
    + by destruct e.
Qed.

(** *** [quiet] and the timed-quiet request *)

Lemma _do_moderequest_quiet channel hostmask duration s :
  Consistent s ->
  let args := [("channel", Some channel); ("target", Some hostmask)]%string in
  let s1 := set_outbox (outbox s ++ [issue_request "ircop.quiet" args]) s in
  _do_moderequest channel "q" hostmask duration s
  = match transport_answer "ircop.quiet" args, duration with
    | Ok _, Some d =>
        if truthy_num duration
        then (Ok (Ok tt), scheduled d (Some hostmask, channel, "-q")%string s1)
        else (Ok (Ok tt), s1)
    | Ok _, None => (Ok (Ok tt), s1)
    | Raise e, _ => (Ok (Raise e), s1)
    end.
Proof.
  intros C.
  apply (_do_moderequest_spec channel "q" "quiet" hostmask duration s); [|done].
  right. by left.
Qed.

(** X14. The timed-quiet request on a full mask, in any state of a run,
    never replies: a duration text that does not parse is raised as
    [ValueError] with nothing issued, and a failure of the quiet request is
    raised to the requester. With the integer duration 0 a successful quiet
    books no reversal; with another integer it books one for that many
    seconds. *)
Theorem timedquiet_raises_and_books (file : option (list Later)) (dt : option Z)
    (ops : list Op) (channel target : string) :
  let s := run ops (booted file dt) in
  let k := (Some target, channel, "-q")%string in
  let args := [("channel", Some channel); ("target", Some target)]%string in
  let s1 := set_outbox (outbox s ++ [issue_request "ircop.quiet" args]) s in
  contains "!" target = true -> contains "@" target = true ->
  (forall str, calendar_parse str = None ->
     on_request_ircadmin_timedquiet channel target (DurStr str) s
     = (Raise (ValueError "I don't understand when you want me to do that"), s))
  /\ (forall n e, transport_answer "ircop.quiet" args = Raise e ->
     on_request_ircadmin_timedquiet channel target (DurInt n) s = (Raise e, s1))
  /\ (transport_answer "ircop.quiet" args = Ok tt ->
     on_request_ircadmin_timedquiet channel target (DurInt 0) s = (Ok tt, s1))
  /\ (forall n, transport_answer "ircop.quiet" args = Ok tt -> n <> 0%Z ->
     on_request_ircadmin_timedquiet channel target (DurInt n) s
     = (Ok tt, scheduled n k s1)).
Proof.
  intros s k args s1 H1 H2. pose proof (Inv_reachable file dt ops) as I. fold s in I.
  pose proof (inv_consistent s I) as C.
  assert (E : forall n,
            on_request_ircadmin_timedquiet channel target (DurInt n) s
            = match _do_moderequest channel "q" target (Some n) s with
              | (Ok (Ok _), s') => (Ok tt, s')
              | (Ok (Raise e), s') => (Raise e, s')
              | (Raise e, s') => (Raise e, s')
              end).
  { intros n. unfold on_request_ircadmin_timedquiet.
    unfold bind at 1, ret at 1. unfold bind at 1.
    rewrite _nick_to_hostmask_mask by done. unfold bind.
    by destruct (_do_moderequest channel "q" target (Some n) s) as [[[[]|e]|e] s']. }
  split_and!.
  - intros str Hp. unfold on_request_ircadmin_timedquiet, parse_time. by rewrite Hp.
  - intros n e Ha. rewrite E, (_do_moderequest_quiet channel target (Some n) s C).
    fold args. by rewrite Ha.
  - intros Ha. rewrite E, (_do_moderequest_quiet channel target (Some 0%Z) s C).
    fold args. by rewrite Ha.
  - intros n Ha Hn. rewrite E, (_do_moderequest_quiet channel target (Some n) s C).
    fold args. rewrite Ha. cbn [truthy_num].
    assert (Hz : negb (n =? 0)%Z = true) by (apply negb_true_iff, Z.eqb_neq; done).
    by rewrite Hz.
Qed.

(** X15. The duration of a [quiet] on a full mask whose request succeeds,
    in any state of a run: a time that parses is the duration, whatever
    [defaulttime] is; without a time the duration is [defaulttime]; without
    a time and with no [defaulttime] (or 0) nothing is booked. *)
Theorem quiet_duration_choice (file : option (list Later)) (dt : option Z)
    (ops : list Op) (channel target : string) :
  let s := run ops (booted file dt) in
  let k := (Some target, channel, "-q")%string in
  let args := [("channel", Some channel); ("target", Some target)]%string in
  let quieted s := set_outbox (outbox s ++ [issue_request "ircop.quiet" args]) s in
  contains "!" target = true -> contains "@" target = true ->
  transport_answer "ircop.quiet" args = Ok tt ->
  (forall c r ts, calendar_parse (String c r) = Some ts ->
     quiet channel target (Some (String c r)) s
     = (Ok tt, scheduled (Z.max 1 (ts - time_at (clock s))) k
                 (quieted (set_clock (S (clock s)) s))))
  /\ quiet channel target None s
     = (Ok tt, match defaulttime s with
               | Some d => if (d =? 0)%Z then quieted s else scheduled d k (quieted s)
               | None => quieted s
               end).
Proof.
  intros s k args quieted H1 H2 Ha. pose proof (Inv_reachable file dt ops) as I. fold s in I.
  pose proof (inv_consistent s I) as C.
  assert (E : forall duration s0, Consistent s0 ->
            quiet_body channel target duration s0
            = (Ok tt,
               let duration' := if negb (truthy_num duration) && truthy_num (defaulttime s0)
                                then defaulttime s0 else duration in
               match duration' with
               | Some d => if (d =? 0)%Z then quieted s0 else scheduled d k (quieted s0)
               | None => quieted s0
               end)).
  { intros duration s0 C0. unfold quiet_body. unfold bind at 1, get.
    unfold bind at 1, try_except at 1, bind at 1.
    rewrite _nick_to_hostmask_mask by done. unfold ret at 1.
    unfold try_except, bind. rewrite (_do_moderequest_quiet channel target _ s0 C0).
    fold args. rewrite Ha. cbv zeta.
    destruct (if negb (truthy_num duration) && truthy_num (defaulttime s0)
              then defaulttime s0 else duration) as [d|]; [|done].
    cbn [truthy_num]. by destruct (d =? 0)%Z. }
  split.
  - intros c r ts Hp. unfold quiet, parse_time. rewrite Hp.
    unfold bind at 1, try_except at 1, bind at 1, bind at 1, time_time, ret at 1, ret at 1.
    rewrite E by by apply Consistent_set_clock.
    cbv zeta. cbn [truthy_num]. f_equal.
    assert (Hz : (Z.max 1 (ts - time_at (clock s)) =? 0)%Z = false) by (apply Z.eqb_neq; lia).
    rewrite Hz. cbn [negb andb]. by rewrite Hz.
  - unfold quiet. rewrite E by done. f_equal. cbn [truthy_num negb andb].
    destruct (defaulttime s) as [d|]; [|done]. cbn [truthy_num].
    destruct (d =? 0)%Z eqn:Ed; [done|]. cbn [negb]. by rewrite Ed.
Qed.

(** *** [redirect] *)

(** X16. [redirect] in any state of a run, when the whois answers or finds
    no such nick: the ban on the mask with the [$channel] suffix and the
    kick are both issued before either answer is looked at; a successful
    ban books its reversal for 7200 seconds; the first [OpFailed] of the two
    is replied, and the command then still replies that the user was
    redirected. Any other failure ends the command without that reply. *)
Theorem redirect_reports_even_after_failure (file : option (list Later)) (dt : option Z)
    (ops : list Op) (channel nick : string) (destchan : option string) (n mask : string) :
  let s := run ops (booted file dt) in
  let dest := match destchan with
              | Some (String c r) => String c r
              | _ => "##FIX_YOUR_CONNECTION"%string
              end in
  let hostmask := (mask +:+ "$" +:+ dest)%string in
  let k := (Some hostmask, channel, "-b")%string in
  let whois_req := issue_request "irc.whois" [(EmptyString, Some nick)] in
  let bargs := [("channel", Some channel); ("target", Some hostmask)]%string in
  let kargs := [("channel", Some channel); ("target", Some n);
                ("reason", Some ("Redirected to " +:+ dest))]%string in
  let s1 := set_outbox (outbox s ++ [whois_req; issue_request "ircop.ban" bargs]) s in
  let sb := match transport_answer "ircop.ban" bargs with
            | Ok _ => scheduled 7200 k s1
            | Raise _ => s1
            end in
  let sk := set_outbox (outbox sb ++ [issue_request "ircop.kick" kargs]) sb in
  let final s := set_outbox (outbox s ++ [reply ("Redirected " +:+ n +:+ " to " +:+ dest
                                                  +:+ " for 2 hours")]) s in
  match whois nick with
  | Ok (n', username, _) => n = n' /\ mask = ("*!" +:+ username +:+ "@*")%string
  | Raise NoSuchNick => n = nick /\ mask = (nick +:+ "!*@*")%string
  | Raise _ => False
  end ->
  redirect channel nick destchan s
  = match first_error [transport_answer "ircop.ban" bargs; transport_answer "ircop.kick" kargs] with
    | None => (Ok tt, final sk)
    | Some (OpFailed msg) => (Ok tt, final (set_outbox (outbox sk ++ [reply msg]) sk))
    | Some e => (Raise e, sk)
    end.
Proof.
  intros s dest hostmask k whois_req bargs kargs s1 sb sk final Hw.
  pose proof (Inv_reachable file dt ops) as I. fold s in I.
  set (sw := set_outbox (outbox s ++ [whois_req]) s).
  assert (Cw : Consistent sw) by apply Consistent_set_outbox, I.
  assert (Es : set_outbox (outbox sw ++ [issue_request "ircop.ban" bargs]) sw = s1).
  { unfold s1, sw. simpl. by rewrite <- app_assoc. }
  pose proof (_do_moderequest_spec channel "b" "ban" hostmask (Some 7200%Z) sw
                ltac:(by left) Cw) as Eb.
  cbv zeta in Eb. change ("ircop." +:+ "ban") with "ircop.ban" in Eb.
  change ("-" +:+ "b") with "-b" in Eb. fold bargs in Eb. fold k in Eb.
  rewrite Es in Eb. cbn [truthy_num Z.eqb negb] in Eb.
  assert (E : redirect channel nick destchan s
              = match _do_moderequest channel "b" hostmask (Some 7200%Z) sw with
                | (Ok ban_d, s') =>
                    let s'' := set_outbox (outbox s' ++ [issue_request "ircop.kick" kargs]) s' in
                    match first_error [ban_d; transport_answer "ircop.kick" kargs] with
                    | None => (Ok tt, final s'')
                    | Some (OpFailed msg) =>
                        (Ok tt, final (set_outbox (outbox s'' ++ [reply msg]) s''))
                    | Some e => (Raise e, s'')
                    end
                | (Raise e, s') => (Raise e, s')
                end).
  { unfold redirect. fold dest. unfold bind at 1, modify at 1. fold whois_req. fold sw.
    unfold bind at 1.
    assert (Hnh : match whois nick with
                  | Ok (n0, username, _) => ret (n0, ("*!" +:+ username +:+ "@*")%string)
                  | Raise NoSuchNick => ret (nick, (nick +:+ "!*@*")%string)
                  | Raise e => raise e
                  end sw = (Ok (n, mask), sw)).
    { destruct (whois nick) as [[[n' username] host]|e].
      - by destruct Hw as [-> ->].
      - destruct e; try done. by destruct Hw as [-> ->]. }
    rewrite Hnh. fold hostmask. unfold bind at 1.
    destruct (_do_moderequest channel "b" hostmask (Some 7200%Z) sw) as [[ban_d|e] s']; [|done].
    unfold issue. fold kargs. mcbn.
    destruct ban_d as [[]|e]; [|by destruct e].
    destruct (transport_answer "ircop.kick" kargs) as [[]|e]; [done|by destruct e]. }
  rewrite E, Eb. unfold sk, sb.
  by destruct (transport_answer "ircop.ban" bargs) as [[]|e].
Qed.

End AdminMore.

(** ** IRCAdmin on concrete runs *)

#[local] Existing Instance quiet_world.

Lemma mode_change_invalidates_witness :
  exists s',
    Admin.on_event_irc_on_mode_change xq_removed
      (Admin.run xq_scheduled (Admin.booted None None))
    = (Py.Ok tt, s')
    /\ Admin.live_timers xq_key s' = []
    /\ Admin.persisted xq_key s' = []
    /\ Admin.jsonfile s' = Some (Admin.laters s').
Proof.
  destruct (mode_change_invalidates None None xq_scheduled xq_removed) as [H _].
  destruct (H 0 ltac:(vm_compute; reflexivity))
    as (s' & dc & E & _ & _ & _ & Hl & _ & _ & Hp & Hj).
  exists s'. repeat split; assumption.
Defined.

Lemma fire_removes_then_requests_witness :
  exists r rest s',
    Admin.reactor_fire 0 (Admin.run xq_scheduled (Admin.booted None None)) = (r, s')
    /\ Admin.persisted xq_key s' = []
    /\ Admin.live_timers xq_key s' = []
    /\ Admin.outbox s'
       = issue_request "ircop.unquiet" [("channel", Some "#a"); ("target", Some "x!*@*")]%string :: rest.
Proof.
  pose proof (fire_removes_then_requests None None xq_scheduled 0
                (Admin.mkCall 60 xq_key Admin.Pending)
                ltac:(vm_compute; reflexivity) ltac:(reflexivity)) as H.
  cbn [Admin.dc_key xq_key] in H.
  destruct H as [(r & rest & s' & E & _ & _ & Hp & _ & Hl & Ho & _) _].
  exists r, rest, s'. repeat split; assumption.
Defined.

Lemma nick_to_hostmask_cases_witness :
  Admin._nick_to_hostmask "x!y@z" (Admin.booted None None)
    = (Py.Ok "x!y@z"%string, Admin.booted None None)
  /\ fst (Admin._nick_to_hostmask "bob" (Admin.booted None None))
     = Py.Ok "*!*@unaffiliated/bob"%string
  /\ fst (Admin._nick_to_hostmask "web" (Admin.booted None None))
     = Py.Ok "*!*@10.0.0.7"%string
  /\ fst (Admin._nick_to_hostmask "gw" (Admin.booted None None))
     = Py.Ok "*!gwuser@gateway/*"%string.
Proof.
  split; [|split; [|split]].
  - apply (nick_to_hostmask_cases "x!y@z" (Admin.booted None None)). reflexivity.
  - destruct (nick_to_hostmask_cases "bob" (Admin.booted None None)) as [_ H].
    destruct (H eq_refl "bob" "bobby" "unaffiliated/bob" eq_refl)%string
      as (_ & _ & _ & _ & Hbob).
    apply Hbob; reflexivity.
  - destruct (nick_to_hostmask_cases "web" (Admin.booted None None)) as [_ H].
    destruct (H eq_refl "web" "w" "gateway/web/freenode/ip.10.0.0.7" eq_refl)%string
      as (_ & Hip & _).
    apply (Hip "10.0.0.7"%string); reflexivity.
  - destruct (nick_to_hostmask_cases "gw" (Admin.booted None None)) as [_ H].
    destruct (H eq_refl "gw" "gwuser" "gateway/tor/x" eq_refl)%string
      as (_ & _ & Hgw & _).
    apply Hgw; reflexivity.
Defined.

(** C9, the claim as stated fails for [quiet]: with a duration text that
    does not parse, the command replies with the parse error and returns; no
    [ircop.quiet] request is issued, although the nick resolves. *)
Lemma quiet_aborts_on_unparsed_duration :
  Admin.quiet "#a" "bob" (Some "because spam"%string) (Admin.booted None None)
    = (Py.Ok tt,
       Admin.set_outbox [reply "I don't understand when you want me to do that"]
         (Admin.booted None None))
  /\ forall args,
       ~ In (issue_request "ircop.quiet" args)
            (Admin.outbox (snd (Admin.quiet "#a" "bob" (Some "because spam"%string)
                                  (Admin.booted None None)))).
Proof.
  split; [reflexivity|].
  intros args [H|[]]. discriminate H.
Qed.

Lemma unparsed_duration_ban_quiet_witness :
  exists hostmask rest,
    fst (Admin._nick_to_hostmask "bob" (Admin.booted None None)) = Py.Ok hostmask
    /\ Admin.outbox (snd (Admin.ban "op!o@h" "#a" "bob" (Some "because spam"%string)
                            (Admin.booted None None)))
       = [issue_request "irc.whois" [(EmptyString, Some "bob"%string)];
          issue_request "ircop.ban" [("channel", Some "#a"); ("target", Some hostmask)]%string;
          issue_request "ircop.kick"
            [("channel", Some "#a"); ("target", Some "bob"); ("reason", Some "because spam")]%string]
         ++ rest.
Proof.
  destruct (unparsed_duration_ban_quiet "op!o@h" "#a" "bob" "because spam"
              (Admin.booted None None) ltac:(discriminate) eq_refl) as (_ & _ & H).
  destruct (H eq_refl "bob" "bobby" "unaffiliated/bob" eq_refl)%string
    as (hostmask & rest & E1 & E2).
  exists hostmask, rest. split; [exact E1|exact E2].
Defined.

(** C5, the claim as stated fails on the first reload: the constructor's
    [reload] on a file with one pending item leaves the item in the config
    and books no delayed call for it. *)
Lemma first_reload_books_no_timer :
  Admin.construct (Some [xq_item]) None
    = (Py.Ok tt, Admin.mkAdmin false ∅ [xq_item] None (Some [xq_item]) [] 0 [])
  /\ Admin.live_timers xq_key (snd (Admin.construct (Some [xq_item]) None)) = []
  /\ Admin.persisted xq_key (snd (Admin.construct (Some [xq_item]) None)) = [xq_item].
Proof. split; [reflexivity|]. split; reflexivity. Qed.

Lemma resync_from_persisted_list_witness :
  exists s',
    Admin.start (snd (Admin.construct (Some [xq_item]) None)) = (Py.Ok tt, s')
    /\ length (Admin.reactor s') = 1
    /\ Admin.reactor s' !! 0 = Some (Admin.mkCall 4000 xq_key Admin.Pending).
Proof.
  destruct (resync_from_persisted_list (Some [xq_item]) None)
    as (_ & _ & s' & E & _ & _ & H).
  destruct (H ltac:(apply NoDup_singleton)) as [Hlen Hcalls].
  exists s'. split; [exact E|]. split; [exact Hlen|].
  exact (Hcalls 0 xq_item eq_refl).
Defined.

(** A reload of a started plugin that still has a pending timed request
    whose item is in the file: [_set_all_timers] cancels the delayed call,
    leaves it in [later_timers], and [_set_timer] cancels it again. *)
Example reload_with_pending_request :
  fst (Admin.reload (Admin.booted (Some [xq_item]) None)) = Py.Raise Py.AlreadyCancelled.
Proof. vm_compute. reflexivity. Qed.

Example schedule_twice_example :
  let s := Admin.run [Admin.op_schedule 60 (Some "x!*@*"%string) "#a" "-q";
                      Admin.op_schedule 0 (Some "x!*@*"%string) "#a" "-q"]
             (Admin.booted None None) in
  Admin.reactor s = [Admin.mkCall 60 xq_key Admin.Cancelled; Admin.mkCall 1 xq_key Admin.Pending]
  /\ Admin.laters s = [Admin.mkLater 1001 (Some "x!*@*"%string) "#a" "-q"]
  /\ Admin.later_timers s !! xq_key = Some 1.
Proof. vm_compute. repeat split; reflexivity. Qed.

Lemma reload_with_pending_requests_raises_witness :
  exists s',
    Admin.reload (Admin.run xq_scheduled (Admin.booted None None))
      = (Py.Raise Py.AlreadyCancelled, s')
    /\ Admin.live_timers xq_key s' = []
    /\ Admin.persisted xq_key s' = [Admin.mkLater 1060 (Some "x!*@*"%string) "#a" "-q"].
Proof.
  destruct (reload_with_pending_requests_raises None None xq_scheduled
              ltac:(vm_compute; discriminate)) as (s' & E & Hl & Hp & _).
  exists s'. split; [exact E|]. split; [apply Hl|].
  unfold Admin.persisted. rewrite Hp. vm_compute. reflexivity.
Defined.

Lemma moderequest_books_reversal_on_success_witness :
  exists s2,
    Admin._do_moderequest "#a" "q" "x!*@*" (Some 60%Z) (Admin.booted None None)
      = (Py.Ok (Py.Ok tt), s2)
    /\ Admin.live_timers xq_key s2 = [Admin.mkCall 60 xq_key Admin.Pending]
    /\ Admin.persisted xq_key s2 = [Admin.mkLater 1060 (Some "x!*@*"%string) "#a" "-q"].
Proof.
  destruct (moderequest_books_reversal_on_success None None [] "#a" "q" "quiet" "x!*@*"
              (Some 60%Z) ltac:(right; left; reflexivity)) as (_ & _ & H).
  destruct (H 60%Z eq_refl eq_refl ltac:(discriminate)) as (s2 & E & _ & Hl & Hp & _).
  exists s2. split; [exact E|]. split; [exact Hl|exact Hp].
Defined.

Lemma timed_request_is_reversed_witness :
  exists s2 r rest s3,
    Admin._do_moderequest "#a" "b" "x!*@*" (Some 60%Z) (Admin.booted None None)
      = (Py.Ok (Py.Ok tt), s2)
    /\ Admin.reactor_fire 0 s2 = (r, s3)
    /\ Admin.outbox s3
       = Admin.outbox s2
         ++ issue_request "ircop.unban" [("channel", Some "#a"); ("target", Some "x!*@*")]%string
            :: rest.
Proof.
  destruct (timed_request_is_reversed None None [] "#a" "b" "ban" "x!*@*" 60%Z
              ltac:(left; reflexivity) eq_refl ltac:(discriminate))
    as (s2 & h & r & rest & s3 & s4 & E & Hh & Ef & Ho & _).
  assert (Eh : h = 0).
  { assert (Es : s2 = snd (Admin._do_moderequest "#a" "b" "x!*@*" (Some 60%Z)
                             (Admin.booted None None))) by exact (eq_sym (f_equal snd E)).
    rewrite Es in Hh. vm_compute in Hh. congruence. }
  rewrite Eh in Ef.
  exists s2, r, rest, s3. split; [exact E|]. split; [exact Ef|exact Ho].
Defined.

Lemma nick_to_hostmask_stable_witness :
  exists s',
    Admin._nick_to_hostmask "gw" (Admin.booted None None) = (Py.Ok "*!gwuser@gateway/*"%string, s')
    /\ Admin._nick_to_hostmask "*!gwuser@gateway/*" s' = (Py.Ok "*!gwuser@gateway/*"%string, s').
Proof.
  eexists. split; [reflexivity|].
  apply (nick_to_hostmask_stable "gw" _ (Admin.booted None None)). reflexivity.
Defined.

Lemma ban_extban_unbound_hostmask_witness :
  exists s',
    Admin.ban "op!o@h" "#a" "$a:bob" None (Admin.booted None None)
      = (Py.Raise (Py.UnboundLocalError "hostmask"), s')
    /\ Admin.outbox s' = [].
Proof.
  destruct (ban_extban_unbound_hostmask "op!o@h" "#a" "$a:bob" None (Admin.booted None None)
              ltac:(left; reflexivity)) as (s' & E & Ho & _).
  exists s'. split; [exact E|exact Ho].
Defined.

Lemma ban_wildcard_mask_unbound_kick_witness :
  exists s',
    Admin.ban "op!o@h" "#a" "*!*@example.org" (Some "for 1 hour"%string)
      (Admin.booted None (Some 60%Z))
    = (Py.Raise (Py.UnboundLocalError "kick_d"), s')
    /\ Admin.outbox s'
       = [issue_request "ircop.ban"
            [("channel", Some "#a"); ("target", Some "*!*@example.org")]%string]
    /\ Admin.live_timers (Some "*!*@example.org", "#a", "-b")%string s'
       = [Admin.mkCall 3600 (Some "*!*@example.org", "#a", "-b")%string Admin.Pending]
    /\ Admin.ban "op!o@h" "#a" "*!*@example.org" None (Admin.booted None None)
       = (Py.Raise (Py.UnboundLocalError "kick_d"),
          Admin.set_outbox
            [issue_request "ircop.ban"
               [("channel", Some "#a"); ("target", Some "*!*@example.org")]%string]
            (Admin.booted None None)).
Proof.
  destruct (ban_wildcard_mask_unbound_kick (W:=quiet_world) None (Some 60%Z) []
              "op!o@h" "#a" "*!*@example.org" (Some "for 1 hour"%string)
              eq_refl eq_refl eq_refl eq_refl) as [H _].
  destruct (ban_wildcard_mask_unbound_kick (W:=quiet_world) None None []
              "op!o@h" "#a" "*!*@example.org" None
              eq_refl eq_refl eq_refl eq_refl) as [H' _].
  eexists. split; [exact (H eq_refl)|].
  split; [vm_compute; reflexivity|]. split; [vm_compute; reflexivity|].
  exact (H' eq_refl).
Defined.

Lemma un_command_now_or_later_witness :
  exists s',
    Admin.unquiet "#a" "x!*@*" (Some "for 1 hour"%string) (Admin.booted None None)
      = (Py.Ok tt, s')
    /\ Admin.outbox s' = [reply "It shall be done."]
    /\ Admin.live_timers xq_key s' = [Admin.mkCall 3600 xq_key Admin.Pending].
Proof.
  destruct (un_command_now_or_later None None [] "q" "unquiet"
              "There is no user by that nick on the network. Try specifying a full hostmask. Use “/mode +q” to see the channel quiet list"
              "#a" "x!*@*" ltac:(right; left; reflexivity) eq_refl eq_refl) as (_ & H & _).
  destruct (H "f"%char "or 1 hour"%string 4600%Z eq_refl) as (s' & E & Ho & Hl & _).
  exists s'. split; [exact E|]. split; [exact Ho|exact Hl].
Defined.

Lemma mode_unparsed_time_never_books_witness :
  Admin.mode "#a" "+m" None (Some "in a while"%string) (Admin.booted None None)
  = (Py.Raise (Py.UnboundLocalError "time_to_wait"),
     Admin.set_outbox [reply "I don't understand when you want me to do that"]
       (Admin.booted None None)).
Proof.
  destruct (mode_unparsed_time_never_books (W:=quiet_world) "#a" "+m" None "i"%char
              "n a while" (Admin.booted None None) ltac:(reflexivity)) as [H _].
  exact (H eq_refl).
Defined.

Lemma mode_timed_books_itself_or_reverse_witness :
  exists s',
    Admin.mode "#a" "+mi" None (Some "for 1 hour"%string) (Admin.booted None None)
      = (Py.Ok tt, s')
    /\ Admin.live_timers (None, "#a", "-m")%string s'
       = [Admin.mkCall 3600 (None, "#a", "-m")%string Admin.Pending]
    /\ Admin.live_timers (None, "#a", "-mi")%string s' = [].
Proof.
  destruct (mode_timed_books_itself_or_reverse (W:=quiet_world) None None [] "#a"
              "+"%char "m"%char "i" None "f"%char "or 1 hour" 4600%Z ltac:(reflexivity))
    as [_ H].
  specialize (H eq_refl "-"%string eq_refl).
  eexists. split; [exact H|]. split; vm_compute; reflexivity.
Defined.

Lemma timed_mode_is_reversed_witness :
  let k := (Some "x!*@*", "#a", "-b")%string in
  exists s2 res s3,
    Admin.mode "#a" "+b" (Some "x!*@*"%string) (Some "for 1 hour"%string)
      (Admin.booted None None) = (Py.Ok tt, s2)
    /\ Admin.live_timers k s2 = [Admin.mkCall 3600 k Admin.Pending]
    /\ Admin.reactor_fire 0 s2 = (res, s3)
    /\ Admin.outbox s3
       = Admin.outbox s2
         ++ [issue_request "ircop.unban"
               [("channel", Some "#a"); ("target", Some "x!*@*")]%string]
    /\ Admin.live_timers k s3 = []
    /\ Admin.persisted k s3 = [].
Proof.
  destruct (timed_mode_is_reversed (W:=quiet_world) None None [] "#a" "+"%char "b"%char
              (Some "x!*@*"%string) "f"%char "or 1 hour" 4600%Z
              ltac:(left; reflexivity) ltac:(reflexivity) eq_refl ltac:(reflexivity))
    as (_ & _ & s2 & h & res & rest & s3 & E & _ & Hh & Hl & _ & Ef & Ho & Hok & Hl3 & Hp3).
  assert (E2 : s2 = snd (Admin.mode "#a" "+b" (Some "x!*@*"%string) (Some "for 1 hour"%string)
                           (Admin.booted None None))).
  { exact (eq_sym (f_equal snd E)). }
  assert (Eh : h = 0).
  { rewrite E2 in Hh. vm_compute in Hh. by injection Hh as <-. }
  subst h. destruct (Hok ltac:(reflexivity)) as [_ ->].
  exists s2, res, s3. split; [exact E|]. split; [exact Hl|].
  split; [exact Ef|]. split; [exact Ho|]. split; [exact Hl3|exact Hp3].
Defined.

Lemma timedquiet_raises_and_books_witness :
  Admin.on_request_ircadmin_timedquiet "#a" "x!*@*" (Admin.DurStr "soonish")
    (Admin.booted None None)
  = (Py.Raise (Py.ValueError "I don't understand when you want me to do that"),
     Admin.booted None None)
  /\ Admin.reactor (snd (Admin.on_request_ircadmin_timedquiet "#a" "x!*@*" (Admin.DurInt 0)
                           (Admin.booted None None))) = [].
Proof.
  destruct (timedquiet_raises_and_books None None [] "#a" "x!*@*" eq_refl eq_refl)
    as (H1 & _ & H3 & _).
  split; [exact (H1 "soonish"%string eq_refl)|].
  pose proof (H3 eq_refl) as E. cbn [Admin.run fold_left] in E. rewrite E. reflexivity.
Defined.

Lemma quiet_duration_choice_witness :
  Admin.live_timers xq_key
    (snd (Admin.quiet "#a" "x!*@*" (Some "for 1 hour"%string) (Admin.booted None (Some 60%Z))))
  = [Admin.mkCall 3600 xq_key Admin.Pending]
  /\ Admin.live_timers xq_key
       (snd (Admin.quiet "#a" "x!*@*" None (Admin.booted None (Some 60%Z))))
     = [Admin.mkCall 60 xq_key Admin.Pending].
Proof.
  destruct (quiet_duration_choice (W:=quiet_world) None (Some 60%Z) [] "#a" "x!*@*"
              eq_refl eq_refl ltac:(reflexivity)) as [H1 H2].
  specialize (H1 "f"%char "or 1 hour"%string 4600%Z eq_refl).
  cbn [Admin.run fold_left] in H1, H2. rewrite H1, H2. split; vm_compute; reflexivity.
Defined.

Lemma redirect_reports_even_after_failure_witness :
  exists s',
    Admin.redirect "#a" "bob" None (Admin.booted None None) = (Py.Ok tt, s')
    /\ last (Admin.outbox s')
       = Some (reply "Redirected bob to ##FIX_YOUR_CONNECTION for 2 hours")
    /\ Admin.live_timers (Some "*!bobby@*$##FIX_YOUR_CONNECTION", "#a", "-b")%string s'
       = [Admin.mkCall 7200 (Some "*!bobby@*$##FIX_YOUR_CONNECTION", "#a", "-b")%string
            Admin.Pending].
Proof.
  pose proof (redirect_reports_even_after_failure (W:=quiet_world) None None [] "#a" "bob"
                None "bob" "*!bobby@*" ltac:(split; reflexivity)) as H.
  cbn [Admin.run fold_left] in H.
  eexists. split; [exact H|]. split; vm_compute; reflexivity.
Defined.

(** ** IRCTopic: waiters and the topic-updated event *)

Section TopicFacts.
Import Py Topic.
Local Open Scope py_scope.

Ltac tstep :=
  unfold _set_topic, emit, pop_waiters, add_callback;
  unfold bind, get, modify, ret, raise, try_except; simpl.

Lemma edit_callback_emits edit channel value s :
  exists a, edit_callback edit channel value s = (Ok tt, set_outbox (outbox s ++ [a]) s)
            /\ not_resolution a.
Proof.
  destruct edit; unfold edit_callback; tstep;
    try (destruct (setitem _ _ _)); try (destruct (delitem _ _)); simpl;
    eexists; (split; [reflexivity|]); intros d v; discriminate.
Qed.

Lemma edit_callback_actions edit channel value s :
  edit_callback edit channel value s
  = (Ok tt, set_outbox (outbox s ++ edit_actions edit channel value) s).
Proof.
  unfold edit_actions.
  destruct edit; unfold edit_callback; tstep;
    try (destruct (setitem _ _ _)); try (destruct (delitem _ _)); reflexivity.
Qed.

Lemma edit_actions_one edit channel value :
  exists a, edit_actions edit channel value = [a] /\ not_resolution a
            /\ a <> reply "Could not determine current topic".
Proof.
  unfold edit_actions.
  destruct edit; unfold edit_callback; tstep;
    try (destruct (setitem _ _ _)); try (destruct (delitem _ _)); simpl;
    eexists; (split_and!; [reflexivity|intros d v; discriminate|]);
    try discriminate; unfold only_parts; intros [= H]; discriminate H.
Qed.

Lemma set_reactor_same (s : IRCTopic) : set_reactor (reactor s) s = s.
Proof. by destruct s. Qed.

Lemma timeout_cancel_spec c s :
  exists r,
    timeout_cancel c s = (r, set_reactor (cancel_pending c (reactor s)) s)
    /\ match r with Ok _ => is_pending (reactor s) c = true
                  | Raise _ => is_pending (reactor s) c = false end.
Proof.
  unfold timeout_cancel, cancel_pending, is_pending.
  destruct (reactor s !! c) as [tc|]; [|eexists; by rewrite set_reactor_same].
  destruct (tc_status tc) eqn:E; eexists; rewrite ?set_reactor_same;
    (split; [reflexivity|reflexivity]).
Qed.

(** [d.callback(value)] on the first waiter of a channel, and on a waiter
    that has no timeout call to cancel: it never raises. *)
Lemma d_callback_head value d c edit ch s :
  callbacks s !! d = Some [cb_success c; cb_edit edit ch] ->
  d_callback value d s
  = (Ok tt, mkTopic (topic_stack s) (topic_waiters s) (delete d (callbacks s))
              (next_deferred s) (cancel_pending c (reactor s))
              (outbox s ++ deferred_callback d value
                 :: chain_actions (reactor s) [cb_success c; cb_edit edit ch] value)).
Proof.
  intros Hc. unfold d_callback. tstep. rewrite Hc. cbn [default from_option id run_chain].
  unfold bind at 1. cbn [run_callback]. unfold try_except, bind at 1.
  set (s1 := set_callbacks _ _).
  destruct (timeout_cancel_spec c s1) as (r & -> & Hr).
  change (reactor s1) with (reactor s) in *. unfold chain_actions.
  destruct r as [[]|e]; rewrite Hr; unfold ret; cbn [run_chain run_callback];
    unfold bind, try_except.
  - rewrite edit_callback_actions. unfold ret. simpl. by rewrite <- app_assoc.
  - unfold emit, modify, ret. simpl. by rewrite <- app_assoc.
Qed.

Lemma d_callback_no_timer value ch d s :
  no_timer s ch d ->
  d_callback value d s
  = (Ok tt, mkTopic (topic_stack s) (topic_waiters s) (delete d (callbacks s))
              (next_deferred s) (reactor s)
              (outbox s ++ deferred_callback d value
                 :: chain_actions (reactor s) (default [] (callbacks s !! d)) value)).
Proof.
  intros [Hc|[edit Hc]]; unfold d_callback; tstep; rewrite Hc;
    cbn [default from_option id run_chain chain_actions].
  - reflexivity.
  - unfold bind at 1. cbn [run_callback]. unfold try_except, bind.
    rewrite edit_callback_actions. unfold ret. simpl. by rewrite <- app_assoc.
Qed.

Lemma no_timer_delete s s' ch d0 d :
  callbacks s' = delete d0 (callbacks s) -> no_timer s ch d -> no_timer s' ch d.
Proof.
  unfold no_timer, edit_only. intros ->. destruct (decide (d = d0)) as [->|Hne].
  - rewrite lookup_delete_eq. by left.
  - by rewrite lookup_delete_ne.
Qed.

Lemma lookup_after_delete {A} (m m' : gmap nat A) (d : nat) (ds : list nat) :
  (forall d', m' !! d' = if decide (d' ∈ ds) then None else delete d m !! d') ->
  forall d', m' !! d' = if decide (d' ∈ d :: ds) then None else m !! d'.
Proof.
  intros H d'. rewrite H, lookup_delete.
  destruct (decide (d' ∈ ds)) as [Hi|Hi].
  - rewrite decide_True; [done|by right].
  - destruct (decide (d = d')) as [->|Hne].
    + rewrite decide_True; [done|left].
    + rewrite decide_False; [done|]. rewrite not_elem_of_cons. split; congruence.
Qed.

Lemma callbacks_loop_edits value ch ds : forall s,
  Forall (no_timer s ch) ds ->
  exists s' acts,
    for_each ds (d_callback value) s = (Ok tt, s')
    /\ topic_stack s' = topic_stack s /\ topic_waiters s' = topic_waiters s
    /\ next_deferred s' = next_deferred s /\ reactor s' = reactor s
    /\ (forall d, callbacks s' !! d = if decide (d ∈ ds) then None else callbacks s !! d)
    /\ outbox s' = outbox s ++ acts
    /\ (forall d, d ∈ ds -> deferred_callback d value ∈ acts)
    /\ (forall d v', deferred_callback d v' ∈ acts -> v' = value)
    /\ (forall d edit, d ∈ ds -> callbacks s !! d = Some [cb_edit edit ch] ->
          forall a, a ∈ edit_actions edit ch value -> a ∈ acts)
    /\ reply "Could not determine current topic" ∉ acts.
Proof.
  induction ds as [|d ds IH]; intros s H.
  - exists s, []. simpl. rewrite app_nil_r. split_and!; try done.
    + intros d H'. by apply elem_of_nil in H'.
    + intros d v' H'. by apply elem_of_nil in H'.
    + intros d edit H'. by apply elem_of_nil in H'.
    + apply not_elem_of_nil.
  - apply Forall_cons in H as [Hd H].
    pose proof (d_callback_no_timer value ch d s Hd) as E1.
    set (acts1 := chain_actions _ _ _) in E1.
    set (s1 := mkTopic _ _ _ _ _ _) in E1.
    assert (Ha1 : Forall not_resolution acts1
                  /\ (reply "Could not determine current topic" ∉ acts1)
                  /\ (forall edit, callbacks s !! d = Some [cb_edit edit ch] ->
                       acts1 = edit_actions edit ch value)).
    { unfold acts1. destruct Hd as [->|[edit ->]]; simpl.
      - split_and!; [constructor|apply not_elem_of_nil|done].
      - destruct (edit_actions_one edit ch value) as (a & Ea & Hn & Hr).
        rewrite Ea. split_and!.
        + by repeat constructor.
        + rewrite list_elem_of_singleton. congruence.
        + intros edit' [= <-]. done. }
    destruct Ha1 as (Hn1 & Hr1 & He1).
    assert (H1 : Forall (no_timer s1 ch) ds).
    { eapply Forall_impl; [exact H|]. intros d'. by apply (no_timer_delete s s1 ch d d'). }
    destruct (IH s1 H1) as (s' & acts & E & Hs & Hw & Hn & Hr & Hc & Ho & Hin & Hval & Hed & Hno).
    exists s', (deferred_callback d value :: acts1 ++ acts).
    cbn [for_each]. unfold bind at 1. rewrite E1, E.
    split_and!; try done.
    + by apply lookup_after_delete.
    + rewrite Ho. unfold s1. simpl. by rewrite <- app_assoc.
    + intros d'. rewrite elem_of_cons. intros [->|H']; [left|].
      right. apply elem_of_app. right. by apply Hin.
    + intros d' v'. rewrite elem_of_cons, elem_of_app.
      intros [[= _ ->]|[H'|H']]; [done| |by eapply Hval].
      rewrite Forall_forall in Hn1. by destruct (Hn1 _ H' d' v').
    + intros d' edit Hd' Hcb a Ha. right. apply elem_of_app.
      destruct (decide (d' = d)) as [->|Hne].
      * left. by rewrite (He1 edit Hcb).
      * right. apply elem_of_cons in Hd' as [?|Hd']; [done|].
        apply (Hed d' edit Hd'); [|done]. unfold s1. simpl. by rewrite lookup_delete_ne.
    + rewrite not_elem_of_cons, not_elem_of_app. done.
Qed.

Lemma callbacks_loop value ch d0 rest c edit s :
  callbacks s !! d0 = Some [cb_success c; cb_edit edit ch] ->
  Forall (edit_only s ch) rest ->
  exists s' acts_rest,
    for_each (d0 :: rest) (d_callback value) s = (Ok tt, s')
    /\ topic_stack s' = topic_stack s /\ topic_waiters s' = topic_waiters s
    /\ next_deferred s' = next_deferred s
    /\ reactor s' = cancel_pending c (reactor s)
    /\ (forall d, callbacks s' !! d
                  = if decide (d ∈ d0 :: rest) then None else callbacks s !! d)
    /\ outbox s' = outbox s ++ deferred_callback d0 value
                     :: chain_actions (reactor s) [cb_success c; cb_edit edit ch] value
                     ++ acts_rest
    /\ (forall d, d ∈ rest -> deferred_callback d value ∈ acts_rest)
    /\ (forall d v', deferred_callback d v' ∈ acts_rest -> v' = value)
    /\ (forall d edit', d ∈ rest -> callbacks s !! d = Some [cb_edit edit' ch] ->
          forall a, a ∈ edit_actions edit' ch value -> a ∈ acts_rest)
    /\ reply "Could not determine current topic" ∉ acts_rest.
Proof.
  intros Hd H.
  pose proof (d_callback_head value d0 c edit ch s Hd) as E1.
  set (acts1 := chain_actions _ _ _) in E1.
  set (s1 := mkTopic _ _ _ _ _ _) in E1.
  assert (H1 : Forall (no_timer s1 ch) rest).
  { eapply Forall_impl; [exact H|]. intros d' Hd'.
    apply (no_timer_delete s s1 ch d0 d'); [done|by right]. }
  destruct (callbacks_loop_edits value ch rest s1 H1)
    as (s' & acts & E & Hs & Hw & Hn & Hr & Hc & Ho & Hin & Hval & Hed & Hno).
  exists s', acts.
  cbn [for_each]. unfold bind at 1. rewrite E1, E.
  split_and!; try done.
  - by apply lookup_after_delete.
  - rewrite Ho. unfold s1. simpl. by rewrite <- app_assoc.
  - intros d edit' Hin' Hcb. apply (Hed d edit' Hin'). unfold s1. simpl.
    rewrite lookup_delete_ne; [done|]. intros ->. rewrite Hd in Hcb. discriminate Hcb.
Qed.

Lemma chain_actions_not_resolution r cbs value :
  Forall not_resolution (chain_actions r cbs value).
Proof.
  unfold chain_actions.
  destruct cbs as [|[c|edit ch] [|[c'|edit' ch'] [|? ?]]]; try constructor.
  - destruct (edit_actions_one edit' ch' value) as (a & Ea & Hn & _).
    destruct (is_pending r c); [rewrite Ea|]; repeat constructor; [done|].
    intros d v; discriminate.
  - destruct (edit_actions_one edit ch value) as (a & -> & Hn & _). by repeat constructor.
Qed.

(** *** Firing a deferred never raises *)

Lemma run_callback_general cb r s :
  exists r' s' acts,
    run_callback cb r s = (Ok r', s')
    /\ topic_stack s' = topic_stack s /\ topic_waiters s' = topic_waiters s
    /\ callbacks s' = callbacks s /\ next_deferred s' = next_deferred s
    /\ outbox s' = outbox s ++ acts /\ Forall not_resolution acts.
Proof.
  destruct cb as [c|edit ch], r as [v| |e]; cbn [run_callback];
    unfold try_except, bind, ret, emit, modify.
  - destruct (timeout_cancel_spec c s) as (r0 & -> & _).
    destruct r0 as [[]|e0]; eexists _, _, []; simpl; rewrite app_nil_r; split_and!; done.
  - destruct (timeout_cancel_spec c s) as (r0 & -> & _).
    destruct r0 as [[]|e0]; eexists _, _, []; simpl; rewrite app_nil_r; split_and!; done.
  - eexists _, _, []. rewrite app_nil_r. split_and!; done.
  - rewrite edit_callback_actions.
    destruct (edit_actions_one edit ch v) as (a & Ea & Hn & _).
    eexists _, _, _. simpl. split_and!; try done. rewrite Ea. by repeat constructor.
  - eexists _, _, []. rewrite app_nil_r. split_and!; done.
  - eexists _, _, [_]. simpl. split_and!; try done.
    repeat constructor. intros d v; discriminate.
Qed.

Lemma run_chain_general cbs : forall r s,
  exists s' acts,
    run_chain cbs r s = (Ok tt, s')
    /\ topic_stack s' = topic_stack s /\ topic_waiters s' = topic_waiters s
    /\ callbacks s' = callbacks s /\ next_deferred s' = next_deferred s
    /\ outbox s' = outbox s ++ acts /\ Forall not_resolution acts.
Proof.
  induction cbs as [|cb cbs IH]; intros r s.
  - exists s, []. simpl. rewrite app_nil_r. split_and!; done.
  - destruct (run_callback_general cb r s) as (r' & s1 & acts1 & E1 & Hs1 & Hw1 & Hc1 & Hn1 & Ho1 & Ha1).
    destruct (IH r' s1) as (s' & acts & E & Hs & Hw & Hc & Hn & Ho & Ha).
    exists s', (acts1 ++ acts). cbn [run_chain]. unfold bind. rewrite E1, E.
    split_and!; try congruence.
    + rewrite Ho, Ho1. by rewrite <- app_assoc.
    + by apply Forall_app.
Qed.

Lemma d_callback_general value d s :
  exists s' acts,
    d_callback value d s = (Ok tt, s')
    /\ topic_stack s' = topic_stack s /\ topic_waiters s' = topic_waiters s
    /\ callbacks s' = delete d (callbacks s) /\ next_deferred s' = next_deferred s
    /\ outbox s' = outbox s ++ deferred_callback d value :: acts
    /\ Forall not_resolution acts.
Proof.
  unfold d_callback. tstep. set (s1 := set_callbacks _ _).
  destruct (run_chain_general (default [] (callbacks s !! d)) (fired_topic value) s1)
    as (s' & acts & E & Hs & Hw & Hc & Hn & Ho & Ha).
  exists s', acts. rewrite E. split_and!; try done.
  rewrite Ho. unfold s1. simpl. by rewrite <- app_assoc.
Qed.

Lemma callbacks_loop_general value ds : forall s,
  exists s' acts,
    for_each ds (d_callback value) s = (Ok tt, s')
    /\ topic_stack s' = topic_stack s /\ topic_waiters s' = topic_waiters s
    /\ next_deferred s' = next_deferred s
    /\ (forall d, callbacks s' !! d = if decide (d ∈ ds) then None else callbacks s !! d)
    /\ outbox s' = outbox s ++ acts
    /\ (forall d, d ∈ ds -> deferred_callback d value ∈ acts)
    /\ (forall d v', deferred_callback d v' ∈ acts -> v' = value).
Proof.
  induction ds as [|d ds IH]; intros s.
  - exists s, []. simpl. rewrite app_nil_r. split_and!; try done.
    + intros d H'. by apply elem_of_nil in H'.
    + intros d v' H'. by apply elem_of_nil in H'.
  - destruct (d_callback_general value d s) as (s1 & acts1 & E1 & Hs1 & Hw1 & Hc1 & Hn1 & Ho1 & Ha1).
    destruct (IH s1) as (s' & acts & E & Hs & Hw & Hn & Hc & Ho & Hin & Hval).
    exists s', (deferred_callback d value :: acts1 ++ acts).
    cbn [for_each]. unfold bind at 1. rewrite E1, E.
    split_and!; try congruence.
    + apply lookup_after_delete. intros d'. by rewrite Hc, Hc1.
    + rewrite Ho, Ho1. by rewrite <- app_assoc.
    + intros d'. rewrite elem_of_cons. intros [->|H']; [left|].
      right. apply elem_of_app. right. by apply Hin.
    + intros d' v'. rewrite elem_of_cons, elem_of_app.
      intros [[= _ ->]|[H'|H']]; [done| |by eapply Hval].
      rewrite Forall_forall in Ha1. by destruct (Ha1 _ H' d' v').
Qed.

(** *** What holds in every state of a run of the topic plugin *)

Lemma topic_updated_eq ch newtopic s :
  on_event_irc_on_topic_updated ch newtopic s
  = for_each (waiters_of s ch) (d_callback newtopic)
      (mkTopic (pushed s ch newtopic) (delete ch (topic_waiters s)) (callbacks s)
         (next_deferred s) (reactor s) (outbox s)).
Proof.
  unfold on_event_irc_on_topic_updated, pushed. tstep. by case_decide.
Qed.

(** The handler of a topic-updated event, in any state of the plugin. *)
Lemma topic_updated_general ch newtopic s :
  exists s' acts,
    on_event_irc_on_topic_updated ch newtopic s = (Ok tt, s')
    /\ topic_stack s' = pushed s ch newtopic
    /\ topic_waiters s' = delete ch (topic_waiters s)
    /\ next_deferred s' = next_deferred s
    /\ (forall d, callbacks s' !! d
                  = if decide (d ∈ waiters_of s ch) then None else callbacks s !! d)
    /\ outbox s' = outbox s ++ acts
    /\ (forall d, d ∈ waiters_of s ch -> deferred_callback d newtopic ∈ acts)
    /\ (forall d v', deferred_callback d v' ∈ acts -> v' = newtopic).
Proof.
  rewrite topic_updated_eq. set (s0 := mkTopic _ _ _ _ _ _).
  destruct (callbacks_loop_general newtopic (waiters_of s ch) s0)
    as (s' & acts & E & Hs & Hw & Hn & Hc & Ho & Hin & Hval).
  exists s', acts. by rewrite E.
Qed.

(** The same in a state that has the invariant of the waiters: what the
    first waiter and the others send, and the timeout call that is
    cancelled. *)
Lemma topic_updated_acts ch newtopic d0 rest c edit s :
  waiters_of s ch = d0 :: rest ->
  callbacks s !! d0 = Some [cb_success c; cb_edit edit ch] ->
  Forall (edit_only s ch) rest ->
  exists s' acts_rest,
    on_event_irc_on_topic_updated ch newtopic s = (Ok tt, s')
    /\ topic_stack s' = pushed s ch newtopic
    /\ topic_waiters s' = delete ch (topic_waiters s)
    /\ next_deferred s' = next_deferred s
    /\ reactor s' = cancel_pending c (reactor s)
    /\ (forall d, callbacks s' !! d
                  = if decide (d ∈ d0 :: rest) then None else callbacks s !! d)
    /\ outbox s' = outbox s ++ deferred_callback d0 newtopic
                     :: chain_actions (reactor s) [cb_success c; cb_edit edit ch] newtopic
                     ++ acts_rest
    /\ (forall d, d ∈ rest -> deferred_callback d newtopic ∈ acts_rest)
    /\ (forall d v', deferred_callback d v' ∈ acts_rest -> v' = newtopic)
    /\ (forall d edit', d ∈ rest -> callbacks s !! d = Some [cb_edit edit' ch] ->
          forall a, a ∈ edit_actions edit' ch newtopic -> a ∈ acts_rest)
    /\ reply "Could not determine current topic" ∉ acts_rest.
Proof.
  intros Ew Hc Hrest. rewrite topic_updated_eq, Ew. set (s0 := mkTopic _ _ _ _ _ _).
  destruct (callbacks_loop newtopic ch d0 rest c edit s0 Hc Hrest)
    as (s' & acts & E & Hs & Hw & Hn & Hr & Hcb & Ho & Hin & Hval & Hed & Hno).
  exists s', acts. by rewrite E.
Qed.

Lemma topic_updated_spec ch newtopic s :
  TInv s ->
  exists s' acts,
    on_event_irc_on_topic_updated ch newtopic s = (Ok tt, s')
    /\ topic_stack s' = pushed s ch newtopic
    /\ topic_waiters s' = delete ch (topic_waiters s)
    /\ next_deferred s' = next_deferred s
    /\ reactor s' = cancel_batch s ch
    /\ (forall d, callbacks s' !! d
                  = if decide (d ∈ waiters_of s ch) then None else callbacks s !! d)
    /\ outbox s' = outbox s ++ acts.
Proof.
  intros I. unfold cancel_batch, batch_timer.
  destruct (waiters_of s ch) as [|d0 rest] eqn:Ew.
  - rewrite topic_updated_eq, Ew. eexists _, []. simpl. rewrite app_nil_r.
    split_and!; try done.
  - destruct (tinv_head s I ch d0 rest Ew) as [(c & edit & st & Hc & Hr) Hrest].
    destruct (topic_updated_acts ch newtopic d0 rest c edit s Ew Hc Hrest)
      as (s' & acts & E & Hs & Hw & Hn & Hre & Hcb & Ho & _).
    eexists s', _. rewrite E, Hc. simpl. split_and!; try done.
Qed.

Lemma get_current_topic_known ch top s :
  last (stack_of s ch) = Some top ->
  _get_current_topic ch s = (Ok (Succeeded top), s).
Proof. intros H. unfold _get_current_topic. tstep. by rewrite H. Qed.

Lemma get_current_topic_unknown ch s :
  last (stack_of s ch) = None ->
  _get_current_topic ch s
  = (Ok (Waiting (next_deferred s)),
     mkTopic (topic_stack s)
       (<[ch := waiters_of s ch ++ [next_deferred s]]> (topic_waiters s))
       (<[next_deferred s := first_callbacks s ch]> (callbacks s))
       (S (next_deferred s))
       (with_timeout s ch)
       (outbox s ++ [fetch_request ch])).
Proof.
  intros H. unfold _get_current_topic, first_callbacks, with_timeout. tstep. rewrite H.
  change (waiters_of (set_outbox _ s) ch) with (waiters_of s ch).
  destruct (waiters_of s ch) as [|d0 rest]; simpl; [|reflexivity].
  rewrite lookup_insert_eq, insert_insert_eq. reflexivity.
Qed.

Lemma topic_command_unknown edit ch s :
  last (stack_of s ch) = None ->
  topic_command edit ch s
  = (Ok tt,
     mkTopic (topic_stack s)
       (<[ch := waiters_of s ch ++ [next_deferred s]]> (topic_waiters s))
       (<[next_deferred s := first_callbacks s ch ++ [cb_edit edit ch]]> (callbacks s))
       (S (next_deferred s))
       (with_timeout s ch)
       (outbox s ++ [fetch_request ch])).
Proof.
  intros H. unfold topic_command. unfold bind at 1.
  rewrite (get_current_topic_unknown ch s H). unfold addCallbacks. tstep.
  by rewrite lookup_insert_eq, insert_insert_eq.
Qed.

Lemma topic_command_known edit ch top s :
  last (stack_of s ch) = Some top ->
  topic_command edit ch s = edit_callback edit ch top s.
Proof.
  intros H. unfold topic_command. unfold bind at 1.
  by rewrite (get_current_topic_known ch top s H).
Qed.

Lemma TInv_same_tables s s' :
  topic_waiters s' = topic_waiters s -> callbacks s' = callbacks s ->
  next_deferred s' = next_deferred s -> reactor s' = reactor s ->
  TInv s -> TInv s'.
Proof.
  intros Hw Hc Hn Hr [H1 H2 H3 H4].
  constructor; unfold waiters_of, edit_only in *; rewrite ?Hw, ?Hc, ?Hn, ?Hr; done.
Qed.

Lemma waiters_of_insert s s' ch ds ch' :
  topic_waiters s' = <[ch := ds]> (topic_waiters s) ->
  waiters_of s' ch' = if decide (ch = ch') then ds else waiters_of s ch'.
Proof.
  intros H. unfold waiters_of. rewrite H, lookup_insert. by case_decide.
Qed.

Lemma waiters_of_delete s s' ch ch' :
  topic_waiters s' = delete ch (topic_waiters s) ->
  waiters_of s' ch' = if decide (ch = ch') then [] else waiters_of s ch'.
Proof.
  intros H. unfold waiters_of. rewrite H, lookup_delete. by case_decide.
Qed.

Lemma TInv_topic_command edit ch s : TInv s -> TInv (snd (topic_command edit ch s)).
Proof.
  intros I. destruct (last (stack_of s ch)) as [top|] eqn:El.
  - rewrite (topic_command_known edit ch top s El).
    destruct (edit_callback_emits edit ch top s) as (a & -> & _). simpl.
    by apply (TInv_same_tables s).
  - rewrite (topic_command_unknown edit ch s El). simpl.
    set (n := next_deferred s).
    set (s' := mkTopic _ _ _ _ _ _).
    assert (Hw : forall ch', waiters_of s' ch'
                 = if decide (ch = ch') then waiters_of s ch ++ [n] else waiters_of s ch')
      by (intros ch'; by apply waiters_of_insert).
    assert (Hold : forall ch' d, d ∈ waiters_of s ch' -> callbacks s' !! d = callbacks s !! d).
    { intros ch' d Hd. unfold s'. simpl. rewrite lookup_insert_ne; [done|].
      pose proof (tinv_fresh s I ch' d Hd). unfold n. lia. }
    assert (Hro : forall c tc, reactor s !! c = Some tc -> reactor s' !! c = Some tc).
    { intros c tc Hc. unfold s', with_timeout. simpl.
      destruct (waiters_of s ch); [by apply lookup_app_l_Some|done]. }
    assert (Hedit : forall ch' d, d ∈ waiters_of s ch' -> edit_only s ch' d -> edit_only s' ch' d).
    { intros ch' d Hd. unfold edit_only. by rewrite (Hold ch' d Hd). }
    constructor.
    + intros ch' d0 rest. rewrite Hw. case_decide as Hch; [subst ch'|].
      * destruct (waiters_of s ch) as [|d0' rest'] eqn:Ew.
        -- intros [= <- <-]. split; [|constructor].
           exists (length (reactor s)), edit, Pending. split.
           ++ unfold s', first_callbacks. simpl. by rewrite Ew, lookup_insert_eq.
           ++ unfold s', with_timeout. simpl. rewrite Ew, lookup_app_r by lia.
              by rewrite Nat.sub_diag.
        -- intros [= <- <-].
           destruct (tinv_head s I ch d0' rest' Ew) as [(c & e & st & Hc & Hr) Hrest].
           split.
           ++ exists c, e, st. split; [|by apply Hro].
              rewrite (Hold ch d0'); [done|]. rewrite Ew. left.
           ++ apply Forall_app. split.
              ** apply Forall_forall. intros d Hd. apply Hedit.
                 --- rewrite Ew. by right.
                 --- rewrite Forall_forall in Hrest. by apply Hrest.
              ** constructor; [|constructor]. exists edit. unfold s', first_callbacks.
                 simpl. by rewrite Ew, lookup_insert_eq.
      * intros Ew. destruct (tinv_head s I ch' d0 rest Ew) as [(c & e & st & Hc & Hr) Hrest].
        split.
        -- exists c, e, st. split; [|by apply Hro].
           rewrite (Hold ch' d0); [done|]. rewrite Ew. left.
        -- apply Forall_forall. intros d Hd. apply Hedit.
           ++ rewrite Ew. by right.
           ++ rewrite Forall_forall in Hrest. by apply Hrest.
    + intros ch1 ch2 d. rewrite !Hw.
      assert (Hn : forall ch', n ∉ waiters_of s ch').
      { intros ch' Hin. pose proof (tinv_fresh s I ch' n Hin). unfold n in *. lia. }
      destruct (decide (ch = ch1)) as [E1|N1], (decide (ch = ch2)) as [E2|N2].
      * congruence.
      * rewrite elem_of_app, list_elem_of_singleton. intros [H1|E] H2.
        -- exfalso. by apply N2, (tinv_disjoint s I ch ch2 d).
        -- subst d. by destruct (Hn ch2).
      * rewrite elem_of_app, list_elem_of_singleton. intros H1 [H2|E].
        -- exfalso. by apply N1, (tinv_disjoint s I ch ch1 d).
        -- subst d. by destruct (Hn ch1).
      * apply (tinv_disjoint s I).
    + intros ch' d. rewrite Hw. unfold s'. simpl. fold n.
      case_decide.
      * rewrite elem_of_app, list_elem_of_singleton.
        intros [H1| ->]; [|lia]. pose proof (tinv_fresh s I ch d H1). unfold n. lia.
      * intros H1. pose proof (tinv_fresh s I ch' d H1). unfold n. lia.
    + intros c tc Hc Hp. unfold s', with_timeout in Hc. simpl in Hc.
      assert (Hcase : reactor s !! c = Some tc
                      \/ (waiters_of s ch = [] /\ c = length (reactor s)
                          /\ tc = mkTimeout 10 ch Pending)).
      { destruct (waiters_of s ch) eqn:Ew; [|by left].
        apply lookup_app_Some in Hc as [Hc|[Hge Hc]]; [by left|right].
        destruct (c - length (reactor s)) as [|m] eqn:Em; [|done].
        injection Hc as <-. split_and!; [done|lia|done]. }
      destruct Hcase as [Hc0|(Ew & -> & ->)].
      * destruct (tinv_timeout s I c tc Hc0 Hp) as (d0 & rest & e & Ew & Hcb).
        rewrite Hw. case_decide as Hch.
        -- rewrite <- Hch in Ew. rewrite Ew. exists d0, (rest ++ [n]), e.
           split; [done|]. rewrite (Hold ch d0); [done|]. rewrite Ew. left.
        -- exists d0, rest, e. split; [done|].
           rewrite (Hold (tc_channel tc) d0); [done|]. rewrite Ew. left.
      * simpl. rewrite Hw, decide_True by done. rewrite Ew. simpl.
        exists n, [], edit. split; [done|].
        unfold s', first_callbacks. simpl. by rewrite Ew, lookup_insert_eq.
Qed.

(** The waiters of a channel are drained by the answer. *)
Lemma TInv_drained ch s s' :
  TInv s ->
  topic_waiters s' = delete ch (topic_waiters s) ->
  next_deferred s' = next_deferred s ->
  (forall d, callbacks s' !! d
             = if decide (d ∈ waiters_of s ch) then None else callbacks s !! d) ->
  (forall c tc, reactor s !! c = Some tc -> tc_channel tc <> ch -> reactor s' !! c = Some tc) ->
  (forall c tc, reactor s' !! c = Some tc -> tc_status tc = Pending ->
                reactor s !! c = Some tc /\ tc_channel tc <> ch) ->
  TInv s'.
Proof.
  intros I Hw Hn Hcb R1 R2.
  assert (Hwo : forall ch', waiters_of s' ch'
                = if decide (ch = ch') then [] else waiters_of s ch')
    by (intros ch'; by apply waiters_of_delete).
  assert (Hold : forall ch' d, ch <> ch' -> d ∈ waiters_of s ch' ->
                 callbacks s' !! d = callbacks s !! d).
  { intros ch' d Hne Hd. rewrite Hcb, decide_False; [done|].
    intros Hd'. by apply Hne, (tinv_disjoint s I ch ch' d). }
  constructor.
  - intros ch' d0 rest. rewrite Hwo. case_decide as Hch; [done|]. intros Ew.
    destruct (tinv_head s I ch' d0 rest Ew) as [(c & e & st & Hc & Hr) Hrest].
    split.
    + exists c, e, st. split; [|by apply R1; [|simpl; congruence]].
      rewrite (Hold ch' d0 Hch); [done|]. rewrite Ew. left.
    + apply Forall_forall. intros d Hd. unfold edit_only.
      rewrite (Hold ch' d Hch) by (rewrite Ew; by right).
      rewrite Forall_forall in Hrest. by apply Hrest.
  - intros ch1 ch2 d. rewrite !Hwo.
    destruct (decide (ch = ch1)), (decide (ch = ch2)).
    + congruence.
    + intros Hx. by apply elem_of_nil in Hx.
    + intros _ Hx. by apply elem_of_nil in Hx.
    + apply (tinv_disjoint s I).
  - intros ch' d. rewrite Hwo, Hn. destruct (decide (ch = ch')).
    + intros Hx. by apply elem_of_nil in Hx.
    + apply (tinv_fresh s I).
  - intros c tc Hc Hp. destruct (R2 c tc Hc Hp) as [Hc0 Hne].
    destruct (tinv_timeout s I c tc Hc0 Hp) as (d0 & rest & e & Ew & Hcbs).
    exists d0, rest, e. rewrite Hwo, decide_False by congruence.
    split; [done|]. rewrite (Hold (tc_channel tc) d0); [done|congruence|].
    rewrite Ew. left.
Qed.

Lemma cancel_pending_other c r i : i <> c -> cancel_pending c r !! i = r !! i.
Proof.
  intros Hne. unfold cancel_pending. destruct (r !! c) as [tc|]; [|done].
  destruct (tc_status tc); [|done..]. by apply list_lookup_insert_ne.
Qed.

Lemma cancel_pending_pending c r i tc :
  cancel_pending c r !! i = Some tc -> tc_status tc = Pending ->
  r !! i = Some tc /\ i <> c.
Proof.
  intros Hl Hp. destruct (decide (i = c)) as [->|Hne];
    [|by rewrite cancel_pending_other in Hl].
  exfalso. unfold cancel_pending in Hl. destruct (r !! c) as [tc0|] eqn:Ec.
  - destruct (tc_status tc0) eqn:Es.
    + rewrite list_lookup_insert_eq in Hl by by eapply lookup_lt_Some.
      injection Hl as <-. discriminate Hp.
    + rewrite Ec in Hl. injection Hl as <-. congruence.
    + rewrite Ec in Hl. injection Hl as <-. congruence.
  - by rewrite Ec in Hl.
Qed.

Lemma batch_timer_Some s ch c :
  TInv s -> batch_timer s ch = Some c ->
  exists st, reactor s !! c = Some (mkTimeout 10 ch st).
Proof.
  intros I. unfold batch_timer. destruct (waiters_of s ch) as [|d0 rest] eqn:Ew; [done|].
  destruct (tinv_head s I ch d0 rest Ew) as [(c' & e & st & -> & Hr) _]. simpl.
  intros [= <-]. by exists st.
Qed.

Lemma pending_is_batch_timer s c tc :
  TInv s -> reactor s !! c = Some tc -> tc_status tc = Pending ->
  batch_timer s (tc_channel tc) = Some c.
Proof.
  intros I Hc Hp. destruct (tinv_timeout s I c tc Hc Hp) as (d0 & rest & e & Ew & Hcb).
  unfold batch_timer. by rewrite Ew, Hcb.
Qed.

Lemma TInv_topic_updated ch newtopic s :
  TInv s -> TInv (snd (on_event_irc_on_topic_updated ch newtopic s)).
Proof.
  intros I.
  destruct (topic_updated_spec ch newtopic s I)
    as (s' & acts & -> & _ & Hw & Hn & Hr & Hcb & _). simpl.
  apply (TInv_drained ch s s' I Hw Hn Hcb); rewrite Hr; unfold cancel_batch.
  - intros c tc Hc Hne. destruct (batch_timer s ch) as [c0|] eqn:Eb; [|done].
    rewrite cancel_pending_other; [done|]. intros ->.
    destruct (batch_timer_Some s ch c0 I Eb) as [st Hst].
    rewrite Hst in Hc. injection Hc as <-. done.
  - intros c tc Hc Hp.
    destruct (batch_timer s ch) as [c0|] eqn:Eb.
    + destruct (cancel_pending_pending c0 _ c tc Hc Hp) as [Hc0 Hne].
      split; [done|]. intros Hch.
      pose proof (pending_is_batch_timer s c tc I Hc0 Hp) as Eb'. rewrite Hch in Eb'.
      congruence.
    + split; [done|]. intros Hch.
      pose proof (pending_is_batch_timer s c tc I Hc Hp) as Eb'. rewrite Hch in Eb'.
      congruence.
Qed.

(** The timeout call runs: [TypeError], and nothing but the call changes. *)
Lemma timeout_fire_spec c tc s :
  reactor s !! c = Some tc -> tc_status tc = Pending ->
  timeout_fire c s
  = (Raise (OtherError "TypeError: failure() takes exactly 1 argument (0 given)"),
     set_reactor (<[c := mkTimeout (tc_delay tc) (tc_channel tc) Called]> (reactor s)) s).
Proof. intros Hc Hp. unfold timeout_fire. by rewrite Hc, Hp. Qed.

Lemma timeout_fire_noop c s :
  (forall tc, reactor s !! c = Some tc -> tc_status tc <> Pending) ->
  snd (timeout_fire c s) = s.
Proof.
  intros H. unfold timeout_fire. destruct (reactor s !! c) as [tc|] eqn:Hc; [|done].
  specialize (H tc eq_refl). by destruct (tc_status tc).
Qed.

Lemma TInv_timeout_fire c s : TInv s -> TInv (snd (timeout_fire c s)).
Proof.
  intros I. destruct (reactor s !! c) as [tc|] eqn:Hc;
    [|by unfold timeout_fire; rewrite Hc].
  destruct (decide (tc_status tc = Pending)) as [Hp|Hp];
    [|unfold timeout_fire; rewrite Hc; by destruct (tc_status tc)].
  rewrite (timeout_fire_spec c tc s Hc Hp). simpl.
  assert (Hlt : c < length (reactor s)) by by eapply lookup_lt_Some.
  constructor; simpl.
  - intros ch d0 rest Ew.
    destruct (tinv_head s I ch d0 rest Ew) as [(c' & e & st & Hcb & Hr) Hrest].
    split; [|exact Hrest].
    destruct (decide (c' = c)) as [->|Hne].
    + exists c, e, Called. split; [done|].
      rewrite list_lookup_insert_eq by done. rewrite Hc in Hr. by injection Hr as ->.
    + exists c', e, st. split; [done|]. by rewrite list_lookup_insert_ne.
  - apply (tinv_disjoint s I).
  - apply (tinv_fresh s I).
  - intros c' tc' Hc' Hp'. destruct (decide (c' = c)) as [->|Hne].
    + rewrite list_lookup_insert_eq in Hc' by done. injection Hc' as <-. discriminate Hp'.
    + rewrite list_lookup_insert_ne in Hc' by done. by apply (tinv_timeout s I).
Qed.

Lemma TInv_topic_undo ch s : TInv s -> TInv (snd (topic_undo ch s)).
Proof.
  intros I. unfold topic_undo. tstep.
  destruct (reverse (stack_of s ch)) as [|t0 [|t1 rest]]; simpl;
    by apply (TInv_same_tables s).
Qed.

Lemma TInv_started : TInv started.
Proof.
  constructor; unfold waiters_of; simpl; intros *; rewrite ?lookup_empty; try done.
  - simpl. intros H. by apply elem_of_nil in H.
  - simpl. intros H. by apply elem_of_nil in H.
Qed.

Lemma TInv_run ops : forall s, TInv s -> TInv (run ops s).
Proof.
  induction ops as [|o ops IH]; intros s I; [exact I|].
  simpl. apply IH. destruct o; simpl.
  - by apply TInv_topic_command.
  - by apply TInv_topic_updated.
  - by apply TInv_timeout_fire.
  - by apply TInv_topic_undo.
Qed.

(** *** The topic history *)

Lemma length_deque_append x q : length (deque_append x q) <= 10.
Proof. unfold deque_append. rewrite length_drop, length_app. simpl. lia. Qed.

Lemma no_repeat_deque_append x q :
  no_repeat q -> last q <> Some x -> no_repeat (deque_append x q).
Proof.
  intros Hq Hl i a b. unfold deque_append. rewrite !lookup_drop.
  set (n := length (q ++ [x]) - 10).
  replace (n + S i) with (S (n + i)) by lia. generalize (n + i). clear i n.
  intros i Ha Hb.
  apply lookup_app_Some in Hb as [Hb|[Hge Hb]].
  - rewrite lookup_app_l in Ha by (apply lookup_lt_Some in Hb; lia). by eapply Hq.
  - destruct (S i - length q) as [|m] eqn:Em; [|by destruct m].
    injection Hb as <-. assert (Hi : S i = length q) by lia.
    rewrite lookup_app_l in Ha by lia. intros ->. apply Hl.
    rewrite last_lookup. rewrite <- Hi. exact Ha.
Qed.

Lemma no_repeat_app_l (l1 l2 : list string) : no_repeat (l1 ++ l2) -> no_repeat l1.
Proof.
  intros H i x y Hx Hy. apply (H i x y); by apply lookup_app_l_Some.
Qed.

Lemma stack_of_same s s' ch : topic_stack s' = topic_stack s -> stack_of s' ch = stack_of s ch.
Proof. intros H. unfold stack_of. by rewrite H. Qed.

Lemma waiters_of_same s s' ch :
  topic_waiters s' = topic_waiters s -> waiters_of s' ch = waiters_of s ch.
Proof. intros H. unfold waiters_of. by rewrite H. Qed.

Lemma HInv_same s s' :
  topic_stack s' = topic_stack s -> topic_waiters s' = topic_waiters s -> HInv s -> HInv s'.
Proof.
  intros Hs Hw [H1 H2 H3]. constructor; intros ch.
  - rewrite (stack_of_same s s' ch Hs). apply H1.
  - rewrite (stack_of_same s s' ch Hs). apply H2.
  - rewrite (stack_of_same s s' ch Hs), (waiters_of_same s s' ch Hw). apply H3.
Qed.

Lemma HInv_topic_command edit ch s : HInv s -> HInv (snd (topic_command edit ch s)).
Proof.
  intros H. destruct (last (stack_of s ch)) as [top|] eqn:El.
  - rewrite (topic_command_known edit ch top s El).
    destruct (edit_callback_emits edit ch top s) as (a & -> & _).
    by apply (HInv_same s).
  - rewrite (topic_command_unknown edit ch s El). simpl.
    destruct H as [H1 H2 H3]. constructor; intros ch'.
    + apply H1.
    + apply H2.
    + unfold waiters_of at 1. simpl. rewrite lookup_insert.
      destruct (decide (ch = ch')) as [<-|Hne]; [|apply H3].
      intros _. apply last_None in El. exact El.
Qed.

Lemma stack_of_pushed s ch newtopic ch' :
  default [] (pushed s ch newtopic !! ch')
  = if decide (ch' = ch /\ last (stack_of s ch) <> Some newtopic)
    then deque_append newtopic (stack_of s ch) else stack_of s ch'.
Proof.
  unfold pushed. destruct (decide (Some newtopic = last (stack_of s ch))) as [E|E].
  - rewrite decide_False; [done|]. intros [_ Hn]. by apply Hn.
  - destruct (decide (ch' = ch)) as [->|Hne].
    + rewrite decide_True by (split; congruence). by rewrite lookup_insert_eq.
    + rewrite decide_False by tauto. by rewrite lookup_insert_ne.
Qed.

Lemma HInv_topic_updated ch newtopic s :
  HInv s -> HInv (snd (on_event_irc_on_topic_updated ch newtopic s)).
Proof.
  intros [H1 H2 H3].
  destruct (topic_updated_general ch newtopic s) as (s' & acts & -> & Hs & Hw & _).
  simpl. constructor; intros ch'; unfold stack_of at 1; rewrite Hs, stack_of_pushed.
  - case_decide; [apply length_deque_append|apply H1].
  - case_decide as Hc; [|apply H2]. destruct Hc as [_ Hc].
    by apply no_repeat_deque_append.
  - rewrite (waiters_of_delete s s' ch ch' Hw).
    destruct (decide (ch = ch')) as [<-|Hne]; [done|].
    rewrite decide_False by (intros [? _]; congruence). apply H3.
Qed.

Lemma HInv_timeout_fire c s : HInv s -> HInv (snd (timeout_fire c s)).
Proof.
  intros H. destruct (reactor s !! c) as [tc|] eqn:Hc;
    [|by unfold timeout_fire; rewrite Hc].
  destruct (decide (tc_status tc = Pending)) as [Hp|Hp];
    [|unfold timeout_fire; rewrite Hc; by destruct (tc_status tc)].
  rewrite (timeout_fire_spec c tc s Hc Hp). simpl. by apply (HInv_same s).
Qed.

Lemma topic_undo_eq ch s :
  topic_undo ch s
  = match reverse (stack_of s ch) with
    | _ :: newtopic :: rest =>
        (Ok tt,
         mkTopic (<[ch := reverse rest]> (topic_stack s)) (topic_waiters s) (callbacks s)
           (next_deferred s) (reactor s)
           (outbox s ++ [issue_request "ircop.topic"
                           [(EmptyString, Some ch); (EmptyString, Some newtopic)]]))
    | _ => (Ok tt, set_outbox
                     (outbox s ++ [reply "I don't know what the topic used to be. Cannot undo =("])
                     s)
    end.
Proof.
  unfold topic_undo. tstep. by destruct (reverse (stack_of s ch)) as [|t0 [|t1 rest]].
Qed.

Lemma reverse_two {A} (l rest : list A) a b :
  reverse l = a :: b :: rest -> l = reverse rest ++ [b; a].
Proof.
  intros H. rewrite <- (reverse_involutive l), H. rewrite !reverse_cons.
  by rewrite <- app_assoc.
Qed.

Lemma HInv_topic_undo ch s : HInv s -> HInv (snd (topic_undo ch s)).
Proof.
  intros H. rewrite topic_undo_eq.
  destruct (reverse (stack_of s ch)) as [|t0 [|t1 rest]] eqn:Er;
    [by apply (HInv_same s)..|].
  apply reverse_two in Er. destruct H as [H1 H2 H3]. simpl.
  constructor; intros ch'; unfold stack_of at 1; simpl; rewrite lookup_insert;
    (destruct (decide (ch = ch')) as [<-|Hne]; [simpl|]).
  - specialize (H1 ch). rewrite Er, length_app in H1. lia.
  - apply H1.
  - specialize (H2 ch). rewrite Er in H2. by eapply no_repeat_app_l.
  - apply H2.
  - intros Hw. specialize (H3 ch Hw). rewrite H3 in Er. by destruct (reverse rest).
  - apply H3.
Qed.

Lemma HInv_started : HInv started.
Proof.
  constructor; intros ch; unfold stack_of, waiters_of; simpl; rewrite lookup_empty; simpl.
  - lia.
  - intros i x y Hx. done.
  - done.
Qed.

Lemma HInv_run ops : forall s, HInv s -> HInv (run ops s).
Proof.
  induction ops as [|o ops IH]; intros s H; [exact H|].
  simpl. apply IH. destruct o; simpl.
  - by apply HInv_topic_command.
  - by apply HInv_topic_updated.
  - by apply HInv_timeout_fire.
  - by apply HInv_topic_undo.
Qed.

Lemma HInv_reachable ops : HInv (run ops started).
Proof. apply HInv_run, HInv_started. Qed.




(** *** The claims on the topic waiters *)



(** X17. In any state of a run of the topic plugin the history of a
    channel holds at most 10 topics and no topic twice in a row, and
    deferreds wait for the topic of a channel only while its history is
    empty; a timeout call that runs takes no waiter away. *)
Theorem topic_history_bounded (ops : list Op) (ch : string) :
  let s := run ops started in
  length (stack_of s ch) <= 10
  /\ (forall i x y, stack_of s ch !! i = Some x -> stack_of s ch !! S i = Some y -> x <> y)
  /\ (waiters_of s ch <> [] -> stack_of s ch = [])
  /\ (forall c, waiters_of (snd (timeout_fire c s)) ch = waiters_of s ch).
Proof.
  intros s. pose proof (HInv_reachable ops) as H. fold s in H.
  split_and!.
  - apply (hinv_bound s H).
  - apply (hinv_no_repeat s H).
  - apply (hinv_unknown s H).
  - intros c. unfold timeout_fire. destruct (reactor s !! c) as [tc|]; [|done].
    by destruct (tc_status tc).
Qed.

(** X18. When the timeout call of a topic request runs, in any state of a
    run: the call raises [TypeError] ([failure] is called without its
    argument), so no errback runs and nothing is sent; the waiters of the
    channel stay, with no pending timeout call left for the channel. The
    next topic command still sends a request for the topic and joins the
    waiters, but books no new timeout. When the topic arrives at last, the
    handler returns and no waiter is left: every waiter is called back, the
    first of them cannot cancel the timeout call that has run and its
    command replies that the topic could not be determined, exactly once,
    while the edits of the other waiters are sent. *)
Theorem timeout_raises_and_keeps_waiters (ops : list Op) (c : nat) (tc : TimeoutCall) :
  let s := run ops started in
  let ch := tc_channel tc in
  reactor s !! c = Some tc -> tc_status tc = Pending ->
  exists d0 rest edit0 s',
    waiters_of s ch = d0 :: rest
    /\ callbacks s !! d0 = Some [cb_success c; cb_edit edit0 ch]
    /\ timeout_fire c s
       = (Raise (OtherError "TypeError: failure() takes exactly 1 argument (0 given)"), s')
    /\ topic_waiters s' = topic_waiters s /\ callbacks s' = callbacks s
    /\ topic_stack s' = topic_stack s /\ outbox s' = outbox s
    /\ (forall k tk, reactor s' !! k = Some tk -> tc_channel tk = ch ->
          tc_status tk <> Pending)
    /\ (forall edit, exists s'',
          topic_command edit ch s' = (Ok tt, s'')
          /\ outbox s'' = outbox s' ++ [fetch_request ch]
          /\ reactor s'' = reactor s'
          /\ waiters_of s'' ch = (d0 :: rest) ++ [next_deferred s'])
    /\ (forall newtopic, exists s2 acts,
          on_event_irc_on_topic_updated ch newtopic s' = (Ok tt, s2)
          /\ waiters_of s2 ch = []
          /\ outbox s2 = outbox s' ++ acts
          /\ (forall d, d ∈ d0 :: rest -> deferred_callback d newtopic ∈ acts)
          /\ filter (fun a => a = reply "Could not determine current topic") acts
             = [reply "Could not determine current topic"]
          /\ (forall d edit, d ∈ rest -> callbacks s !! d = Some [cb_edit edit ch] ->
                forall a, a ∈ edit_actions edit ch newtopic -> a ∈ acts)).
Proof.
  intros s ch Hc Hp.
  assert (I : TInv s) by apply TInv_run, TInv_started.
  pose proof (HInv_reachable ops) as H. fold s in H.
  destruct (tinv_timeout s I c tc Hc Hp) as (d0 & rest & edit0 & Ew & Hcb).
  fold ch in Ew, Hcb.
  destruct (tinv_head s I ch d0 rest Ew) as [_ Hrest].
  set (s' := set_reactor (<[c := mkTimeout (tc_delay tc) (tc_channel tc) Called]> (reactor s)) s).
  assert (Hlt : c < length (reactor s)) by by eapply lookup_lt_Some.
  assert (Hrc : reactor s' !! c = Some (mkTimeout (tc_delay tc) ch Called)).
  { unfold s'. simpl. by apply list_lookup_insert_eq. }
  assert (Ew' : waiters_of s' ch = d0 :: rest) by exact Ew.
  assert (Hs' : stack_of s' ch = []).
  { change (stack_of s ch = []). apply (hinv_unknown s H). by rewrite Ew. }
  exists d0, rest, edit0, s'. split_and!; try done.
  - by apply timeout_fire_spec.
  - intros k tk Hk Hch Hpk. destruct (decide (k = c)) as [->|Hne].
    + rewrite Hrc in Hk. injection Hk as <-. discriminate Hpk.
    + unfold s' in Hk. simpl in Hk. rewrite list_lookup_insert_ne in Hk by done.
      pose proof (pending_is_batch_timer s k tk I Hk Hpk) as E1.
      pose proof (pending_is_batch_timer s c tc I Hc Hp) as E2.
      fold ch in E2. rewrite Hch in E1. congruence.
  - intros edit. eexists. rewrite topic_command_unknown by by rewrite Hs'.
    split; [reflexivity|]. simpl. unfold with_timeout. rewrite Ew'.
    split_and!; try done.
    unfold waiters_of at 1. simpl. by rewrite lookup_insert_eq.
  - intros newtopic.
    destruct (topic_updated_acts ch newtopic d0 rest c edit0 s' Ew' Hcb Hrest)
      as (s2 & acts_rest & E & _ & Hw & _ & _ & _ & Ho & Hin & _ & Hed & Hno).
    assert (Hnp : is_pending (reactor s') c = false).
    { unfold is_pending. rewrite Hrc. by apply bool_decide_eq_false_2. }
    unfold chain_actions in Ho. rewrite Hnp in Ho.
    exists s2, (deferred_callback d0 newtopic
                :: reply "Could not determine current topic" :: acts_rest).
    split_and!; [exact E| |exact Ho|..].
    + rewrite (waiters_of_delete s' s2 ch ch Hw). by rewrite decide_True.
    + intros d. rewrite elem_of_cons. intros [->|Hd]; [left|].
      right. right. by apply Hin.
    + rewrite filter_cons_False by discriminate.
      rewrite filter_cons_True by done.
      rewrite (filter_none _ acts_rest); [done|]. by intros a Ha ->.
    + intros d edit Hd Hcbd a Ha. right. right. by apply (Hed d edit).
Qed.

(** X19. [topic_undo] in any state of a run. With fewer than two topics in
    the history it only replies. Otherwise it drops the two newest topics
    and requests the older of them; when the server echoes that topic the
    history ends one topic shorter than before the undo, with the requested
    topic on top. *)
Theorem topic_undo_then_echo (ops : list Op) (ch : string) :
  let s := run ops started in
  (length (stack_of s ch) < 2 ->
     topic_undo ch s
     = (Ok tt, set_outbox
                 (outbox s ++ [reply "I don't know what the topic used to be. Cannot undo =("])
                 s))
  /\ (forall l prev cur, stack_of s ch = l ++ [prev; cur] ->
      exists s1 s2,
        topic_undo ch s = (Ok tt, s1)
        /\ outbox s1 = outbox s ++ [issue_request "ircop.topic"
                                      [(EmptyString, Some ch); (EmptyString, Some prev)]]
        /\ stack_of s1 ch = l
        /\ fst (on_event_irc_on_topic_updated ch prev s1) = Ok tt
        /\ s2 = snd (on_event_irc_on_topic_updated ch prev s1)
        /\ stack_of s2 ch = l ++ [prev]).
Proof.
  intros s.
  pose proof (HInv_reachable ops) as H. fold s in H.
  split.
  - intros Hlen. rewrite topic_undo_eq.
    destruct (reverse (stack_of s ch)) as [|t0 [|t1 rest]] eqn:Er; [done..|].
    apply reverse_two in Er. rewrite Er, length_app in Hlen. simpl in Hlen. lia.
  - intros l prev cur Hl.
    rewrite topic_undo_eq.
    rewrite Hl, reverse_app. simpl.
    rewrite reverse_involutive.
    set (s1 := mkTopic _ _ _ _ _ _).
    assert (Hs1 : stack_of s1 ch = l).
    { unfold stack_of, s1. simpl. by rewrite lookup_insert_eq. }
    destruct (topic_updated_general ch prev s1) as (s2 & acts & E & Hs & _).
    exists s1, s2. rewrite E. split_and!; try done.
    unfold stack_of at 1. rewrite Hs, stack_of_pushed, Hs1.
    pose proof (hinv_no_repeat s H ch) as Hnr. rewrite Hl in Hnr.
    pose proof (hinv_bound s H ch) as Hb. rewrite Hl, length_app in Hb. simpl in Hb.
    assert (Hlast : last l <> Some prev).
    { rewrite last_lookup. intros Hx.
      destruct l as [|a l']; [done|]. simpl in Hx.
      apply (Hnr (length l') prev prev); [by apply lookup_app_l_Some| |done].
      rewrite lookup_app_r by (simpl; lia). simpl.
      by replace (length l' - length l') with 0 by lia. }
    rewrite decide_True by done.
    unfold deque_append. rewrite length_app. simpl.
    replace (length l + 1 - 10) with 0 by lia. reflexivity.
Qed.

(** X29. A topic command right after [topic_undo], before the server has
    echoed the restored topic, does not see that topic: with an older topic
    left in the history it edits the older one at once, so its request
    overwrites the undo; with nothing left it asks for the topic and
    waits. *)
Theorem topic_edit_after_undo_uses_older_topic (ch text prev cur : string)
    (l : list string) (s : IRCTopic) :
  stack_of s ch = l ++ [prev; cur] ->
  let s1 := snd (topic_undo ch s) in
  outbox s1 = outbox s ++ [issue_request "ircop.topic"
                             [(EmptyString, Some ch); (EmptyString, Some prev)]]
  /\ stack_of s1 ch = l
  /\ match last l with
     | Some older =>
         topic_command (EAppend text) ch s1
         = (Ok tt,
            set_outbox
              (outbox s1 ++ [issue_request "ircop.topic"
                               [(EmptyString, Some ch);
                                (EmptyString,
                                 Some (join " | " (map strip (split "|" (strip older))
                                                   ++ [text])))]])
              s1)
     | None =>
         exists s2,
           topic_command (EAppend text) ch s1 = (Ok tt, s2)
           /\ outbox s2 = outbox s1 ++ [fetch_request ch]
           /\ waiters_of s2 ch = waiters_of s1 ch ++ [next_deferred s1]
     end.
Proof.
  intros Hl s1.
  assert (E : s1 = mkTopic (<[ch := l]> (topic_stack s)) (topic_waiters s) (callbacks s)
                     (next_deferred s) (reactor s)
                     (outbox s ++ [issue_request "ircop.topic"
                                     [(EmptyString, Some ch); (EmptyString, Some prev)]])).
  { unfold s1. rewrite topic_undo_eq, Hl, reverse_app. simpl.
    by rewrite reverse_involutive. }
  assert (Hs1 : stack_of s1 ch = l).
  { rewrite E. unfold stack_of. simpl. by rewrite lookup_insert_eq. }
  split_and!; [by rewrite E|exact Hs1|].
  destruct (last l) as [older|] eqn:Elast.
  - rewrite (topic_command_known _ ch older s1) by by rewrite Hs1.
    reflexivity.
  - eexists. rewrite topic_command_unknown by by rewrite Hs1.
    split; [reflexivity|]. simpl. split; [done|].
    unfold waiters_of at 1. simpl. by rewrite lookup_insert_eq.
Qed.

Lemma delete_last {A} (l : list A) : delete (length l - 1) l = take (length l - 1) l.
Proof.
  destruct (decide (l = [])) as [->|Hne]; [done|].
  assert (0 < length l) by (destruct l; [done|simpl; lia]).
  rewrite delete_take_drop.
  replace (S (length l - 1)) with (length l) by lia.
  by rewrite drop_all, app_nil_r.
Qed.

(** X20. [topicpop] never gives the out-of-range reply: a topic always has
    at least one part, so the last one is deleted and the rest is requested
    as the new topic; popping a topic of one part requests the empty
    topic. *)
Theorem topicpop_always_requests (channel currenttopic : string) (s : IRCTopic) :
  let topic_parts := map strip (split "|" currenttopic) in
  0 < length topic_parts
  /\ edit_callback EPop channel currenttopic s
     = (Ok tt, set_outbox
                 (outbox s ++ [issue_request "ircop.topic"
                                 [(EmptyString, Some channel);
                                  (EmptyString,
                                   Some (join " | " (take (length topic_parts - 1) topic_parts)))]])
                 s)
  /\ (length topic_parts = 1 ->
      snd (edit_callback EPop channel currenttopic s)
      = set_outbox (outbox s ++ [issue_request "ircop.topic"
                                   [(EmptyString, Some channel); (EmptyString, Some EmptyString)]])
          s).
Proof.
  intros topic_parts.
  assert (Hpos : 0 < length topic_parts).
  { unfold topic_parts. rewrite length_map. apply length_split_pos. }
  assert (E : delitem topic_parts (-1) = Ok (take (length topic_parts - 1) topic_parts)).
  { unfold delitem, index. change (0 <=? -1)%Z with false. cbv iota.
    destruct (- Z.of_nat (length topic_parts) <=? -1)%Z eqn:El; [|lia].
    replace (Z.to_nat (Z.of_nat (length topic_parts) + -1)) with (length topic_parts - 1) by lia.
    by rewrite delete_last. }
  assert (Ec : edit_callback EPop channel currenttopic s
               = (Ok tt, set_outbox
                   (outbox s ++ [issue_request "ircop.topic"
                                   [(EmptyString, Some channel);
                                    (EmptyString,
                                     Some (join " | " (take (length topic_parts - 1) topic_parts)))]])
                   s)).
  { unfold edit_callback. fold topic_parts. rewrite E. reflexivity. }
  split_and!; [exact Hpos|exact Ec|].
  intros H1. rewrite Ec, H1. simpl. by destruct topic_parts.
Qed.

(** *** Topic parts, written and read back *)

Lemma rstrip_app_space x : rstrip (x +:+ " ") = rstrip x.
Proof.
  induction x as [|c r IH]; [done|].
  change (String c r +:+ " ") with (String c (r +:+ " ")).
  cbn [rstrip]. by rewrite IH.
Qed.

Lemma strip_app_space x : strip (x +:+ " ") = strip x.
Proof.
  unfold strip. induction x as [|c r IH]; [done|].
  change (String c r +:+ " ") with (String c (r +:+ " ")).
  cbn [lstrip]. destruct (isspace c); [exact IH|].
  change (String c (r +:+ " ")) with (String c r +:+ " ").
  apply rstrip_app_space.
Qed.

Lemma strip_space_cons x : strip (String " " x) = strip x.
Proof. reflexivity. Qed.

Lemma app_string_assoc (a b c : string) : (a +:+ b) +:+ c = a +:+ (b +:+ c).
Proof.
  induction a as [|x a IH]; [done|].
  change (String x ((a +:+ b) +:+ c) = String x (a +:+ (b +:+ c))). by rewrite IH.
Qed.

Lemma join_cons2 p q rest :
  join " | " (p :: q :: rest) = p +:+ " " +:+ String "|" (" " +:+ join " | " (q :: rest)).
Proof. reflexivity. Qed.

Lemma parts_round_trip_pre parts : forall pre,
  parts <> [] -> Forall (fun p => contains "|" p = false) parts ->
  pre = EmptyString \/ pre = " "%string ->
  map strip (split "|" (pre +:+ join " | " parts)) = map strip parts.
Proof.
  induction parts as [|p rest IH]; intros pre Hne Hall Hpre; [done|].
  apply Forall_cons in Hall as [Hp Hrest].
  assert (Hs : strip (pre +:+ p) = strip p) by (by destruct Hpre as [->| ->]).
  assert (Hc : contains "|" pre = false) by (by destruct Hpre as [->| ->]).
  destruct rest as [|q rest'].
  - unfold join. cbn [String.concat map].
    rewrite split_no_sep by (by rewrite contains_app, Hc, Hp).
    simpl. by rewrite Hs.
  - rewrite join_cons2, <- !app_string_assoc, split_app_sep.
    rewrite split_no_sep by (by rewrite !contains_app, Hc, Hp).
    cbn [app map]. rewrite strip_app_space, Hs. f_equal.
    apply IH; [done|done|by right].
Qed.

(** X21. The topic a command writes is read back by the next command as
    the same parts: joining parts with [" | "], splitting at ["|"] and
    stripping gives the stripped parts again, provided there is at least one
    part and none holds a ["|"]. No parts at all are read back as one empty
    part. *)
Theorem topic_parts_round_trip (parts : list string) :
  Forall (fun p => contains "|" p = false) parts ->
  map strip (split "|" (join " | " parts))
  = match parts with
    | [] => [EmptyString]
    | _ :: _ => map strip parts
    end.
Proof.
  intros Hall. destruct parts as [|p rest]; [done|].
  by apply (parts_round_trip_pre (p :: rest) EmptyString); [|..|left].
Qed.

End TopicFacts.




Example topic_updated_example :
  Topic.outbox (Topic.run [Topic.op_command (Topic.EAppend "x") "#a";
                           Topic.op_command (Topic.EAppend "y") "#a";
                           Topic.op_topic_updated "#a" "t"] Topic.started)
  = [Topic.fetch_request "#a"; Topic.fetch_request "#a";
     deferred_callback 0 "t";
     issue_request "ircop.topic" [(EmptyString, Some "#a"%string); (EmptyString, Some "t | x"%string)];
     deferred_callback 1 "t";
     issue_request "ircop.topic" [(EmptyString, Some "#a"%string); (EmptyString, Some "t | y"%string)]].
Proof. vm_compute. reflexivity. Qed.

(** The same two commands when the timeout call has run before the topic
    arrives: the handler still returns and calls both deferreds back, the
    first command replies that the topic could not be determined, the
    second one edits. *)
Example topic_updated_after_timeout_example :
  let s := Topic.run [Topic.op_command (Topic.EAppend "x") "#a";
                      Topic.op_command (Topic.EAppend "y") "#a";
                      Topic.op_timeout 0] Topic.started in
  Topic.waiters_of s "#a" = [0; 1]
  /\ Topic.on_event_irc_on_topic_updated "#a" "t" s
     = (Py.Ok tt,
        Topic.mkTopic {["#a"%string := ["t"%string]]} ∅ ∅ 2
          [Topic.mkTimeout 10 "#a" Topic.Called]
          [Topic.fetch_request "#a"; Topic.fetch_request "#a";
           deferred_callback 0 "t";
           reply "Could not determine current topic";
           deferred_callback 1 "t";
           issue_request "ircop.topic"
             [(EmptyString, Some "#a"%string); (EmptyString, Some "t | y"%string)]]).
Proof. vm_compute. split; reflexivity. Qed.

Lemma timeout_raises_and_keeps_waiters_witness :
  let s := Topic.run [Topic.op_command Topic.EPop "#a";
                      Topic.op_command (Topic.EAppend "y") "#a"] Topic.started in
  exists (s' s2 : Topic.IRCTopic) (acts : list Action),
    Topic.timeout_fire 0 s
      = (Py.Raise (Py.OtherError "TypeError: failure() takes exactly 1 argument (0 given)"), s')
    /\ Topic.waiters_of s' "#a" = [0; 1]
    /\ Topic.reactor (snd (Topic.topic_command Topic.EPop "#a" s')) = Topic.reactor s'
    /\ Topic.on_event_irc_on_topic_updated "#a" "a | b" s' = (Py.Ok tt, s2)
    /\ Topic.outbox s2 = Topic.outbox s' ++ acts
    /\ filter (fun a => a = reply "Could not determine current topic") acts
       = [reply "Could not determine current topic"]
    /\ issue_request "ircop.topic"
         [(EmptyString, Some "#a"%string); (EmptyString, Some "a | b | y"%string)] ∈ acts.
Proof.
  destruct (timeout_raises_and_keeps_waiters
              [Topic.op_command Topic.EPop "#a"; Topic.op_command (Topic.EAppend "y") "#a"] 0
              (Topic.mkTimeout 10 "#a" Topic.Pending) eq_refl eq_refl)
    as (d0 & rest & edit0 & s' & Ew & _ & E & Hw & _ & _ & _ & _ & Hnext & Htopic).
  assert (Ed : d0 = 0 /\ rest = [1]).
  { vm_compute in Ew. by injection Ew as <- <-. }
  destruct Ed as [-> ->].
  destruct (Htopic "a | b"%string) as (s2 & acts & E2 & _ & Ho & _ & Hf & Hed).
  exists s', s2, acts. split; [exact E|].
  split; [unfold Topic.waiters_of; rewrite Hw; vm_compute; reflexivity|].
  split.
  { destruct (Hnext Topic.EPop) as (s'' & E' & _ & Hr & _).
    cbn [Topic.tc_channel] in E'. rewrite E'. exact Hr. }
  split; [exact E2|]. split; [exact Ho|]. split; [exact Hf|].
  apply (Hed 1 (Topic.EAppend "y")); [left|vm_compute; reflexivity|vm_compute; left].
Defined.

Lemma topic_parts_round_trip_witness :
  map Py.strip (Py.split "|" (Py.join " | " ["Welcome"; " to  #a "; "be nice"]%string))
  = ["Welcome"; "to  #a"; "be nice"]%string.
Proof.
  rewrite (topic_parts_round_trip ["Welcome"; " to  #a "; "be nice"]%string).
  - reflexivity.
  - repeat constructor.
Defined.

Example topic_undo_example :
  let s := Topic.run [Topic.op_topic_updated "#a" "one"; Topic.op_topic_updated "#a" "two";
                      Topic.op_undo "#a"; Topic.op_topic_updated "#a" "one"] Topic.started in
  Topic.stack_of s "#a" = ["one"%string]
  /\ Topic.outbox s
     = [issue_request "ircop.topic" [(EmptyString, Some "#a"%string); (EmptyString, Some "one"%string)]].
Proof. vm_compute. split; reflexivity. Qed.

(** ** The plugin base *)

Section PluginBaseFacts.
Import Py PluginBase.
Local Open Scope py_scope.

Lemma set_plugin_config_same c : set_plugin_config (plugin_config c) c = c.
Proof. by destruct c. Qed.

(** [get_plugin_config] in closed form. *)
Lemma get_plugin_config_spec plugin_name s :
  let path := plugin_config_path (_configdir s) plugin_name in
  let old_config := match plugin_config (config s) with
                    | Some pc => default (JObj []) (pc !! plugin_name)
                    | None => JObj []
                    end in
  let files' := match plugin_files s !! path with
                | Some _ => plugin_files s
                | None => <[path := old_config]> (plugin_files s)
                end in
  let pc' := match plugin_config (config s) with
             | Some pc => if decide (delete plugin_name pc = ∅) then None
                          else Some (delete plugin_name pc)
             | None => None
             end in
  let changed := match plugin_config (config s) with
                 | Some pc => bool_decide (is_Some (pc !! plugin_name) \/ pc = ∅)
                 | None => false
                 end in
  get_plugin_config plugin_name s
  = (Ok (mkPluginConfig path (default old_config (plugin_files s !! path))),
     mkBoss (_configdir s) (set_plugin_config pc' (config s)) (loaded_plugins s)
       (if changed then set_plugin_config pc' (config s) else master_file s)
       files' (calls s)).
Proof.
  intros path old_config files' pc' changed.
  unfold get_plugin_config. fold path. fold old_config.
  unfold PluginConfig_init, save, bind, get, modify, ret, raise.
  unfold files', pc', changed. clear files' pc' changed. destruct s as [dir cfg lp mf pf cs].
  destruct cfg as [core pc other]. simpl in *. unfold old_config, path in *.
  clear old_config path. set (path := plugin_config_path dir plugin_name).
  assert (Hstep : forall (m : gmap string Json) d, <[path := d]> m !! path = Some d)
    by (intros; apply lookup_insert_eq).
  destruct (pf !! path) as [d0|] eqn:Ef; simpl;
    (destruct pc as [pc|]; simpl; [|by rewrite ?Ef, ?Hstep]);
    (destruct (pc !! plugin_name) as [v|] eqn:Ev; simpl;
     [|rewrite (delete_id pc plugin_name Ev)]);
    (destruct (decide (_ = ∅)) as [E|E]; simpl);
    rewrite ?Ef, ?Hstep; simpl;
    rewrite ?decide_True by done; rewrite ?decide_False by done; simpl;
    rewrite ?Ef, ?Hstep; simpl;
    try reflexivity.
  all: try (rewrite bool_decide_eq_true_2 by (by right); reflexivity).
  all: rewrite bool_decide_eq_false_2; [reflexivity|]; intros [[? ?]|?]; done.
Qed.

Lemma get_plugin_config_post plugin_name s :
  exists d s',
    get_plugin_config plugin_name s
      = (Ok (mkPluginConfig (plugin_config_path (_configdir s) plugin_name) d), s')
    /\ plugin_files s' !! plugin_config_path (_configdir s) plugin_name = Some d
    /\ (forall pc, plugin_config (config s') = Some pc ->
          pc !! plugin_name = None /\ pc <> ∅)
    /\ loaded_plugins s' = loaded_plugins s /\ calls s' = calls s
    /\ _configdir s' = _configdir s.
Proof.
  eexists _, _. split; [apply get_plugin_config_spec|]. simpl. split_and!; try done.
  - by destruct (plugin_files s !! _) as [d0|] eqn:Ef; simpl; rewrite ?lookup_insert_eq.
  - intros pc. destruct (plugin_config (config s)) as [pc0|]; [|done].
    destruct (decide (delete plugin_name pc0 = ∅)) as [E|E]; [done|].
    intros [= <-]. split; [apply lookup_delete_eq|done].
Qed.

(** X22. [get_plugin_config] always returns a config read from the
    plugin's own file. A file that exists is left as it is and wins: the
    entry the master config has for the plugin is deleted all the same,
    unread. Only a missing file is created, from that entry or as the empty
    object. Afterwards the master config has no entry for the plugin and no
    empty [plugin_config]; it is saved exactly when it was changed. *)
Theorem get_plugin_config_migrates (plugin_name : string) (s : PluginBoss) :
  let path := plugin_config_path (_configdir s) plugin_name in
  let old_config := match plugin_config (config s) with
                    | Some pc => default (JObj []) (pc !! plugin_name)
                    | None => JObj []
                    end in
  exists d s',
    get_plugin_config plugin_name s = (Ok (mkPluginConfig path d), s')
    /\ plugin_files s' !! path = Some d
    /\ (forall d0, plugin_files s !! path = Some d0 ->
          d = d0 /\ plugin_files s' = plugin_files s)
    /\ (plugin_files s !! path = None ->
          d = old_config /\ plugin_files s' = <[path := d]> (plugin_files s))
    /\ (forall pc, plugin_config (config s') = Some pc ->
          pc !! plugin_name = None /\ pc <> ∅)
    /\ (config s' <> config s -> master_file s' = config s')
    /\ (config s' = config s -> master_file s' = master_file s)
    /\ loaded_plugins s' = loaded_plugins s /\ calls s' = calls s
    /\ _configdir s' = _configdir s.
Proof.
  intros path old_config. eexists _, _.
  split; [apply get_plugin_config_spec|]. fold path. fold old_config. simpl.
  split_and!; try done.
  - by destruct (plugin_files s !! path) as [d0|] eqn:Ef; simpl; rewrite ?lookup_insert_eq.
  - intros d0 Ef. by rewrite Ef.
  - intros Ef. by rewrite Ef.
  - intros pc. destruct (plugin_config (config s)) as [pc0|]; [|done].
    destruct (decide (delete plugin_name pc0 = ∅)) as [E|E]; [done|].
    intros [= <-]. split; [apply lookup_delete_eq|done].
  - intros Hne. destruct (plugin_config (config s)) as [pc0|] eqn:Ep.
    + destruct (bool_decide _) eqn:Eb; [done|]. exfalso. apply Hne.
      apply bool_decide_eq_false in Eb.
      assert (Hn : pc0 !! plugin_name = None).
      { destruct (pc0 !! plugin_name) eqn:E; [|done]. exfalso. apply Eb. left. by eexists. }
      rewrite delete_id by done. rewrite decide_False by tauto.
      rewrite <- Ep. apply set_plugin_config_same.
    + exfalso. apply Hne. rewrite <- Ep. apply set_plugin_config_same.
  - intros He. destruct (plugin_config (config s)) as [pc0|] eqn:Ep; [|done].
    destruct (bool_decide _) eqn:Eb; [|done]. exfalso.
    apply bool_decide_eq_true in Eb.
    apply (f_equal plugin_config) in He. simpl in He. rewrite Ep in He.
    destruct (decide (delete plugin_name pc0 = ∅)) as [E|E]; [done|].
    injection He as He. destruct Eb as [[v Hv]| ->].
    + apply (f_equal (fun m => m !! plugin_name)) in He.
      rewrite lookup_delete_eq, Hv in He. done.
    + apply E. apply delete_empty.
Qed.

(** X23. [get_plugin_config] is idempotent: a second call for the same
    plugin returns the same config and changes nothing, neither in memory
    nor on disk. *)
Theorem get_plugin_config_idempotent (plugin_name : string) (s : PluginBoss) :
  get_plugin_config plugin_name (snd (get_plugin_config plugin_name s))
  = get_plugin_config plugin_name s.
Proof.
  destruct (get_plugin_config_post plugin_name s)
    as (d & s' & E & Hf & Hpc & _ & _ & Hdir).
  rewrite E. simpl. rewrite get_plugin_config_spec. rewrite Hdir, Hf. simpl.
  destruct s' as [dir cfg lp mf pf cs]. destruct cfg as [core pc other]. simpl in *.
  destruct pc as [pc|]; [|by rewrite Hdir].
  destruct (Hpc pc eq_refl) as [Hn Hne].
  rewrite delete_id by done. rewrite decide_False by done.
  rewrite bool_decide_eq_false_2; [by rewrite Hdir|]. rewrite Hn. intros [[? ?]|?]; done.
Qed.

Lemma length_append_string (a b : string) :
  String.length (a +:+ b) = String.length a + String.length b.
Proof.
  induction a as [|c a IH]; [done|].
  change (String c a +:+ b) with (String c (a +:+ b)). simpl. by rewrite IH.
Qed.

(** X27. [PluginConfig.save] followed by a fresh [PluginConfig] on the
    same file reads the saved data back; the temporary file [jsonfile~] is
    gone, and no other file is touched. *)
Theorem plugin_config_save_then_load (c : PluginConfig) (s : PluginBoss) :
  exists s',
    PluginConfig_save c s = (Ok tt, s')
    /\ PluginConfig_init (_jsonfile c) s' = (Ok c, s')
    /\ plugin_files s' !! (_jsonfile c +:+ "~") = None
    /\ (forall path, path <> _jsonfile c -> path <> (_jsonfile c +:+ "~")%string ->
          plugin_files s' !! path = plugin_files s !! path)
    /\ config s' = config s /\ master_file s' = master_file s.
Proof.
  assert (Hne : (_jsonfile c +:+ "~")%string <> _jsonfile c).
  { intros E. apply (f_equal String.length) in E.
    rewrite length_append_string in E. simpl in E. lia. }
  eexists. split.
  { unfold PluginConfig_save, bind, get, modify, ret, raise. simpl.
    rewrite lookup_insert_eq. reflexivity. }
  simpl. split_and!; try done.
  - unfold PluginConfig_init, bind, get, ret. simpl. rewrite lookup_insert_eq.
    by destruct c.
  - rewrite lookup_insert_ne by done. apply lookup_delete_eq.
  - intros path H1 H2. rewrite lookup_insert_ne by done.
    rewrite lookup_delete_ne by done. by rewrite lookup_insert_ne.
Qed.

(** *** Loading and unloading *)

Lemma get_plugin_config_ok plugin_name s :
  exists c,
    get_plugin_config plugin_name s = (Ok c, snd (get_plugin_config plugin_name s))
    /\ loaded_plugins (snd (get_plugin_config plugin_name s)) = loaded_plugins s
    /\ calls (snd (get_plugin_config plugin_name s)) = calls s
    /\ is_Some (plugin_files (snd (get_plugin_config plugin_name s))
                 !! plugin_config_path (_configdir s) plugin_name).
Proof.
  destruct (get_plugin_config_post plugin_name s)
    as (d & s' & E & Hf & _ & Hl & Hc & _).
  eexists. rewrite E. simpl. split_and!; try done.
Qed.

Lemma load_plugin_inv package plugin_name s r s1 :
  load_plugin package plugin_name s = (r, s1) ->
  match r with
  | Ok _ => exists pluginclass,
              loaded_plugins s1 = <[plugin_name := pluginclass]> (loaded_plugins s)
              /\ calls s1 = calls s ++ [call_start plugin_name]
  | Raise _ => loaded_plugins s1 = loaded_plugins s
  end.
Proof.
  unfold load_plugin.
  destruct (split "." plugin_name) as [|a [|b [|c l]]]; try (by intros [= <- <-]).
  destruct (package a) as [module|]; [|by intros [= <- <-]].
  destruct (module b) as [pluginclass|]; [|by intros [= <- <-]].
  destruct (get_plugin_config_ok plugin_name s) as (c & E & Hl & Hcalls & _).
  unfold plugin_start, call, try_except, bind, modify, ret, raise. rewrite E.
  destruct (start_raises pluginclass) as [e|]; intros [= <- <-]; simpl.
  - exact Hl.
  - exists pluginclass. by rewrite Hl, Hcalls.
Qed.

(** X25. [load_plugin]. A name that does not split at ["."] into exactly
    two parts (no ["."], or more than one) raises [ValueError] before
    anything is done. For a class of
    the package the plugin's config file is read (and created if missing)
    by the constructor; then, when [start()] raises, the plugin is unhooked,
    the exception is raised again and [loaded_plugins] is left as it was,
    while the config file stays; when [start()] returns, the plugin is
    entered in [loaded_plugins] under its name, replacing whatever was
    there without a call on the old plugin. *)
Theorem load_plugin_outcomes
    (package : string -> option (string -> option PluginClass))
    (plugin_name : string) (s : PluginBoss) :
  (contains "." plugin_name = false ->
     load_plugin package plugin_name s
     = (Raise (ValueError "need more than 1 value to unpack"), s))
  /\ (2 < length (split "." plugin_name) ->
     load_plugin package plugin_name s = (Raise (ValueError "too many values to unpack"), s))
  /\ (forall modulename classname module pluginclass,
        split "." plugin_name = [modulename; classname] ->
        package modulename = Some module -> module classname = Some pluginclass ->
        exists s',
          is_Some (plugin_files s' !! plugin_config_path (_configdir s) plugin_name)
          /\ match start_raises pluginclass with
             | Some e =>
                 load_plugin package plugin_name s = (Raise e, s')
                 /\ loaded_plugins s' = loaded_plugins s
                 /\ calls s' = calls s ++ [call_start plugin_name; call_unhook plugin_name]
             | None =>
                 load_plugin package plugin_name s = (Ok tt, s')
                 /\ loaded_plugins s' = <[plugin_name := pluginclass]> (loaded_plugins s)
                 /\ calls s' = calls s ++ [call_start plugin_name]
             end).
Proof.
  split_and!.
  - intros Hno. unfold load_plugin. by rewrite (split_no_sep "." plugin_name Hno).
  - intros Hlen. unfold load_plugin.
    destruct (split "." plugin_name) as [|a [|b [|c r]]]; try done; simpl in Hlen; lia.
  - intros modulename classname module pluginclass Hs Hm Hc.
    destruct (get_plugin_config_ok plugin_name s) as (c & E & Hl & Hcalls & Hf).
    set (s0 := snd (get_plugin_config plugin_name s)) in *.
    unfold load_plugin. rewrite Hs, Hm, Hc.
    unfold plugin_start, call, try_except, bind, modify, ret, raise. rewrite E.
    destruct (start_raises pluginclass) as [e|]; eexists; (split; [|split_and!; [reflexivity|..]]);
      simpl; rewrite ?Hl, ?Hcalls, <- ?app_assoc; done.
Qed.

(** X26. [unload_plugin]. A plugin that is not loaded raises [KeyError]
    and nothing is called. A loaded plugin is first taken out of
    [loaded_plugins], then unhooked, then stopped: when [stop()] raises the
    exception leaves [unload_plugin], with the plugin already gone and
    unhooked. Unloading right after a successful load leaves
    [loaded_plugins] without the name. *)
Theorem unload_plugin_outcomes
    (package : string -> option (string -> option PluginClass))
    (plugin_name : string) (s : PluginBoss) :
  (loaded_plugins s !! plugin_name = None ->
     unload_plugin plugin_name s = (Raise KeyError, s))
  /\ (forall plugin, loaded_plugins s !! plugin_name = Some plugin ->
      unload_plugin plugin_name s
      = (match stop_raises plugin with Some e => Raise e | None => Ok tt end,
         set_calls (calls s ++ [call_unhook plugin_name; call_stop plugin_name])
           (set_loaded_plugins (delete plugin_name (loaded_plugins s)) s)))
  /\ (forall s1, load_plugin package plugin_name s = (Ok tt, s1) ->
      loaded_plugins (snd (unload_plugin plugin_name s1))
        = delete plugin_name (loaded_plugins s)
      /\ calls (snd (unload_plugin plugin_name s1))
         = calls s ++ [call_start plugin_name; call_unhook plugin_name;
                       call_stop plugin_name]).
Proof.
  assert (Hloaded : forall s0 plugin, loaded_plugins s0 !! plugin_name = Some plugin ->
            unload_plugin plugin_name s0
            = (match stop_raises plugin with Some e => Raise e | None => Ok tt end,
               set_calls (calls s0 ++ [call_unhook plugin_name; call_stop plugin_name])
                 (set_loaded_plugins (delete plugin_name (loaded_plugins s0)) s0))).
  { intros s0 plugin H. unfold unload_plugin, plugin_stop, call, bind, get, modify, ret, raise.
    rewrite H. simpl. rewrite <- app_assoc. by destruct (stop_raises plugin). }
  split_and!.
  - intros H. unfold unload_plugin, bind, get. by rewrite H.
  - apply Hloaded.
  - intros s1 E.
    destruct (load_plugin_inv package plugin_name s _ s1 E) as (pluginclass & Hl & Hcalls).
    rewrite (Hloaded s1 pluginclass) by (rewrite Hl; apply lookup_insert_eq).
    simpl. rewrite Hl, Hcalls, delete_insert_eq, <- app_assoc. done.
Qed.

Lemma for_each_app {St A} (l1 l2 : list A) (body : A -> Py.M St unit) s :
  for_each (l1 ++ l2) body s
  = match for_each l1 body s with
    | (Ok _, s1) => for_each l2 body s1
    | (Raise e, s1) => (Raise e, s1)
    end.
Proof.
  revert s. induction l1 as [|x l1 IH]; intros s; [done|].
  cbn [app for_each]. unfold bind. destruct (body x s) as [[[]|e] s']; [apply IH|done].
Qed.

Lemma load_plugins_loaded package names : forall s s1 m,
  for_each names (load_plugin package) s = (Ok tt, s1) ->
  m ∉ names -> loaded_plugins s1 !! m = loaded_plugins s !! m.
Proof.
  induction names as [|n names IH]; intros s s1 m E Hm.
  - by injection E as <-.
  - cbn [for_each] in E. unfold bind in E.
    destruct (load_plugin package n s) as [[[]|e] s'] eqn:El; [|discriminate E].
    apply not_elem_of_cons in Hm as [Hne Hm].
    rewrite (IH s' s1 m E Hm).
    destruct (load_plugin_inv package n s _ s' El) as (pluginclass & Hl & _).
    rewrite Hl. by apply lookup_insert_ne.
Qed.

(** X28. [load_all_plugins] stops at the first plugin whose load raises:
    the exception leaves [load_all_plugins], the plugins listed before it
    stay loaded, and neither the failing plugin nor any plugin listed only
    after it is entered in [loaded_plugins]. *)
Theorem load_all_plugins_stops_at_first_failure
    (package : string -> option (string -> option PluginClass))
    (s s1 s2 : PluginBoss) (before rest : list string) (plugin_name : string) (e : Exc) :
  core_plugins (config s) = before ++ plugin_name :: rest ->
  for_each before (load_plugin package) s = (Ok tt, s1) ->
  load_plugin package plugin_name s1 = (Raise e, s2) ->
  load_all_plugins package s = (Raise e, s2)
  /\ loaded_plugins s2 = loaded_plugins s1
  /\ forall m, m ∉ before -> loaded_plugins s2 !! m = loaded_plugins s !! m.
Proof.
  intros Hcore Hbefore Hfail.
  pose proof (load_plugin_inv package plugin_name s1 _ s2 Hfail) as Hl. simpl in Hl.
  split_and!.
  - unfold load_all_plugins, bind, get. rewrite Hcore, for_each_app, Hbefore.
    cbn [for_each]. unfold bind. by rewrite Hfail.
  - exact Hl.
  - intros m Hm. rewrite Hl. by apply (load_plugins_loaded package before).
Qed.

(** *** The dispatcher methods of [BotPlugin] *)

Lemma replace_char_no_old old new s :
  old <> new -> contains old (replace_char old new s) = false.
Proof.
  intros Hne. induction s as [|c r IH]; [done|]. simpl.
  destruct (Ascii.eqb_spec c old) as [->|Hc].
  - destruct (Ascii.eqb_spec new old) as [->|_]; done.
  - destruct (Ascii.eqb_spec c old) as [->|_]; done.
Qed.

Lemma replace_char_back a b s :
  replace_char a b (replace_char b a s) = replace_char a b s.
Proof.
  induction s as [|c r IH]; [done|]. simpl. rewrite IH. f_equal.
  destruct (Ascii.eqb_spec c b) as [->|Hb].
  - rewrite Ascii.eqb_refl. by destruct (Ascii.eqb_spec b a).
  - done.
Qed.

(** X24. The dispatcher methods find a method by the name of the event or
    request with every ["."] replaced by ["_"], so that name holds no
    ["."] and names that differ only in ["."] against ["_"] reach the same
    method. Without a method an event is ignored, a middleware event is
    passed on unchanged, and a request returns a deferred that has failed:
    none of the three raises. *)
Theorem dispatch_by_underscored_name {St Event Args : Type}
    (self : BotPlugin (St:=St) (Event:=Event) (Args:=Args)) (name : string) :
  contains "." (replace_char "." "_" name) = false
  /\ (forall other, replace_char "." "_" other = replace_char "." "_" name ->
        received_event self other = received_event self name
        /\ received_middleware_event self other = received_middleware_event self name
        /\ incoming_request self other = incoming_request self name)
  /\ received_event self (replace_char "_" "." name) = received_event self name
  /\ (event_methods self !! method_name "on_event_" name = None ->
      forall event s, received_event self name event s = (Ok tt, s))
  /\ (middleware_methods self !! method_name "on_middleware_" name = None ->
      forall event s, received_middleware_event self name event s = (Ok (Some event), s))
  /\ (request_methods self !! method_name "on_request_" name = None ->
      forall args s,
        incoming_request self name args s
        = (Ok (Raise (OtherError "The plugin does not provide that request method")), s)).
Proof.
  split_and!.
  - by apply replace_char_no_old.
  - intros other H.
    unfold received_event, received_middleware_event, incoming_request, method_name.
    by rewrite H.
  - unfold received_event, method_name. by rewrite replace_char_back.
  - intros H event s. unfold received_event. by rewrite H.
  - intros H event s. unfold received_middleware_event. by rewrite H.
  - intros H args s. unfold incoming_request. by rewrite H.
Qed.

End PluginBaseFacts.

Lemma load_plugin_outcomes_witness :
  PluginBase.load_plugin demo_package "admin" demo_boss
    = (Py.Raise (Py.ValueError "need more than 1 value to unpack"), demo_boss)
  /\ exists s',
       PluginBase.load_plugin demo_package "admin.Broken" demo_boss
         = (Py.Raise (Py.OtherError "boom"), s')
       /\ PluginBase.loaded_plugins s' = ∅
       /\ is_Some (PluginBase.plugin_files s' !! "cfg/admin.Broken.json"%string).
Proof.
  split.
  - apply (load_plugin_outcomes demo_package "admin" demo_boss). reflexivity.
  - destruct (load_plugin_outcomes demo_package "admin.Broken" demo_boss) as (_ & _ & H).
    destruct (H "admin" "Broken"%string
                (fun classname =>
                   if String.eqb classname "IRCAdmin" then Some (PluginBase.mkClass None None)
                   else if String.eqb classname "Broken"
                        then Some (PluginBase.mkClass (Some (Py.OtherError "boom")) None)
                        else None)
                (PluginBase.mkClass (Some (Py.OtherError "boom")) None)
                eq_refl eq_refl eq_refl) as (s' & Hf & E & Hl & _).
    exists s'. split; [exact E|]. split; [exact Hl|exact Hf].
Defined.

Lemma unload_plugin_outcomes_witness :
  PluginBase.unload_plugin "admin.IRCAdmin" demo_boss = (Py.Raise Py.KeyError, demo_boss)
  /\ PluginBase.loaded_plugins
       (snd (PluginBase.unload_plugin "admin.IRCAdmin"
               (snd (PluginBase.load_plugin demo_package "admin.IRCAdmin" demo_boss))))
     = ∅.
Proof.
  destruct (unload_plugin_outcomes demo_package "admin.IRCAdmin" demo_boss) as (H1 & _ & H3).
  split; [apply H1; reflexivity|].
  destruct (H3 (snd (PluginBase.load_plugin demo_package "admin.IRCAdmin" demo_boss)))
    as [Hl _]; [vm_compute; reflexivity|].
  rewrite Hl. vm_compute. reflexivity.
Defined.

Lemma topic_undo_then_echo_witness :
  let s := Topic.run [Topic.op_topic_updated "#a" "one"; Topic.op_topic_updated "#a" "two"]
             Topic.started in
  exists s1 s2,
    Topic.topic_undo "#a" s = (Py.Ok tt, s1)
    /\ Topic.stack_of s1 "#a" = []
    /\ s2 = snd (Topic.on_event_irc_on_topic_updated "#a" "one" s1)
    /\ Topic.stack_of s2 "#a" = ["one"%string].
Proof.
  destruct (topic_undo_then_echo
              [Topic.op_topic_updated "#a" "one"; Topic.op_topic_updated "#a" "two"] "#a")
    as [_ H].
  destruct (H [] "one"%string "two"%string ltac:(vm_compute; reflexivity))
    as (s1 & s2 & E & _ & Hs1 & _ & E2 & Hs2).
  exists s1, s2. split; [exact E|]. split; [exact Hs1|]. split; [exact E2|exact Hs2].
Defined.

Example get_plugin_config_example :
  let r := PluginBase.get_plugin_config "admin.IRCAdmin" demo_boss in
  fst r = Py.Ok (PluginBase.mkPluginConfig "cfg/admin.IRCAdmin.json"
                   (PluginBase.JObj [("defaulttime"%string, PluginBase.JNull)]))
  /\ PluginBase.plugin_config (PluginBase.config (snd r)) = None
  /\ PluginBase.master_file (snd r) = PluginBase.config (snd r).
Proof. vm_compute. repeat split; reflexivity. Qed.

Lemma load_all_plugins_stops_at_first_failure_witness :
  fst (PluginBase.load_all_plugins demo_package demo_boss3) = Py.Raise (Py.OtherError "boom")
  /\ PluginBase.loaded_plugins (snd (PluginBase.load_all_plugins demo_package demo_boss3))
       !! "admin.Broken"%string = None
  /\ PluginBase.loaded_plugins (snd (PluginBase.load_all_plugins demo_package demo_boss3))
       !! "admin.IRCTopic"%string = None.
Proof.
  destruct (load_all_plugins_stops_at_first_failure demo_package demo_boss3
              (snd (PluginBase.load_plugin demo_package "admin.IRCAdmin" demo_boss3))
              (snd (PluginBase.load_plugin demo_package "admin.Broken"
                      (snd (PluginBase.load_plugin demo_package "admin.IRCAdmin" demo_boss3))))
              ["admin.IRCAdmin"%string] ["admin.IRCTopic"%string] "admin.Broken"
              (Py.OtherError "boom")
              ltac:(reflexivity) ltac:(vm_compute; reflexivity) ltac:(vm_compute; reflexivity))
    as (E & _ & Hm).
  rewrite E. simpl. split; [reflexivity|].
  split; rewrite Hm by (intros H; apply list_elem_of_singleton in H; discriminate H);
    reflexivity.
Defined.

Lemma topic_edit_after_undo_uses_older_topic_witness :
  let s := Topic.run [Topic.op_topic_updated "#a" "one"; Topic.op_topic_updated "#a" "two";
                      Topic.op_topic_updated "#a" "three"; Topic.op_undo "#a";
                      Topic.op_command (Topic.EAppend "x") "#a"] Topic.started in
  Topic.outbox s
  = [issue_request "ircop.topic" [(EmptyString, Some "#a"%string); (EmptyString, Some "two"%string)];
     issue_request "ircop.topic"
       [(EmptyString, Some "#a"%string); (EmptyString, Some "one | x"%string)]].
Proof.
  pose proof (topic_edit_after_undo_uses_older_topic "#a" "x" "two" "three" ["one"%string]
                (Topic.run [Topic.op_topic_updated "#a" "one";
                            Topic.op_topic_updated "#a" "two";
                            Topic.op_topic_updated "#a" "three"] Topic.started)
                ltac:(vm_compute; reflexivity)) as (_ & _ & H).
  cbn [last] in H.
  change (Topic.outbox
            (snd (Topic.topic_command (Topic.EAppend "x") "#a"
                    (snd (Topic.topic_undo "#a"
                            (Topic.run [Topic.op_topic_updated "#a" "one";
                                        Topic.op_topic_updated "#a" "two";
                                        Topic.op_topic_updated "#a" "three"] Topic.started)))))
          = [issue_request "ircop.topic"
               [(EmptyString, Some "#a"%string); (EmptyString, Some "two"%string)];
             issue_request "ircop.topic"
               [(EmptyString, Some "#a"%string); (EmptyString, Some "one | x"%string)]]).
  rewrite H. vm_compute. reflexivity.
Defined.
